(** * Trident installer ([cli/cmd/install.go]): model and checked properties

    The installer is a linear sequence of blocking calls to external
    collaborators (the kubectl-based cluster client, the UCP client, the
    file system, the storage-backend factory, the back-off clock).  The
    model keeps the program text and replaces the collaborators by an
    arbitrary handler over an abstract world: every call the installer
    issues is recorded, with the answer it got, in the trace of the run.
    The properties below are statements about the traces and results of
    all runs, for all handlers.

    Conventions.
    - A Go [error] is its message ([string]); a Go result pair [(T, error)]
      is [result T]; a Go function returning only [error] returns
      [option error] ([None] is [nil]).
    - [fmt.Errorf]/[fmt.Sprintf] with the verbs [%s], [%v] and [%d] are
      written out as string concatenation.
    - Debug and Info log lines are left out; Warning and Error lines are
      events of the trace. *)

From Stdlib Require Import String Ascii ZArith List Bool DecimalString.
From stdpp Require Import base option list gmap strings.

Local Open Scope Z_scope.
Local Open Scope string_scope.
Local Open Scope list_scope.

(** ** Go values *)

Definition error := string.

Inductive result (A : Type) : Type :=
| Ok (a : A)
| Err (err : error).
Arguments Ok {A} a.
Arguments Err {A} err.

(** The double-quote character, for messages that contain it. *)
Definition dquote : string := String (ascii_of_nat 34) EmptyString.

(** [fmt] verb [%d] on an integer. *)
Definition fmt_d (n : Z) : string := NilZero.string_of_int (Z.to_int n).

(** Indexing a Go [map[string]string] that may be [nil]: a missing key, or
    any key of a nil map, reads as the empty string. *)
Definition Labels := option (gmap string string).

Definition index (m : Labels) (k : string) : string :=
  match m with
  | Some m => default EmptyString (m !! k)
  | None => EmptyString
  end.

(** [time.Duration]: a count of nanoseconds. *)
Definition Duration := Z.
Definition Second : Duration := 1000000000.

(** ** Constants of this file *)

Definition DefaultVolumeSize := "2Gi".
Definition BackendConfigFilename := "backend.json".
Definition NamespaceFilename := "trident-namespace.yaml".
Definition ServiceAccountFilename := "trident-serviceaccount.yaml".
Definition ClusterRoleFilename := "trident-clusterrole.yaml".
Definition ClusterRoleBindingFilename := "trident-clusterrolebinding.yaml".
Definition PVCFilename := "trident-pvc.yaml".
Definition DeploymentFilename := "trident-deployment.yaml".
Definition ServiceFilename := "trident-service.yaml".
Definition StatefulSetFilename := "trident-statefulset.yaml".
Definition DaemonSetFilename := "trident-daemonset.yaml".

(** ** Kubernetes API objects ([k8s.io/api/core/v1]), the fields the
    installer reads *)

Definition ClaimBound := "Bound".
Definition ClaimLost := "Lost".
Definition VolumeBound := "Bound".
Definition VolumeReleased := "Released".
Definition VolumeFailed := "Failed".
Definition PodRunning := "Running".
Definition ResourceStorage := "storage".

Record PersistentVolumeClaim := {
  pvc_Name : string;
  pvc_Namespace : string;
  pvc_Labels : Labels;
  pvc_Spec_VolumeName : string;
  pvc_Status_Phase : string
}.

Record ObjectReference := {
  ref_Name : string;
  ref_Namespace : string
}.

Record Pod := {
  pod_Name : string;
  pod_Status_Phase : string;
  pod_Status_Message : string
}.

Record Container := {
  container_Name : string;
  container_Image : string
}.

Record PodTemplateSpec := {
  template_Labels : Labels;
  template_Spec_Containers : list Container
}.

Record Deployment := {
  deployment_Labels : Labels;
  deployment_Spec_Template : PodTemplateSpec
}.

Record Service := {
  service_Labels : Labels
}.

Record StatefulSet := {
  statefulset_Labels : Labels;
  statefulset_Spec_Template : PodTemplateSpec
}.

Record DaemonSet := {
  daemonset_Labels : Labels;
  daemonset_Spec_Template : PodTemplateSpec
}.

(** [k8s_client.OrchestratorFlavor] *)
Inductive OrchestratorFlavor := FlavorKubernetes | FlavorOpenShift.

Definition flavor_eqb (a b : OrchestratorFlavor) : bool :=
  match a, b with
  | FlavorKubernetes, FlavorKubernetes | FlavorOpenShift, FlavorOpenShift => true
  | _, _ => false
  end.

(** ** Storage objects ([storage] package), the fields the installer reads *)

Record NfsAccessInfo := {
  NfsServerIP : string;
  NfsPath : string
}.

Record IscsiAccessInfo := {
  IscsiTargetPortal : string;
  IscsiTargetIQN : string;
  IscsiLunNumber : Z;
  IscsiUsername : string;
  IscsiInitiatorSecret : string;
  IscsiTargetSecret : string
}.

Record VolumeAccessInfo := {
  access_Nfs : NfsAccessInfo;
  access_Iscsi : IscsiAccessInfo
}.

Record VolumeConfig := {
  vc_Version : string;
  vc_Name : string;
  vc_Size : string;
  vc_Protocol : string;
  vc_AccessInfo : VolumeAccessInfo
}.

Record Volume := {
  volume_Config : VolumeConfig;
  volume_Backend : string;
  volume_Pool : string
}.

Record Pool := {
  pool_Name : string
}.

Record Backend := {
  sb_Name : string;
  sb_Storage : gmap string Pool;
  sb_Protocol : string;     (* sb.GetProtocol() *)
  sb_DriverName : string    (* sb.GetDriverName() *)
}.

Definition emptyAccessInfo : VolumeAccessInfo :=
  {| access_Nfs := {| NfsServerIP := EmptyString; NfsPath := EmptyString |};
     access_Iscsi := {| IscsiTargetPortal := EmptyString; IscsiTargetIQN := EmptyString;
                        IscsiLunNumber := 0; IscsiUsername := EmptyString;
                        IscsiInitiatorSecret := EmptyString; IscsiTargetSecret := EmptyString |} |}.

(** [tridentconfig.DriverContext] and [tridentconfig.Telemetry] *)
Inductive DriverContext := ContextKubernetes | ContextCSI.

Record Telemetry := {
  TridentVersion : string;
  Platform : string;
  PlatformVersion : string
}.

(** ** Collaborators outside this file

    Pure helpers and constants that [install.go] takes from other packages
    ([utils], [tridentconfig], [storage], the rest of [cli/cmd]) and from
    third-party libraries ([resource.Quantity], [strings], [encoding/json]).
    Nothing is assumed about them: every property holds for all instances. *)

(** The two data types the installer handles without looking inside:
    parsed versions ([utils.Version]) and quantities ([resource.Quantity]). *)
Class Types := {
  Version : Type;
  Quantity : Type
}.

Class Collaborators {T : Types} := {
  (* utils.Version *)
  MustParseSemantic : string -> Version;
  AtLeast : Version -> Version -> bool;
  ShortString : Version -> string;
  (* resource.Quantity *)
  ParseQuantity : string -> result Quantity;
  Quantity_Cmp : Quantity -> Quantity -> Z;
  Quantity_Sign : Quantity -> Z;
  Quantity_String : Quantity -> string;
  (* tridentconfig *)
  OrchestratorName : string;
  OrchestratorVersion : string;
  KubernetesCSIVersionMin : string;
  ContainerTrident : string;
  (* cli/cmd *)
  TridentLabel : string;
  TridentLabelKey : string;
  TridentLabelValue : string;
  TridentCSILabel : string;
  TridentCSILabelKey : string;
  TridentCSILabelValue : string;
  TridentNodeLabelKey : string;
  TridentNodeLabelValue : string;
  PodServer : string;
  (* storage: volume.ConstructExternal().GetCHAPSecretName() *)
  GetCHAPSecretName : Volume -> string;
  (* strings.TrimSpace *)
  TrimSpace : string -> string;
  (* json.Unmarshal into api.VersionResponse, then .Server.Version *)
  UnmarshalServerVersion : string -> result string
}.

(** Package-level variables of [install.go], as they stand when
    [installTrident] starts (they are not assigned afterwards), and
    [TridentPodNamespace] and [Debug] of the root command. *)
Record Flags := {
  dryRun : bool;
  generateYAML : bool;
  useYAML : bool;
  silent : bool;
  csi : bool;
  pvName : string;
  pvcName : string;
  volumeName : string;
  volumeSize : string;
  tridentImage : string;
  etcdImage : string;
  k8sTimeout : Duration;
  useKubernetesRBAC : bool;
  installerDirectoryPath : string;
  appLabel : string;
  appLabelKey : string;
  appLabelValue : string;
  TridentPodNamespace : string;
  Debug : bool
}.

(** [path.Join] of a clean directory path and a file name. *)
Definition path_Join (dir name : string) : string := dir +:+ "/" +:+ name.

(** The file paths [prepareYAMLFilePaths] assigns. *)
Definition setupPath (g : Flags) := path_Join (installerDirectoryPath g) "setup".
Definition backendConfigFilePath g := path_Join (setupPath g) BackendConfigFilename.
Definition namespacePath g := path_Join (setupPath g) NamespaceFilename.
Definition serviceAccountPath g := path_Join (setupPath g) ServiceAccountFilename.
Definition clusterRolePath g := path_Join (setupPath g) ClusterRoleFilename.
Definition clusterRoleBindingPath g := path_Join (setupPath g) ClusterRoleBindingFilename.
Definition pvcPath g := path_Join (setupPath g) PVCFilename.
Definition deploymentPath g := path_Join (setupPath g) DeploymentFilename.
Definition csiServicePath g := path_Join (setupPath g) ServiceFilename.
Definition csiStatefulSetPath g := path_Join (setupPath g) StatefulSetFilename.
Definition csiDaemonSetPath g := path_Join (setupPath g) DaemonSetFilename.

Definition setupYAMLPaths g : list string :=
  [namespacePath g; serviceAccountPath g; clusterRolePath g; clusterRoleBindingPath g;
   pvcPath g; deploymentPath g; csiServicePath g; csiStatefulSetPath g; csiDaemonSetPath g].

(** ** Regular expressions ([regexp]), as far as the two patterns of this
    file need them; matching is by derivatives. *)

Inductive regex :=
| REmpty                                  (* matches nothing *)
| REps                                    (* matches the empty string *)
| RClass (ranges : list (ascii * ascii))  (* [a-z0-9] and the like *)
| RSeq (r1 r2 : regex)
| RAlt (r1 r2 : regex)
| RStar (r : regex).

Definition ROpt (r : regex) : regex := RAlt r REps.
Definition RChar (c : ascii) : regex := RClass [(c, c)].

Definition in_range (c : ascii) (r : ascii * ascii) : bool :=
  ((nat_of_ascii (fst r) <=? nat_of_ascii c) && (nat_of_ascii c <=? nat_of_ascii (snd r)))%nat.

Definition in_class (ranges : list (ascii * ascii)) (c : ascii) : bool :=
  existsb (in_range c) ranges.

Fixpoint nullable (r : regex) : bool :=
  match r with
  | REmpty => false
  | REps => true
  | RClass _ => false
  | RSeq r1 r2 => nullable r1 && nullable r2
  | RAlt r1 r2 => nullable r1 || nullable r2
  | RStar _ => true
  end.

Fixpoint deriv (c : ascii) (r : regex) : regex :=
  match r with
  | REmpty | REps => REmpty
  | RClass rs => if in_class rs c then REps else REmpty
  | RSeq r1 r2 =>
      if nullable r1 then RAlt (RSeq (deriv c r1) r2) (deriv c r2)
      else RSeq (deriv c r1) r2
  | RAlt r1 r2 => RAlt (deriv c r1) (deriv c r2)
  | RStar r1 => RSeq (deriv c r1) (RStar r1)
  end.

(** [MatchString] of the pattern [^r$]: the whole string matches [r]. *)
Fixpoint MatchString (r : regex) (s : string) : bool :=
  match s with
  | EmptyString => nullable r
  | String c s' => MatchString (deriv c r) s'
  end.

Definition alnum : list (ascii * ascii) := [("a", "z"); ("0", "9")]%char.
Definition dash_alnum : list (ascii * ascii) := [("-", "-"); ("a", "z"); ("0", "9")]%char.

(** [[a-z0-9]([-a-z0-9]*[a-z0-9])?] *)
Definition label_body : regex :=
  RSeq (RClass alnum) (ROpt (RSeq (RStar (RClass dash_alnum)) (RClass alnum))).

(** [^[a-z0-9]([-a-z0-9]*[a-z0-9])?$] *)
Definition dns1123LabelRegex : regex := label_body.

(** [^[a-z0-9]([-a-z0-9]*[a-z0-9])?(\.[a-z0-9]([-a-z0-9]*[a-z0-9])?)*$] *)
Definition dns1123DomainRegex : regex :=
  RSeq label_body (RStar (RSeq (RChar ".") label_body)).

(** ** Argument processing (pure) *)

Section Arguments.
Context {T : Types} {C : Collaborators}.

Definition DefaultPVCName := OrchestratorName.
Definition DefaultPVName := OrchestratorName.
Definition DefaultVolumeName := OrchestratorName.
Definition PreferredNamespace := OrchestratorName.

Definition with_names (g : Flags) (pvc pv vol lbl key val : string) : Flags :=
  {| dryRun := dryRun g; generateYAML := generateYAML g; useYAML := useYAML g;
     silent := silent g; csi := csi g;
     pvName := pv; pvcName := pvc; volumeName := vol;
     volumeSize := volumeSize g; tridentImage := tridentImage g; etcdImage := etcdImage g;
     k8sTimeout := k8sTimeout g; useKubernetesRBAC := useKubernetesRBAC g;
     installerDirectoryPath := installerDirectoryPath g;
     appLabel := lbl; appLabelKey := key; appLabelValue := val;
     TridentPodNamespace := TridentPodNamespace g; Debug := Debug g |}.

Definition processInstallationArguments (g : Flags) : Flags :=
  let pvc :=
    if pvcName g =? EmptyString then (if csi g then DefaultPVCName +:+ "-csi" else DefaultPVCName)
    else pvcName g in
  let pv :=
    if pvName g =? EmptyString then (if csi g then DefaultPVName +:+ "-csi" else DefaultPVName)
    else pvName g in
  let vol :=
    if volumeName g =? EmptyString then (if csi g then DefaultVolumeName +:+ "-csi" else DefaultVolumeName)
    else volumeName g in
  if csi g then with_names g pvc pv vol TridentCSILabel TridentCSILabelKey TridentCSILabelValue
  else with_names g pvc pv vol TridentLabel TridentLabelKey TridentLabelValue.

Definition labelFormat :=
  "a DNS-1123 label must consist of lower case alphanumeric characters or '-', " +:+
  "and must start and end with an alphanumeric character".
Definition subdomainFormat :=
  "a DNS-1123 subdomain must consist of lower case alphanumeric characters, '-' or '.', " +:+
  "and must start and end with an alphanumeric character".

Definition validateInstallationArguments (g : Flags) : option error :=
  if negb (MatchString dns1123LabelRegex (TridentPodNamespace g)) then
    Some ("'" +:+ TridentPodNamespace g +:+ "' is not a valid namespace name; " +:+ labelFormat)
  else if negb (MatchString dns1123DomainRegex (pvcName g)) then
    Some ("'" +:+ pvcName g +:+ "' is not a valid PVC name; " +:+ subdomainFormat)
  else if negb (MatchString dns1123DomainRegex (pvName g)) then
    Some ("'" +:+ pvName g +:+ "' is not a valid PV name; " +:+ subdomainFormat)
  else None.

End Arguments.

(** ** The calls the installer makes, and the events of a run *)

Section Interface.
Context {T : Types}.

Record PersistentVolume := {
  pv_Labels : Labels;
  pv_Spec_ClaimRef : option ObjectReference;
  pv_Spec_Capacity : gmap string Quantity;
  pv_Status_Phase : string
}.

(** What the client reports about the cluster ([client.Flavor()],
    [client.Version()], [client.CLI()], [client.Namespace()]); read-only
    during a run. *)
Record ClusterFacts := {
  Flavor : OrchestratorFlavor;
  ServerVersion : Version;
  CLI : string;
  Namespace : string
}.

(** The manifest bodies of [k8s_client], named by the generator and its
    arguments (the literal YAML text plays no part in the installer). *)
Inductive YAML :=
| GetNamespaceYAML (namespace : string)
| GetServiceAccountYAML (csi : bool)
| GetClusterRoleYAML (flavor : OrchestratorFlavor) (version : Version) (csi : bool)
| GetClusterRoleBindingYAML (namespace : string) (flavor : OrchestratorFlavor)
    (version : Version) (csi : bool)
| GetPVCYAML (pvcName namespace size label : string)
| GetDeploymentYAML (pvcName tridentImage etcdImage label : string) (debug : bool)
| GetCSIServiceYAML (label : string)
| GetCSIStatefulSetYAML (pvcName tridentImage etcdImage label : string) (debug : bool)
| GetCSIDaemonSetYAML (tridentImage label : string) (debug : bool)
| GetNFSPVYAML (pvName size pvcName namespace nfsServer nfsPath label : string)
| GetISCSIPVYAML (pvName size pvcName namespace portal iqn : string) (lun : Z) (label : string)
| GetCHAPISCSIPVYAML (pvName size pvcName namespace secretName portal iqn : string)
    (lun : Z) (label : string)
| GetCHAPSecretYAML (secretName userName initiatorSecret targetSecret : string).

(** An error of [os.Stat], with what [os.IsNotExist] says of it. *)
Record PathError := {
  IsNotExist : bool;
  path_error : error
}.

Inductive Call : Type -> Type :=
(* k8s_client.Interface *)
| CheckNamespaceExists (namespace : string) : Call (result bool)
| CheckPVCExists (pvc : string) : Call (result bool)
| GetPVC (pvc : string) : Call (result PersistentVolumeClaim)
| CheckPVCBound (pvc : string) : Call (result bool)
| CheckPVExists (pv : string) : Call (result bool)
| GetPV (pv : string) : Call (result PersistentVolume)
| CheckSecretExists (secret : string) : Call (result bool)
| GetPodByLabel (label : string) (allNamespaces : bool) : Call (result Pod)
| Exec (pod container : string) (command : list string) : Call (string * option error)
| CreateObjectByFile (path : string) : Call (option error)
| CreateObjectByYAML (yaml : YAML) : Call (option error)
| DeleteObjectByYAML (yaml : YAML) (ignoreNotFound : bool) : Call (option error)
| AddTridentUserToOpenShiftSCC : Call (option error)
| RemoveTridentUserFromOpenShiftSCC : Call (option error)
| ReadDeploymentFromFile (path : string) : Call (result Deployment)
| ReadServiceFromFile (path : string) : Call (result Service)
| ReadStatefulSetFromFile (path : string) : Call (result StatefulSet)
| ReadDaemonSetFromFile (path : string) : Call (result DaemonSet)
| ReadPVCFromFile (path : string) : Call (result PersistentVolumeClaim)
(* ucp_client.Interface *)
| CreateTridentRole : Call (result bool)
| AddTridentRoleToServiceAccount (namespace : string) : Call (result bool)
| RemoveTridentRoleFromServiceAccount (namespace : string) : Call (result bool)
| DeleteTridentRole : Call (result bool)
(* the rest of cli/cmd *)
| isTridentInstalled : Call (result (bool * string))
| isCSITridentInstalled : Call (result (bool * string))
| fileExists (path : string) : Call bool
(* os, io/ioutil *)
| Stat (path : string) : Call (option PathError)
| ReadFile (path : string) : Call (result string)
(* storage, storage/factory *)
| NewStorageBackendForConfig (config : string) : Call (result Backend)
| RangeFirst (pools : gmap string Pool) : Call nat
| AddVolume (sb : Backend) (volConfig : VolumeConfig) (pool : option Pool) : Call (result Volume)
(* backoff, time *)
| NewExponentialBackOff (MaxElapsedTime : Duration) : Call (list Duration)
| Sleep (d : Duration) : Call unit.

Inductive Level := DebugLevel | InfoLevel | WarnLevel | ErrorLevel.

(** A piece of a log line: literal text, or a duration printed as
    [d.Seconds()] under the verb [%3.2f]. *)
Inductive LogItem :=
| Txt (s : string)
| SecondsF (d : Duration).

Inductive Event :=
| Ev {R : Type} (c : Call R) (r : R)
| Logged (lvl : Level) (fields : list (string * string)) (msg : list LogItem).

End Interface.

(** ** Runs

    A run threads the world and the process-level variables assigned during
    installation, emits the events of the calls it makes, and ends with a
    value or with the error the Go function returns. *)

Section Runs.
Context {T : Types} {W : Type}.

(** The collaborators' behaviour: any function from the call and the
    current world to the next world and the answer. *)
Definition Handler := forall R : Type, Call R -> W -> W * R.

Record St := {
  world : W;
  TridentPodName : string;
  CurrentDriverContext : option DriverContext;
  OrchestratorTelemetry : option Telemetry
}.

Definition M (A : Type) : Type := St -> St * list Event * result A.

Definition ret {A} (a : A) : M A := fun s => (s, [], Ok a).

Definition fail {A} (err : error) : M A := fun s => (s, [], Err err).

Definition bind {A B} (m : M A) (f : A -> M B) : M B :=
  fun s =>
    match m s with
    | (s1, t1, Ok a) => let '(s2, t2, r) := f a s1 in (s2, t1 ++ t2, r)
    | (s1, t1, Err err) => (s1, t1, Err err)
    end.

Definition call (handle : Handler) {R} (c : Call R) : M R :=
  fun s =>
    let '(w, r) := handle R c (world s) in
    ({| world := w; TridentPodName := TridentPodName s;
        CurrentDriverContext := CurrentDriverContext s;
        OrchestratorTelemetry := OrchestratorTelemetry s |}, [Ev c r], Ok r).

Definition log (lvl : Level) (fields : list (string * string)) (msg : list LogItem) : M unit :=
  fun s => (s, [Logged lvl fields msg], Ok tt).

Definition get_TridentPodName : M string := fun s => (s, [], Ok (TridentPodName s)).

Definition set_TridentPodName (name : string) : M unit :=
  fun s => ({| world := world s; TridentPodName := name;
               CurrentDriverContext := CurrentDriverContext s;
               OrchestratorTelemetry := OrchestratorTelemetry s |}, [], Ok tt).

Definition set_driver_globals (t : Telemetry) (ctx : DriverContext) : M unit :=
  fun s => ({| world := world s; TridentPodName := TridentPodName s;
               CurrentDriverContext := Some ctx;
               OrchestratorTelemetry := Some t |}, [], Ok tt).

(** The trace and the result of a run from a given state. *)
Definition trace_of {A} (m : M A) (s : St) : list Event := snd (fst (m s)).
Definition result_of {A} (m : M A) (s : St) : result A := snd (m s).

End Runs.

Arguments St : clear implicits.
Arguments Handler {T} W.
Arguments M {T} W A.

Declare Scope go_scope.
Delimit Scope go_scope with go.
Notation "x <- m ;; k" := (bind m (fun x => k))
  (at level 100, m at next level, right associativity) : go_scope.
Notation "m ;; k" := (bind m (fun _ => k))
  (at level 100, right associativity) : go_scope.

(** ** The installer *)

Section Installer.
Context {T : Types} {C : Collaborators} {W : Type}.
Variable handle : Handler W.
Variable client : ClusterFacts.
Variable g : Flags.

Local Open Scope go_scope.
Local Abbreviation call := (call handle).

(** [useYAML && fileExists(path)] *)
Definition useYAMLFile (path : string) : M W bool :=
  if useYAML g then call (fileExists path) else ret false.

(** *** Override validation *)

(** The loop over the containers of a pod template that leaves, in
    [tridentImage], the image of the last container named
    [tridentconfig.ContainerTrident]. *)
Definition findTridentImage (containers : list Container) : string :=
  fold_left (fun tridentImage container =>
               if container_Name container =? ContainerTrident
               then container_Image container else tridentImage)
            containers EmptyString.

Definition validateTridentDeployment : M W unit :=
  r <- call (ReadDeploymentFromFile (deploymentPath g)) ;;
  match r with
  | Err err => fail ("could not load deployment YAML file; " +:+ err)
  | Ok deployment =>
      if negb (index (deployment_Labels deployment) (appLabelKey g) =? appLabelValue g) then
        fail ("the Trident deployment must have the label " +:+ dquote +:+
              appLabelKey g +:+ ": " +:+ appLabelValue g +:+ dquote)
      else if negb (index (template_Labels (deployment_Spec_Template deployment)) (appLabelKey g)
                    =? appLabelValue g) then
        fail ("the Trident deployment's pod template must have the label " +:+ dquote +:+
              appLabelKey g +:+ ": " +:+ appLabelValue g +:+ dquote)
      else if findTridentImage
                (template_Spec_Containers (deployment_Spec_Template deployment)) =? EmptyString then
        fail ("the Trident deployment must define the " +:+ ContainerTrident +:+ " container")
      else ret tt
  end.

Definition validateTridentService : M W unit :=
  r <- call (ReadServiceFromFile (csiServicePath g)) ;;
  match r with
  | Err err => fail ("could not load service YAML file; " +:+ err)
  | Ok service =>
      if negb (index (service_Labels service) (appLabelKey g) =? appLabelValue g) then
        fail ("the Trident service must have the label " +:+ dquote +:+
              appLabelKey g +:+ ": " +:+ appLabelValue g +:+ dquote)
      else ret tt
  end.

Definition validateTridentStatefulSet : M W unit :=
  r <- call (ReadStatefulSetFromFile (csiStatefulSetPath g)) ;;
  match r with
  | Err err => fail ("could not load statefulset YAML file; " +:+ err)
  | Ok statefulset =>
      if negb (index (statefulset_Labels statefulset) (appLabelKey g) =? appLabelValue g) then
        fail ("the Trident statefulset must have the label " +:+ dquote +:+
              appLabelKey g +:+ ": " +:+ appLabelValue g +:+ dquote)
      else if negb (index (template_Labels (statefulset_Spec_Template statefulset)) (appLabelKey g)
                    =? appLabelValue g) then
        fail ("the Trident statefulset's pod template must have the label " +:+ dquote +:+
              appLabelKey g +:+ ": " +:+ appLabelValue g +:+ dquote)
      else if findTridentImage
                (template_Spec_Containers (statefulset_Spec_Template statefulset)) =? EmptyString then
        fail ("the Trident statefulset must define the " +:+ ContainerTrident +:+ " container")
      else ret tt
  end.

Definition validateTridentDaemonSet : M W unit :=
  r <- call (ReadDaemonSetFromFile (csiDaemonSetPath g)) ;;
  match r with
  | Err err => fail ("could not load daemonset YAML file; " +:+ err)
  | Ok daemonset =>
      if negb (index (daemonset_Labels daemonset) TridentNodeLabelKey =? TridentNodeLabelValue) then
        fail ("the Trident daemonset must have the label " +:+ dquote +:+
              appLabelKey g +:+ ": " +:+ appLabelValue g +:+ dquote)
      else if negb (index (template_Labels (daemonset_Spec_Template daemonset)) TridentNodeLabelKey
                    =? TridentNodeLabelValue) then
        fail ("the Trident daemonset's pod template must have the label " +:+ dquote +:+
              appLabelKey g +:+ ": " +:+ appLabelValue g +:+ dquote)
      else if findTridentImage
                (template_Spec_Containers (daemonset_Spec_Template daemonset)) =? EmptyString then
        fail ("the Trident daemonset must define the " +:+ ContainerTrident +:+ " container")
      else ret tt
  end.

Definition validateTridentPVC : M W unit :=
  r <- call (ReadPVCFromFile (pvcPath g)) ;;
  match r with
  | Err err => fail ("could not load PVC YAML file; " +:+ err)
  | Ok pvc =>
      if negb (index (pvc_Labels pvc) (appLabelKey g) =? appLabelValue g) then
        fail ("the Trident PVC must have the label " +:+ dquote +:+
              appLabelKey g +:+ ": " +:+ appLabelValue g +:+ dquote)
      else if negb (pvc_Name pvc =? pvcName g) then
        fail ("the Trident PVC must be named " +:+ pvcName g)
      else if negb (pvc_Namespace pvc =? TridentPodNamespace g) then
        fail ("the Trident PVC must specify namespace " +:+ TridentPodNamespace g)
      else ret tt
  end.

(** *** [loadStorageDriver] *)

Definition loadStorageDriver : M W Backend :=
  set_driver_globals
    {| TridentVersion := OrchestratorVersion;
       Platform := "kubernetes";
       PlatformVersion := ShortString (ServerVersion client) |}
    (if csi g then ContextCSI else ContextKubernetes) ;;
  st <- call (Stat (setupPath g)) ;;
  match st with
  | Some {| IsNotExist := true; path_error := err |} =>
      fail ("setup directory does not exist; " +:+ err)
  | _ =>
      st <- call (Stat (backendConfigFilePath g)) ;;
      match st with
      | Some {| IsNotExist := true; path_error := err |} =>
          fail ("storage backend config file does not exist; " +:+ err)
      | _ =>
          r <- call (ReadFile (backendConfigFilePath g)) ;;
          match r with
          | Err err => fail ("could not read the storage backend config file; " +:+ err)
          | Ok configFileBytes =>
              r <- call (NewStorageBackendForConfig configFileBytes) ;;
              match r with
              | Err err => fail ("could not start the storage backend driver; " +:+ err)
              | Ok backend => ret backend
              end
          end
      end
  end.

(** *** [createRBACObjects] and [removeRBACObjects] *)

Definition createRBACObjects : M W unit :=
  (* Create service account *)
  fromFile <- useYAMLFile (serviceAccountPath g) ;;
  r <- (if fromFile then call (CreateObjectByFile (serviceAccountPath g))
        else call (CreateObjectByYAML (GetServiceAccountYAML (csi g)))) ;;
  match r with
  | Some err => fail ("could not create service account; " +:+ err)
  | None =>
      if useKubernetesRBAC g then
        (* Create cluster role *)
        fromFile <- useYAMLFile (clusterRolePath g) ;;
        r <- (if fromFile then call (CreateObjectByFile (clusterRolePath g))
              else call (CreateObjectByYAML
                           (GetClusterRoleYAML (Flavor client) (ServerVersion client) (csi g)))) ;;
        match r with
        | Some err => fail ("could not create cluster role; " +:+ err)
        | None =>
            (* Create cluster role binding *)
            fromFile <- useYAMLFile (clusterRoleBindingPath g) ;;
            r <- (if fromFile then call (CreateObjectByFile (clusterRoleBindingPath g))
                  else call (CreateObjectByYAML
                               (GetClusterRoleBindingYAML (TridentPodNamespace g)
                                  (Flavor client) (ServerVersion client) (csi g)))) ;;
            match r with
            | Some err => fail ("could not create cluster role binding; " +:+ err)
            | None =>
                (* If OpenShift, add Trident to security context constraint *)
                if flavor_eqb (Flavor client) FlavorOpenShift then
                  r <- call AddTridentUserToOpenShiftSCC ;;
                  match r with
                  | Some err => fail ("could not modify security context constraint; " +:+ err)
                  | None => ret tt
                  end
                else ret tt
            end
        end
      else
        r <- call CreateTridentRole ;;
        match r with
        | Err clientError => fail ("could not create Trident UCP role; " +:+ clientError)
        | Ok createdRole =>
            r <- call (AddTridentRoleToServiceAccount (TridentPodNamespace g)) ;;
            match r with
            | Err clientError =>
                fail ("could not add Trident UCP role to service account; " +:+ clientError)
            | Ok addedRole => ret tt
            end
        end
  end.

Definition removeRBACObjects (logLevel : Level) : M W bool :=
  anyErrors <-
    (if useKubernetesRBAC g then
       (* Delete cluster role binding *)
       r <- call (DeleteObjectByYAML
                    (GetClusterRoleBindingYAML (TridentPodNamespace g)
                       (Flavor client) (ServerVersion client) (csi g)) true) ;;
       anyErrors <-
         match r with
         | Some err =>
             log WarnLevel [("error", err)] [Txt "Could not delete cluster role binding."] ;;
             ret true
         | None => ret false
         end ;;
       (* Delete cluster role *)
       r <- call (DeleteObjectByYAML
                    (GetClusterRoleYAML (Flavor client) (ServerVersion client) (csi g)) true) ;;
       match r with
       | Some err =>
           log WarnLevel [("error", err)] [Txt "Could not delete cluster role."] ;;
           ret true
       | None => ret anyErrors
       end
     else
       r <- call (RemoveTridentRoleFromServiceAccount (TridentPodNamespace g)) ;;
       match r with
       | Err clientError =>
           log WarnLevel [("error", clientError)]
             [Txt "Could not remove Trident UCP role from service account"]
           (* //anyErrors = true *)
       | Ok removedRoleFromAccount => ret tt
       end ;;
       r <- call DeleteTridentRole ;;
       match r with
       | Err clientError =>
           log WarnLevel [("error", clientError)] [Txt "could not delete Trident UCP role"]
           (* //anyErrors = true *)
       | Ok deletedRole => ret tt
       end ;;
       ret false) ;;
  (* Delete service account *)
  r <- call (DeleteObjectByYAML (GetServiceAccountYAML (csi g)) true) ;;
  anyErrors <-
    match r with
    | Some err =>
        log WarnLevel [("error", err)] [Txt "Could not delete service account."] ;;
        ret true
    | None => ret anyErrors
    end ;;
  if useKubernetesRBAC g then
    (* If OpenShift, remove Trident from security context constraint *)
    if flavor_eqb (Flavor client) FlavorOpenShift then
      r <- call RemoveTridentUserFromOpenShiftSCC ;;
      match r with
      | Some err =>
          log WarnLevel [("error", err)] [Txt "Could not modify security context constraint."] ;;
          ret true
      | None => ret anyErrors
      end
    else ret anyErrors
  else ret anyErrors.

(** *** [createCHAPSecret] and [createPV] *)

Definition createCHAPSecret (volume : Volume) : M W string :=
  let secretName := GetCHAPSecretName volume in
  r <- call (CheckSecretExists secretName) ;;
  match r with
  | Err err => fail ("could not check for existing iSCSI CHAP secret; " +:+ err)
  | Ok secretExists =>
      if negb secretExists then
        (* Create the YAML for the new secret *)
        let iscsi := access_Iscsi (vc_AccessInfo (volume_Config volume)) in
        let secretYAML :=
          GetCHAPSecretYAML secretName (IscsiUsername iscsi)
            (IscsiInitiatorSecret iscsi) (IscsiTargetSecret iscsi) in
        (* Create the secret *)
        r <- call (CreateObjectByYAML secretYAML) ;;
        match r with
        | Some err => fail ("could not create CHAP secret; " +:+ err)
        | None => ret secretName
        end
      else ret secretName
  end.

(** [for _, pool = range sb.Storage { break }]: the Go runtime picks where
    the iteration of a map starts; the pool taken is the entry at the
    position the runtime chooses. *)
Definition rangeFirst (pools : gmap string Pool) : M W (option Pool) :=
  n <- call (RangeFirst pools) ;;
  ret (snd <$> (map_to_list pools !! (n mod length (map_to_list pools))%nat)).

(** A call on a nil [*storage.Backend] panics; the message stands for the
    panic (the installer never gets there: see [installTrident]). *)
Definition nil_dereference : error :=
  "panic: runtime error: invalid memory address or nil pointer dereference".

Definition createPV (storageBackend : option Backend) : M W unit :=
  match storageBackend with
  | None => fail nil_dereference
  | Some sb =>
  (* Choose a pool *)
  if (length (map_to_list (sb_Storage sb)) =? 0)%nat then
    fail ("backend " +:+ sb_Name sb +:+ " has no storage pools")
  else
    pool <- rangeFirst (sb_Storage sb) ;;
    (* Create the volume config *)
    let volConfig :=
      {| vc_Version := "1"; vc_Name := volumeName g; vc_Size := volumeSize g;
         vc_Protocol := sb_Protocol sb; vc_AccessInfo := emptyAccessInfo |} in
    (* Create the volume on the backend *)
    r <- call (AddVolume sb volConfig pool) ;;
    match r with
    | Err err => fail ("could not create a volume on the storage backend; " +:+ err)
    | Ok volume =>
        let nfs := access_Nfs (vc_AccessInfo (volume_Config volume)) in
        let iscsi := access_Iscsi (vc_AccessInfo (volume_Config volume)) in
        (* Get the PV YAML (varies by volume protocol type) *)
        pvYAML <-
          (if negb (NfsServerIP nfs =? EmptyString) then
             ret (GetNFSPVYAML (pvName g) (volumeSize g) (pvcName g) (TridentPodNamespace g)
                    (NfsServerIP nfs) (NfsPath nfs) (appLabelValue g))
           else if negb (IscsiTargetPortal iscsi =? EmptyString) then
             if negb (IscsiTargetSecret iscsi =? EmptyString) then
               (* Validate CHAP support in Kubernetes *)
               if negb (AtLeast (ServerVersion client) (MustParseSemantic "v1.7.0")) then
                 fail "iSCSI CHAP requires Kubernetes 1.7.0 or later"
               else
                 (* Using CHAP *)
                 secretName <- createCHAPSecret volume ;;
                 ret (GetCHAPISCSIPVYAML (pvName g) (volumeSize g) (pvcName g)
                        (TridentPodNamespace g) secretName
                        (IscsiTargetPortal iscsi) (IscsiTargetIQN iscsi) (IscsiLunNumber iscsi)
                        (appLabelValue g))
             else
               (* Not using CHAP *)
               ret (GetISCSIPVYAML (pvName g) (volumeSize g) (pvcName g) (TridentPodNamespace g)
                      (IscsiTargetPortal iscsi) (IscsiTargetIQN iscsi) (IscsiLunNumber iscsi)
                      (appLabelValue g))
           else fail "unrecognized volume type") ;;
        (* Create the PV *)
        r <- call (CreateObjectByYAML pvYAML) ;;
        match r with
        | Some err => fail ("could not create PV " +:+ pvName g +:+ "; " +:+ err)
        | None => ret tt
        end
    end
  end.

(** *** Bounded retry ([backoff.RetryNotify])

    [RetryNotify] runs the operation until it succeeds or the back-off says
    stop, and then returns the operation's last error.  The increments the
    back-off hands out before it stops are the world's answer to
    [NewExponentialBackOff], a finite list (the library stops once
    [MaxElapsedTime], when positive, has elapsed).  An operation is a
    closure: what it leaves in the variables it captures is the [S] part of
    a failed attempt. *)

Inductive Attempt (S A : Type) :=
| Done (a : A)
| Again (s : S) (err : error).
Arguments Done {S A} a.
Arguments Again {S A} s err.

Fixpoint RetryNotify {S A} (operation : S -> M W (Attempt S A)) (b : list Duration)
    (notify : error -> Duration -> M W unit) (captured : S) : M W (Attempt S A) :=
  r <- operation captured ;;
  match r with
  | Done a => ret (Done a)
  | Again captured err =>
      match b with
      | [] => ret (Again captured err)
      | next :: b =>
          notify err next ;;
          call (Sleep next) ;;
          RetryNotify operation b notify captured
      end
  end.

(** The three notify functions only write a Debug line. *)
Definition notifyDebug (err : error) (duration : Duration) : M W unit := ret tt.

(** *** [waitForTridentPod] and [waitForRESTInterface] *)

Definition checkPodRunning (pod : option Pod) : M W (Attempt (option Pod) Pod) :=
  r <- call (GetPodByLabel (appLabel g) false) ;;
  match r with
  | Err podError => ret (Again None "pod not running")
  | Ok pod =>
      if negb (pod_Status_Phase pod =? PodRunning) then ret (Again (Some pod) "pod not running")
      else ret (Done pod)
  end.

(** [strings.Join(errMessages, " ")] on pieces of a log line. *)
Fixpoint Join (messages : list (list LogItem)) (sep : string) : list LogItem :=
  match messages with
  | [] => []
  | [m] => m
  | m :: rest => m ++ Txt sep :: Join rest sep
  end.

Definition waitForTridentPod : M W Pod :=
  podBackoff <- call (NewExponentialBackOff (k8sTimeout g)) ;;
  r <- RetryNotify checkPodRunning podBackoff notifyDebug None ;;
  match r with
  | Again pod err =>
      (* Build up an error message with as much detail as available. *)
      let errMessages :=
        [[Txt "Trident pod was not running after "; SecondsF (k8sTimeout g); Txt " seconds."]] in
      let errMessages :=
        match pod with
        | Some pod =>
            let errMessages :=
              if negb (pod_Status_Phase pod =? EmptyString) then
                let errMessages :=
                  errMessages ++ [[Txt ("Pod status is " +:+ pod_Status_Phase pod +:+ ".")]] in
                if negb (pod_Status_Message pod =? EmptyString) then
                  errMessages ++ [[Txt (pod_Status_Message pod)]]
                else errMessages
              else errMessages in
            errMessages ++
              [[Txt ("Use '" +:+ CLI client +:+ " describe pod " +:+ pod_Name pod +:+
                     " -n " +:+ Namespace client +:+ "' for more information.")]]
        | None => errMessages
        end in
      log ErrorLevel [] (Join errMessages " ") ;;
      fail err
  | Done pod => ret pod
  end.

Definition checkRESTInterface (_ : unit) : M W (Attempt unit string) :=
  let cliCommand := ["tridentctl"; "-s"; PodServer; "version"; "-o"; "json"] in
  podName <- get_TridentPodName ;;
  r <- call (Exec podName ContainerTrident cliCommand) ;;
  match r with
  | (versionJSON, Some err) =>
      if negb (versionJSON =? EmptyString) then
        ret (Again tt (err +:+ "; " +:+ TrimSpace versionJSON))
      else ret (Again tt err)
  | (versionJSON, None) =>
      match UnmarshalServerVersion versionJSON with
      | Err err => ret (Again tt err)
      | Ok version => ret (Done version)
      end
  end.

Definition waitForRESTInterface : M W unit :=
  restBackoff <- call (NewExponentialBackOff (k8sTimeout g)) ;;
  r <- RetryNotify checkRESTInterface restBackoff notifyDebug tt ;;
  match r with
  | Again _ err =>
      log ErrorLevel []
        [Txt "Trident REST interface was not available after "; SecondsF (k8sTimeout g);
         Txt " seconds."] ;;
      fail err
  | Done version => ret tt
  end.

(** *** [installTrident] *)

(** [if err != nil { returnError = fmt.Errorf(..., err); return }] around a
    callee. *)
Definition wrapError {A} (wrap : error -> error) (m : M W A) : M W A :=
  fun s =>
    match m s with
    | (s1, t1, Err err) => (s1, t1, Err (wrap err))
    | (s1, t1, Ok a) => (s1, t1, Ok a)
    end.

(** Validate volume size. *)
Definition parseVolumeSize : M W Quantity :=
  match ParseQuantity (volumeSize g) with
  | Err err => fail ("volume-size '" +:+ volumeSize g +:+ "' is invalid; " +:+ err)
  | Ok pvRequestedQuantity => ret pvRequestedQuantity
  end.

(** Ensure Trident isn't already installed (and, for CSI, that the minimum
    requirements are met). *)
Definition ensureNotInstalled : M W unit :=
  if negb (csi g) then
    r <- call isTridentInstalled ;;
    match r with
    | Err err => fail ("could not check if Trident deployment exists; " +:+ err)
    | Ok (installed, namespace) =>
        if installed then fail ("Trident is already installed in namespace " +:+ namespace)
        else ret tt
    end
  else
    let minCSIVersion := MustParseSemantic KubernetesCSIVersionMin in
    if negb (AtLeast (ServerVersion client) minCSIVersion) then
      fail ("CSI Trident requires Kubernetes " +:+ ShortString minCSIVersion +:+ " or later")
    else
      r <- call isCSITridentInstalled ;;
      match r with
      | Err err => fail ("could not check if Trident statefulset exists; " +:+ err)
      | Ok (installed, namespace) =>
          if installed then fail ("CSI Trident is already installed in namespace " +:+ namespace)
          else
            log WarnLevel []
              [Txt ("CSI Trident for Kubernetes is a technology preview " +:+
                    "and should not be installed in production environments!")]
      end.

(** Check if the required namespace exists. *)
Definition checkNamespace : M W bool :=
  r <- call (CheckNamespaceExists (TridentPodNamespace g)) ;;
  match r with
  | Err err =>
      fail ("could not check if namespace " +:+ TridentPodNamespace g +:+ " exists; " +:+ err)
  | Ok namespaceExists => ret namespaceExists
  end.

Definition is_nil (labels : Labels) : bool :=
  match labels with None => true | Some _ => false end.

(** Check for PVC. *)
Definition checkPVC : M W bool :=
  r <- call (CheckPVCExists (pvcName g)) ;;
  match r with
  | Err err => fail ("could not establish the presence of PVC " +:+ pvcName g +:+ "; " +:+ err)
  | Ok pvcExists =>
      if pvcExists then
        r <- call (GetPVC (pvcName g)) ;;
        match r with
        | Err err => fail ("could not retrieve PVC " +:+ pvcName g +:+ "; " +:+ err)
        | Ok pvc =>
            (* Ensure that the PVC is in a state that we can work with *)
            if pvc_Status_Phase pvc =? ClaimLost then
              fail ("PVC " +:+ pvcName g +:+ " phase is Lost; please delete it and try again")
            else if (pvc_Status_Phase pvc =? ClaimBound)
                    && negb (pvc_Spec_VolumeName pvc =? pvName g) then
              fail ("PVC " +:+ pvcName g +:+ " is Bound, but not to PV " +:+ pvName g +:+ "; " +:+
                    "please specify a different PV and/or PVC")
            else if is_nil (pvc_Labels pvc)
                    || negb (index (pvc_Labels pvc) (appLabelKey g) =? appLabelValue g) then
              fail ("PVC " +:+ pvcName g +:+ " does not have " +:+ appLabel g +:+ " label; " +:+
                    "please add label or delete PVC and try again")
            else ret pvcExists
        end
      else ret pvcExists
  end.

(** Check for PV. *)
Definition checkPV (pvRequestedQuantity : Quantity) : M W bool :=
  r <- call (CheckPVExists (pvName g)) ;;
  match r with
  | Err err => fail ("could not establish the presence of PV " +:+ pvName g +:+ "; " +:+ err)
  | Ok pvExists =>
      if pvExists then
        r <- call (GetPV (pvName g)) ;;
        match r with
        | Err err => fail ("could not retrieve PV " +:+ pvName g +:+ "; " +:+ err)
        | Ok pv =>
            (* Ensure that the PV is in a state we can work with *)
            if pv_Status_Phase pv =? VolumeReleased then
              fail ("PV " +:+ pvName g +:+ " phase is Released; please delete it and try again")
            else if pv_Status_Phase pv =? VolumeFailed then
              fail ("PV " +:+ pvName g +:+ " phase is Failed; please delete it and try again")
            else
              match (if pv_Status_Phase pv =? VolumeBound then pv_Spec_ClaimRef pv else None) with
              | Some claimRef =>
                  if negb (ref_Name claimRef =? pvcName g) then
                    fail ("PV " +:+ pvName g +:+ " is Bound, but not to PVC " +:+ pvcName g +:+
                          "; " +:+ "please delete PV and try again")
                  else if negb (ref_Namespace claimRef =? TridentPodNamespace g) then
                    fail ("PV " +:+ pvName g +:+ " is Bound to a PVC in namespace " +:+
                          ref_Namespace claimRef +:+ "; " +:+ "please delete PV and try again")
                  else ret tt
              | None => ret tt
              end ;;
              (if is_nil (pv_Labels pv)
                  || negb (index (pv_Labels pv) (appLabelKey g) =? appLabelValue g) then
                 fail ("PV " +:+ pvName g +:+ " does not have " +:+ appLabel g +:+ " label; " +:+
                       "please add label or delete PV and try again")
               else ret tt) ;;
              (* Ensure PV size matches the request *)
              match pv_Spec_Capacity pv !! ResourceStorage with
              | None =>
                  log WarnLevel [("pv", pvName g)] [Txt "Could not determine size of existing PV."]
              | Some pvActualQuantity =>
                  if negb (Quantity_Cmp pvRequestedQuantity pvActualQuantity =? 0)%Z then
                    log WarnLevel
                      [("existing", Quantity_String pvActualQuantity);
                       ("request", Quantity_String pvRequestedQuantity);
                       ("pv", pvName g)]
                      [Txt "Existing PV size does not match request."]
                  else ret tt
              end ;;
              ret pvExists
        end
      else ret pvExists
  end.

(** Lines 454-613: everything [installTrident] does before the dry-run
    test.  The values are [namespaceExists], [pvcExists], [pvExists] and
    [storageBackend] (nil when the PV exists). *)
Definition preChecks : M W (bool * bool * bool * option Backend) :=
  pvRequestedQuantity <- parseVolumeSize ;;
  ensureNotInstalled ;;
  namespaceExists <- checkNamespace ;;
  pvcExists <- checkPVC ;;
  pvExists <- checkPV pvRequestedQuantity ;;
  (* If the PV doesn't exist, we will need the storage driver to create it. *)
  storageBackend <-
    (if negb pvExists then sb <- loadStorageDriver ;; ret (Some sb) else ret None) ;;
  ret (namespaceExists, pvcExists, pvExists, storageBackend).

(** Create namespace if it doesn't exist. *)
Definition createNamespace (namespaceExists : bool) : M W unit :=
  if negb namespaceExists then
    fromFile <- useYAMLFile (namespacePath g) ;;
    r <- (if fromFile then call (CreateObjectByFile (namespacePath g))
          else call (CreateObjectByYAML (GetNamespaceYAML (TridentPodNamespace g)))) ;;
    match r with
    | Some err =>
        fail ("could not create namespace " +:+ TridentPodNamespace g +:+ "; " +:+ err)
    | None => ret tt
    end
  else ret tt.

(** Remove any RBAC objects from a previous Trident installation. *)
Definition cleanRBACObjects : M W unit :=
  anyCleanupErrors <- removeRBACObjects DebugLevel ;;
  if anyCleanupErrors then
    fail ("could not remove one or more previous Trident artifacts; " +:+
          "please delete them manually and try again")
  else ret tt.

(** Create PVC if necessary. *)
Definition createPVC (pvcExists : bool) : M W unit :=
  if negb pvcExists then
    fromFile <- useYAMLFile (pvcPath g) ;;
    r <- (if fromFile then
            wrapError (fun err => "please correct the PVC YAML file; " +:+ err)
              validateTridentPVC ;;
            call (CreateObjectByFile (pvcPath g))
          else
            call (CreateObjectByYAML
                    (GetPVCYAML (pvcName g) (TridentPodNamespace g) (volumeSize g)
                       (appLabelValue g)))) ;;
    match r with
    | Some err => fail ("could not create PVC " +:+ pvcName g +:+ "; " +:+ err)
    | None => ret tt
    end
  else ret tt.

(** Create PV if necessary. *)
Definition createPVIfNecessary (pvExists : bool) (storageBackend : option Backend) : M W unit :=
  if negb pvExists then
    wrapError (fun err => "could not create PV " +:+ pvName g +:+ "; " +:+ err)
      (createPV storageBackend)
  else ret tt.

(** Wait for PV/PVC to be bound. *)
Definition checkPVCBound (_ : unit) : M W (Attempt unit unit) :=
  r <- call (CheckPVCBound (pvcName g)) ;;
  match r with
  | Ok true => ret (Done tt)
  | _ => ret (Again tt "PVC not bound")
  end.

Definition waitForPVCBound : M W unit :=
  r <- checkPVCBound tt ;;
  match r with
  | Done _ => ret tt
  | Again _ checkError =>
      pvcBackoff <- call (NewExponentialBackOff (k8sTimeout g)) ;;
      r <- RetryNotify checkPVCBound pvcBackoff notifyDebug tt ;;
      match r with
      | Again _ err =>
          fail ("PVC " +:+ pvcName g +:+ " was not bound after " +:+
                fmt_d (k8sTimeout g) +:+ " seconds")
      | Done _ => ret tt
      end
  end.

(** Create the deployment, or the service, the statefulset and the
    daemonset. *)
Definition createDeployment : M W unit :=
  fromFile <- useYAMLFile (deploymentPath g) ;;
  r <- (if fromFile then
          wrapError (fun err => "please correct the deployment YAML file; " +:+ err)
            validateTridentDeployment ;;
          call (CreateObjectByFile (deploymentPath g))
        else
          call (CreateObjectByYAML
                  (GetDeploymentYAML (pvcName g) (tridentImage g) (etcdImage g)
                     (appLabelValue g) (Debug g)))) ;;
  match r with
  | Some err => fail ("could not create Trident deployment; " +:+ err)
  | None => ret tt
  end.

Definition createService : M W unit :=
  fromFile <- useYAMLFile (csiServicePath g) ;;
  r <- (if fromFile then
          wrapError (fun err => "please correct the service YAML file; " +:+ err)
            validateTridentService ;;
          call (CreateObjectByFile (csiServicePath g))
        else
          call (CreateObjectByYAML (GetCSIServiceYAML (appLabelValue g)))) ;;
  match r with
  | Some err => fail ("could not create Trident service; " +:+ err)
  | None => ret tt
  end.

Definition createStatefulSet : M W unit :=
  fromFile <- useYAMLFile (csiStatefulSetPath g) ;;
  r <- (if fromFile then
          wrapError (fun err => "please correct the statefulset YAML file; " +:+ err)
            validateTridentStatefulSet ;;
          call (CreateObjectByFile (csiStatefulSetPath g))
        else
          call (CreateObjectByYAML
                  (GetCSIStatefulSetYAML (pvcName g) (tridentImage g) (etcdImage g)
                     (appLabelValue g) (Debug g)))) ;;
  match r with
  | Some err => fail ("could not create Trident statefulset; " +:+ err)
  | None => ret tt
  end.

Definition createDaemonSet : M W unit :=
  fromFile <- useYAMLFile (csiDaemonSetPath g) ;;
  r <- (if fromFile then
          wrapError (fun err => "please correct the daemonset YAML file; " +:+ err)
            validateTridentDaemonSet ;;
          call (CreateObjectByFile (csiDaemonSetPath g))
        else
          call (CreateObjectByYAML
                  (GetCSIDaemonSetYAML (tridentImage g) TridentNodeLabelValue (Debug g)))) ;;
  match r with
  | Some err => fail ("could not create Trident daemonset; " +:+ err)
  | None => ret tt
  end.

Definition createWorkloads : M W unit :=
  if negb (csi g) then createDeployment
  else createService ;; createStatefulSet ;; createDaemonSet.

(** Lines 621-811: the installation proper, after the dry-run test. *)
Definition installSteps (namespaceExists pvcExists pvExists : bool)
    (storageBackend : option Backend) : M W unit :=
  createNamespace namespaceExists ;;
  cleanRBACObjects ;;
  createRBACObjects ;;
  createPVC pvcExists ;;
  createPVIfNecessary pvExists storageBackend ;;
  waitForPVCBound ;;
  createWorkloads ;;
  (* Wait for Trident pod to be running *)
  tridentPod <- waitForTridentPod ;;
  (* Wait for Trident REST interface to be available *)
  set_TridentPodName (pod_Name tridentPod) ;;
  wrapError (fun err => err +:+ "; use 'tridentctl logs' to learn more") waitForRESTInterface.

Definition installTrident : M W unit :=
  checks <- preChecks ;;
  let '(namespaceExists, pvcExists, pvExists, storageBackend) := checks in
  (* If dry-run was specified, stop before we change anything *)
  if dryRun g then ret tt
  else installSteps namespaceExists pvcExists pvExists storageBackend.

End Installer.

Arguments installTrident {T C W} handle client g.
Arguments preChecks {T C W} handle client g.
Arguments installSteps {T C W} handle client g.

(** ** A concrete instance, for examples

    A small cluster simulator and concrete collaborators, used to run the
    installer on explicit inputs. *)

Module Sim.

(** Decimal digits of a string, most significant first. *)
Definition digit (c : ascii) : option nat :=
  let n := nat_of_ascii c in
  if ((48 <=? n) && (n <=? 57))%nat then Some (n - 48)%nat else None.

Fixpoint number (acc : nat) (s : string) : option nat :=
  match s with
  | EmptyString => Some acc
  | String c s' =>
      match digit c with
      | Some d => number (10 * acc + d) s'
      | None => None
      end
  end.

(** Leading digits of a string and what follows them. *)
Fixpoint span_digits (s : string) : string * string :=
  match s with
  | EmptyString => (EmptyString, EmptyString)
  | String c s' =>
      match digit c with
      | Some _ => let '(ds, rest) := span_digits s' in (String c ds, rest)
      | None => (EmptyString, s)
      end
  end.

(** Versions [vMAJOR.MINOR.PATCH] as triples, compared lexicographically;
    anything else reads as 0.0.0. *)
Definition parse_version (s : string) : nat * nat * nat :=
  let s := match s with String "v" s' => s' | _ => s end in
  let '(a, r1) := span_digits s in
  let '(b, r2) := span_digits (match r1 with String "." r => r | _ => r1 end) in
  let '(c, _) := span_digits (match r2 with String "." r => r | _ => r2 end) in
  (default 0%nat (number 0 a), default 0%nat (number 0 b), default 0%nat (number 0 c)).

Definition version_at_least (v min : nat * nat * nat) : bool :=
  let '(a, b, c) := v in
  let '(x, y, z) := min in
  ((x <? a) || ((x =? a) && ((y <? b) || ((y =? b) && (z <=? c)))))%nat.

Definition show_nat (n : nat) : string := fmt_d (Z.of_nat n).

Definition short_string (v : nat * nat * nat) : string :=
  let '(a, b, c) := v in show_nat a +:+ "." +:+ show_nat b +:+ "." +:+ show_nat c.

(** Quantities: an optional sign, digits and an optional binary or decimal
    suffix, read as a number of bytes. *)
Definition suffix_multiplier (s : string) : option Z :=
  if s =? EmptyString then Some 1
  else if s =? "k" then Some 1000
  else if s =? "M" then Some 1000000
  else if s =? "G" then Some 1000000000
  else if s =? "Ki" then Some 1024
  else if s =? "Mi" then Some 1048576
  else if s =? "Gi" then Some 1073741824
  else if s =? "Ti" then Some 1099511627776
  else None.

Definition format_wrong : error :=
  "quantities must match the regular expression " +:+
  "'^([+-]?[0-9.]+)([eEinumkKMGTP]*[-+]?[0-9]*)$'".

Definition parse_quantity (s : string) : result Z :=
  let '(sign, body) :=
    match s with
    | String "-" s' => (-1, s')
    | String "+" s' => (1, s')
    | _ => (1, s)
    end in
  let '(ds, suffix) := span_digits body in
  match ds, number 0 ds, suffix_multiplier suffix with
  | String _ _, Some n, Some m => Ok (sign * Z.of_nat n * m)
  | _, _, _ => Err format_wrong
  end.

Definition quantity_cmp (a b : Z) : Z :=
  match Z.compare a b with Lt => -1 | Eq => 0 | Gt => 1 end.

#[global] Instance types : Types := {|
  Version := nat * nat * nat;
  Quantity := Z
|}.

#[global] Instance collaborators : Collaborators := {|
  MustParseSemantic := parse_version;
  AtLeast := version_at_least;
  ShortString := short_string;
  ParseQuantity := parse_quantity;
  Quantity_Cmp := quantity_cmp;
  Quantity_Sign := Z.sgn;
  Quantity_String := fmt_d;
  OrchestratorName := "trident";
  OrchestratorVersion := "18.04.0";
  KubernetesCSIVersionMin := "v1.10.0";
  ContainerTrident := "trident-main";
  TridentLabel := "app=trident.netapp.io";
  TridentLabelKey := "app";
  TridentLabelValue := "trident.netapp.io";
  TridentCSILabel := "app=controller.csi.trident.netapp.io";
  TridentCSILabelKey := "app";
  TridentCSILabelValue := "controller.csi.trident.netapp.io";
  TridentNodeLabelKey := "app";
  TridentNodeLabelValue := "node.csi.trident.netapp.io";
  PodServer := "127.0.0.1:8000";
  GetCHAPSecretName := fun volume =>
    "trident-chap-" +:+ volume_Backend volume +:+ "-" +:+
    IscsiUsername (access_Iscsi (vc_AccessInfo (volume_Config volume)));
  TrimSpace := fun s => s;
  UnmarshalServerVersion := fun s =>
    if s =? EmptyString then Err "unexpected end of JSON input" else Ok s
|}.

(** The simulated cluster. *)
Record Cluster := {
  namespaces : list string;
  claim : option PersistentVolumeClaim;
  persistentVolume : option PersistentVolume;
  secrets : list string;
  files : list string;
  backend : Backend;
  allocated : Volume;
  pollsUntilBound : option nat;     (* None: the claim is never bound *)
  schedule : list Duration
}.

Definition mem (x : string) (l : list string) : bool := existsb (String.eqb x) l.

Definition fault : error := "injected fault".

Definition with_secret (w : Cluster) (secret : string) : Cluster :=
  {| namespaces := namespaces w; claim := claim w; persistentVolume := persistentVolume w;
     secrets := secret :: secrets w; files := files w; backend := backend w;
     allocated := allocated w; pollsUntilBound := pollsUntilBound w;
     schedule := schedule w |}.

Definition with_polls (w : Cluster) (polls : option nat) : Cluster :=
  {| namespaces := namespaces w; claim := claim w; persistentVolume := persistentVolume w;
     secrets := secrets w; files := files w; backend := backend w;
     allocated := allocated w; pollsUntilBound := polls;
     schedule := schedule w |}.

Definition with_objects (w : Cluster) (pvc : option PersistentVolumeClaim)
    (pv : option PersistentVolume) : Cluster :=
  {| namespaces := namespaces w; claim := pvc; persistentVolume := pv;
     secrets := secrets w; files := files w; backend := backend w;
     allocated := allocated w; pollsUntilBound := pollsUntilBound w;
     schedule := schedule w |}.

Definition with_files (w : Cluster) (paths : list string) : Cluster :=
  {| namespaces := namespaces w; claim := claim w; persistentVolume := persistentVolume w;
     secrets := secrets w; files := paths; backend := backend w;
     allocated := allocated w; pollsUntilBound := pollsUntilBound w;
     schedule := schedule w |}.

Definition runningPod : Pod :=
  {| pod_Name := "trident-7d4f"; pod_Status_Phase := PodRunning;
     pod_Status_Message := EmptyString |}.

Definition answer_result {A} (bad : bool) (a : A) : result A :=
  if bad then Err fault else Ok a.

Definition answer_error (bad : bool) : option error :=
  if bad then Some fault else None.

(** [faulty] names the calls that fail. *)
Definition handle (faulty : forall R : Type, Call R -> bool) : Handler Cluster :=
  fun R c w =>
    let bad := faulty R c in
    match c in Call R return Cluster * R with
    | CheckNamespaceExists namespace => (w, answer_result bad (mem namespace (namespaces w)))
    | CheckPVCExists _ => (w, answer_result bad (bool_decide (is_Some (claim w))))
    | GetPVC _ =>
        (w, match claim w with Some pvc => answer_result bad pvc | None => Err "not found" end)
    | CheckPVCBound _ =>
        match pollsUntilBound w with
        | Some O => (w, answer_result bad true)
        | Some (S n) => (with_polls w (Some n), answer_result bad false)
        | None => (w, answer_result bad false)
        end
    | CheckPVExists _ => (w, answer_result bad (bool_decide (is_Some (persistentVolume w))))
    | GetPV _ =>
        (w, match persistentVolume w with
            | Some pv => answer_result bad pv
            | None => Err "not found"
            end)
    | CheckSecretExists secret => (w, answer_result bad (mem secret (secrets w)))
    | GetPodByLabel _ _ => (w, answer_result bad runningPod)
    | Exec _ _ _ => (w, ("{server:18.04.0}", answer_error bad))
    | CreateObjectByFile _ => (w, answer_error bad)
    | CreateObjectByYAML yaml =>
        if bad then (w, Some fault)
        else
          match yaml with
          | GetCHAPSecretYAML secret _ _ _ => (with_secret w secret, None)
          | _ => (w, None)
          end
    | DeleteObjectByYAML _ _ => (w, answer_error bad)
    | AddTridentUserToOpenShiftSCC => (w, answer_error bad)
    | RemoveTridentUserFromOpenShiftSCC => (w, answer_error bad)
    | ReadDeploymentFromFile _ =>
        (w, answer_result bad {| deployment_Labels := None;
                                 deployment_Spec_Template :=
                                   {| template_Labels := None;
                                      template_Spec_Containers := [] |} |})
    | ReadServiceFromFile _ => (w, answer_result bad {| service_Labels := None |})
    | ReadStatefulSetFromFile _ =>
        (w, answer_result bad {| statefulset_Labels := None;
                                 statefulset_Spec_Template :=
                                   {| template_Labels := None;
                                      template_Spec_Containers := [] |} |})
    | ReadDaemonSetFromFile _ =>
        (w, answer_result bad {| daemonset_Labels := None;
                                 daemonset_Spec_Template :=
                                   {| template_Labels := None;
                                      template_Spec_Containers := [] |} |})
    | ReadPVCFromFile _ => (w, Err "no such file")
    | CreateTridentRole => (w, answer_result bad true)
    | AddTridentRoleToServiceAccount _ => (w, answer_result bad true)
    | RemoveTridentRoleFromServiceAccount _ => (w, answer_result bad true)
    | DeleteTridentRole => (w, answer_result bad true)
    | isTridentInstalled => (w, answer_result bad (false, EmptyString))
    | isCSITridentInstalled => (w, answer_result bad (false, EmptyString))
    | fileExists path => (w, mem path (files w))
    | Stat path =>
        (w, if mem path (files w) then None
            else Some {| IsNotExist := true; path_error := "no such file or directory" |})
    | ReadFile path => (w, answer_result bad "{backend config}")
    | NewStorageBackendForConfig _ => (w, answer_result bad (backend w))
    | RangeFirst _ => (w, 0%nat)
    | AddVolume _ _ _ => (w, answer_result bad (allocated w))
    | NewExponentialBackOff _ => (w, schedule w)
    | Sleep _ => (w, tt)
    end.

End Sim.

(** Inputs for the examples. *)
Module Demo.
Import Sim.

Definition defaults : Flags :=
  {| dryRun := false; generateYAML := false; useYAML := false; silent := false; csi := false;
     pvName := EmptyString; pvcName := EmptyString; volumeName := EmptyString;
     volumeSize := DefaultVolumeSize;
     tridentImage := "netapp/trident:18.04.0"; etcdImage := "quay.io/coreos/etcd:v3.1.5";
     k8sTimeout := 180 * Second; useKubernetesRBAC := true;
     installerDirectoryPath := "/opt/trident-installer";
     appLabel := EmptyString; appLabelKey := EmptyString; appLabelValue := EmptyString;
     TridentPodNamespace := "trident"; Debug := false |}.

Definition set_mode (g : Flags) (dry distributed native : bool) : Flags :=
  {| dryRun := dry; generateYAML := generateYAML g; useYAML := useYAML g;
     silent := silent g; csi := distributed;
     pvName := pvName g; pvcName := pvcName g; volumeName := volumeName g;
     volumeSize := volumeSize g; tridentImage := tridentImage g; etcdImage := etcdImage g;
     k8sTimeout := k8sTimeout g; useKubernetesRBAC := native;
     installerDirectoryPath := installerDirectoryPath g;
     appLabel := appLabel g; appLabelKey := appLabelKey g; appLabelValue := appLabelValue g;
     TridentPodNamespace := TridentPodNamespace g; Debug := Debug g |}.

Definition set_size (g : Flags) (size : string) : Flags :=
  {| dryRun := dryRun g; generateYAML := generateYAML g; useYAML := useYAML g;
     silent := silent g; csi := csi g;
     pvName := pvName g; pvcName := pvcName g; volumeName := volumeName g;
     volumeSize := size; tridentImage := tridentImage g; etcdImage := etcdImage g;
     k8sTimeout := k8sTimeout g; useKubernetesRBAC := useKubernetesRBAC g;
     installerDirectoryPath := installerDirectoryPath g;
     appLabel := appLabel g; appLabelKey := appLabelKey g; appLabelValue := appLabelValue g;
     TridentPodNamespace := TridentPodNamespace g; Debug := Debug g |}.

(** Single-replica topology, native RBAC. *)
Definition flags : Flags := processInstallationArguments defaults.
(** The same, dry run. *)
Definition flags_dry : Flags := processInstallationArguments (set_mode defaults true false true).
(** Single-replica topology, external authorization (UCP). *)
Definition flags_ucp : Flags := processInstallationArguments (set_mode defaults false false false).
(** Distributed (CSI) topology, native RBAC. *)
Definition flags_csi : Flags := processInstallationArguments (set_mode defaults false true true).

Definition facts (version : nat * nat * nat) (flavor : OrchestratorFlavor) : ClusterFacts :=
  {| Flavor := flavor; ServerVersion := version; CLI := "kubectl"; Namespace := "trident" |}.

Definition nfsVolume : Volume :=
  {| volume_Config :=
       {| vc_Version := "1"; vc_Name := "trident"; vc_Size := "2Gi"; vc_Protocol := "file";
          vc_AccessInfo :=
            {| access_Nfs := {| NfsServerIP := "10.0.0.5"; NfsPath := "/trident_trident" |};
               access_Iscsi := access_Iscsi emptyAccessInfo |} |};
     volume_Backend := "ontapnas_10.0.0.5"; volume_Pool := "aggr1" |}.

Definition iscsiVolume (targetSecret : string) : Volume :=
  {| volume_Config :=
       {| vc_Version := "1"; vc_Name := "trident"; vc_Size := "2Gi"; vc_Protocol := "block";
          vc_AccessInfo :=
            {| access_Nfs := access_Nfs emptyAccessInfo;
               access_Iscsi :=
                 {| IscsiTargetPortal := "10.0.0.9:3260";
                    IscsiTargetIQN := "iqn.2010-01.com.solidfire:trident";
                    IscsiLunNumber := 0; IscsiUsername := "trident-user";
                    IscsiInitiatorSecret := "initiator-secret";
                    IscsiTargetSecret := targetSecret |} |} |};
     volume_Backend := "solidfire_10.0.0.9"; volume_Pool := "Gold" |}.

Definition noFaults : forall R : Type, Call R -> bool := fun _ _ => false.

(** The external authorization service refuses to detach the role. *)
Definition detachFails : forall R : Type, Call R -> bool :=
  fun _ c => match c with
             | RemoveTridentRoleFromServiceAccount _ => true
             | _ => false
             end.

(** A cluster with nothing installed; the setup directory holds the
    backend configuration. *)
Definition cluster (volume : Volume) : Cluster :=
  {| namespaces := ["default"; "kube-system"];
     claim := None; persistentVolume := None; secrets := [];
     files := ["/opt/trident-installer/setup"; "/opt/trident-installer/setup/backend.json"];
     backend := {| sb_Name := "backend-1"; sb_Storage := {[ "aggr1" := {| pool_Name := "aggr1" |} ]};
                   sb_Protocol := vc_Protocol (volume_Config volume);
                   sb_DriverName := "driver" |};
     allocated := volume;
     pollsUntilBound := Some 2%nat;
     schedule := [500000000; 750000000; 1125000000] |}.

(** A claim left over from an earlier installation, in the Lost phase. *)
Definition lostClaim : PersistentVolumeClaim :=
  {| pvc_Name := "trident"; pvc_Namespace := "trident";
     pvc_Labels := Some {[ "app" := "trident.netapp.io" ]};
     pvc_Spec_VolumeName := "trident"; pvc_Status_Phase := ClaimLost |}.

(** A volume left over from an earlier installation, of another size. *)
Definition existingVolume : PersistentVolume :=
  {| pv_Labels := Some {[ "app" := "trident.netapp.io" ]};
     pv_Spec_ClaimRef := None;
     pv_Spec_Capacity := {[ ResourceStorage := 1073741824 ]};
     pv_Status_Phase := "Available" |}.

(** A daemon-set override labelled with the app label of the distributed
    topology. *)
Definition appLabelledDaemonSet : DaemonSet :=
  {| daemonset_Labels := Some {[ "app" := "controller.csi.trident.netapp.io" ]};
     daemonset_Spec_Template :=
       {| template_Labels := Some {[ "app" := "controller.csi.trident.netapp.io" ]};
          template_Spec_Containers :=
            [{| container_Name := "trident-main";
                container_Image := "netapp/trident:18.04.0" |}] |} |}.

(** The simulated cluster with a daemon-set override in the setup directory. *)
Definition overriding (daemonset : DaemonSet) : Handler Cluster :=
  fun R c w =>
    match c in Call R return Cluster * R with
    | ReadDaemonSetFromFile _ => (w, Ok daemonset)
    | other => handle noFaults _ other w
    end.

Definition start (w : Cluster) : St Cluster :=
  {| world := w; TridentPodName := EmptyString;
     CurrentDriverContext := None; OrchestratorTelemetry := None |}.

End Demo.

(** ** Observations on traces *)

Section Observations.
Context {T : Types} {C : Collaborators}.

Inductive ObjectKind :=
| KNamespace | KServiceAccount | KClusterRole | KClusterRoleBinding
| KPVC | KPV | KSecret
| KDeployment | KService | KStatefulSet | KDaemonSet.

Definition kind_eqb (a b : ObjectKind) : bool :=
  match a, b with
  | KNamespace, KNamespace | KServiceAccount, KServiceAccount
  | KClusterRole, KClusterRole | KClusterRoleBinding, KClusterRoleBinding
  | KPVC, KPVC | KPV, KPV | KSecret, KSecret
  | KDeployment, KDeployment | KService, KService
  | KStatefulSet, KStatefulSet | KDaemonSet, KDaemonSet => true
  | _, _ => false
  end.

(** The kind of object a manifest body describes. *)
Definition yamlKind (yaml : YAML) : ObjectKind :=
  match yaml with
  | GetNamespaceYAML _ => KNamespace
  | GetServiceAccountYAML _ => KServiceAccount
  | GetClusterRoleYAML _ _ _ => KClusterRole
  | GetClusterRoleBindingYAML _ _ _ _ => KClusterRoleBinding
  | GetPVCYAML _ _ _ _ => KPVC
  | GetDeploymentYAML _ _ _ _ _ => KDeployment
  | GetCSIServiceYAML _ => KService
  | GetCSIStatefulSetYAML _ _ _ _ _ => KStatefulSet
  | GetCSIDaemonSetYAML _ _ _ => KDaemonSet
  | GetNFSPVYAML _ _ _ _ _ _ _ => KPV
  | GetISCSIPVYAML _ _ _ _ _ _ _ _ => KPV
  | GetCHAPISCSIPVYAML _ _ _ _ _ _ _ _ _ => KPV
  | GetCHAPSecretYAML _ _ _ _ => KSecret
  end.

(** The kind of object a file of the setup directory describes, by its
    well-known name. *)
Definition nameKind (name : string) : option ObjectKind :=
  if name =? NamespaceFilename then Some KNamespace
  else if name =? ServiceAccountFilename then Some KServiceAccount
  else if name =? ClusterRoleFilename then Some KClusterRole
  else if name =? ClusterRoleBindingFilename then Some KClusterRoleBinding
  else if name =? PVCFilename then Some KPVC
  else if name =? DeploymentFilename then Some KDeployment
  else if name =? ServiceFilename then Some KService
  else if name =? StatefulSetFilename then Some KStatefulSet
  else if name =? DaemonSetFilename then Some KDaemonSet
  else None.

(** What is left of [path] after the prefix [dir]. *)
Fixpoint strip_prefix (dir path : string) : option string :=
  match dir, path with
  | EmptyString, _ => Some path
  | String a dir', String b path' => if Ascii.eqb a b then strip_prefix dir' path' else None
  | String _ _, EmptyString => None
  end.

Definition fileKind (g : Flags) (path : string) : option ObjectKind :=
  match strip_prefix (setupPath g +:+ "/") path with
  | Some name => nameKind name
  | None => None
  end.

(** The object a call submits for creation, if it is one of the installer's. *)
Definition creates (g : Flags) {R} (c : Call R) : option ObjectKind :=
  match c with
  | CreateObjectByFile path => fileKind g path
  | CreateObjectByYAML yaml => Some (yamlKind yaml)
  | _ => None
  end.

(** Calls that create or delete something outside the installer: cluster
    objects, authorization roles, and the volume on the storage backend. *)
Definition mutates {R} (c : Call R) : bool :=
  match c with
  | CreateObjectByFile _ | CreateObjectByYAML _ | DeleteObjectByYAML _ _
  | AddTridentUserToOpenShiftSCC | RemoveTridentUserFromOpenShiftSCC
  | CreateTridentRole | AddTridentRoleToServiceAccount _
  | RemoveTridentRoleFromServiceAccount _ | DeleteTridentRole
  | AddVolume _ _ _ => true
  | _ => false
  end.

(** Calls that read the backend configuration or use the storage driver. *)
Definition usesBackend {R} (c : Call R) : bool :=
  match c with
  | Stat _ | ReadFile _ | NewStorageBackendForConfig _ | RangeFirst _ | AddVolume _ _ _ => true
  | _ => false
  end.

(** Whether the answer to a call is an error. *)
Definition failed {R} (c : Call R) : R -> bool :=
  match c in Call R return R -> bool with
  | CreateObjectByFile _ | CreateObjectByYAML _ | DeleteObjectByYAML _ _
  | AddTridentUserToOpenShiftSCC | RemoveTridentUserFromOpenShiftSCC =>
      fun r => match r with Some _ => true | None => false end
  | CreateTridentRole | AddTridentRoleToServiceAccount _
  | RemoveTridentRoleFromServiceAccount _ | DeleteTridentRole =>
      fun r => match r with Err _ => true | Ok _ => false end
  | _ => fun _ => false
  end.

Definition isMutation (e : Event) : bool :=
  match e with
  | Ev c _ => mutates c
  | Logged _ _ _ => false
  end.

Definition isBackendUse (e : Event) : bool :=
  match e with
  | Ev c _ => usesBackend c
  | Logged _ _ _ => false
  end.

(** The object an event submits, with whether the submission succeeded. *)
Definition submission (g : Flags) (e : Event) : option (ObjectKind * bool) :=
  match e with
  | Ev c r => match creates g c with
              | Some k => Some (k, negb (failed c r))
              | None => None
              end
  | Logged _ _ _ => None
  end.

Definition isWorkload (k : ObjectKind) : bool :=
  match k with
  | KDeployment | KService | KStatefulSet | KDaemonSet => true
  | _ => false
  end.

(** The workload object an event submits, with whether the submission
    succeeded. *)
Definition workload (g : Flags) (e : Event) : option (ObjectKind * bool) :=
  match submission g e with
  | Some (k, ok) => if isWorkload k then Some (k, ok) else None
  | None => None
  end.





Definition isSecretCreation (e : Event) : bool :=
  match e with
  | Ev (CreateObjectByYAML (GetCHAPSecretYAML _ _ _ _)) _ => true
  | _ => false
  end.

Definition isWorkloadCreation (g : Flags) (e : Event) : bool :=
  match workload g e with
  | Some _ => true
  | None => false
  end.


(** *** RBAC steps *)

Inductive RBACStep :=
| StepClusterRoleBinding | StepClusterRole | StepServiceAccount | StepSCC
| StepUCPAttachment | StepUCPRole.

(** The teardown step an event attempts, with whether it failed. *)
Definition removal (e : Event) : option (RBACStep * bool) :=
  match e with
  | Ev c r =>
      match c in Call R return R -> option (RBACStep * bool) with
      | DeleteObjectByYAML yaml _ => fun r =>
          let bad := match r with Some _ => true | None => false end in
          match yamlKind yaml with
          | KClusterRoleBinding => Some (StepClusterRoleBinding, bad)
          | KClusterRole => Some (StepClusterRole, bad)
          | KServiceAccount => Some (StepServiceAccount, bad)
          | _ => None
          end
      | RemoveTridentUserFromOpenShiftSCC => fun r =>
          Some (StepSCC, match r with Some _ => true | None => false end)
      | RemoveTridentRoleFromServiceAccount _ => fun r =>
          Some (StepUCPAttachment, match r with Err _ => true | Ok _ => false end)
      | DeleteTridentRole => fun r =>
          Some (StepUCPRole, match r with Err _ => true | Ok _ => false end)
      | _ => fun _ => None
      end r
  | Logged _ _ _ => None
  end.

(** Whether an event creates an RBAC object. *)
Definition isRBACCreation (g : Flags) (e : Event) : bool :=
  match e with
  | Ev c _ =>
      match c with
      | AddTridentUserToOpenShiftSCC | CreateTridentRole
      | AddTridentRoleToServiceAccount _ => true
      | _ => match creates g c with
             | Some (KServiceAccount | KClusterRole | KClusterRoleBinding) => true
             | _ => false
             end
      end
  | Logged _ _ _ => false
  end.

(** The teardown steps of each RBAC mode, in the order of the code. *)
Definition teardownSteps (client : ClusterFacts) (g : Flags) : list RBACStep :=
  if useKubernetesRBAC g then
    [StepClusterRoleBinding; StepClusterRole; StepServiceAccount] ++
    (if flavor_eqb (Flavor client) FlavorOpenShift then [StepSCC] else [])
  else [StepUCPAttachment; StepUCPRole; StepServiceAccount].

(** The teardown steps whose failure aborts the run: all but the two of
    the external authorization service. *)
Definition escalates (step : RBACStep) : bool :=
  match step with
  | StepUCPAttachment | StepUCPRole => false
  | _ => true
  end.

(** What a run does to RBAC objects. *)
Inductive RBACEvent :=
| Removal (step : RBACStep) (bad : bool)
| Creation.

Definition rbac (g : Flags) (e : Event) : option RBACEvent :=
  match removal e with
  | Some (step, bad) => Some (Removal step bad)
  | None => if isRBACCreation g e then Some Creation else None
  end.

Definition isCreation (x : RBACEvent) : bool :=
  match x with
  | Creation => true
  | Removal _ _ => false
  end.

Definition removals (xs : list RBACEvent) : list (RBACStep * bool) :=
  omap (fun x => match x with
                 | Removal step bad => Some (step, bad)
                 | Creation => None
                 end) xs.

(** Some teardown step that aborts the run has failed. *)
Definition escalated (steps : list (RBACStep * bool)) : bool :=
  existsb (fun p => snd p && escalates (fst p)) steps.

Definition couldNotClean : error :=
  "could not remove one or more previous Trident artifacts; " +:+
  "please delete them manually and try again".

End Observations.

(** ** Statements about all runs *)

Section Statements.
Context {T : Types} {C : Collaborators} {W : Type}.

Definition state_of {A} (m : M W A) (s : St W) : St W := fst (fst (m s)).

(** [post m P]: in every run of [m], the trace and the result satisfy [P]. *)
Definition post {A} (m : M W A) (P : list Event -> result A -> Prop) : Prop :=
  forall s, P (trace_of m s) (result_of m s).

(** [emits K m]: every event of every run of [m] satisfies [K]. *)
Definition emits {A} (K : Event -> Prop) (m : M W A) : Prop :=
  forall s, Forall K (trace_of m s).

End Statements.

Section Observing.
Context {T : Types} {C : Collaborators} {W : Type}.

(** [unseen obs m]: no event of any run of [m] is seen by [obs]. *)
Definition unseen {A X} (obs : Event -> option X) (m : M W A) : Prop :=
  emits (fun e => obs e = None) m.

(** [observes obs m P]: in every run of [m], what [obs] sees of the trace
    and the result satisfy [P]. *)
Definition observes {A X} (obs : Event -> option X) (m : M W A)
    (P : list X -> result A -> Prop) : Prop :=
  post m (fun t r => P (omap obs t) r).

End Observing.

(** ** Compatibility of an existing claim *)

Section ClaimCompatibility.
Context {T : Types} {C : Collaborators}.
Variable g : Flags.

Definition labelOf (labels : Labels) (key : string) : option string :=
  match labels with
  | Some m => m !! key
  | None => None
  end.

(** The object carries the topology's identity label with the expected value. *)
Definition carriesLabel (labels : Labels) : Prop :=
  labelOf labels (appLabelKey g) = Some (appLabelValue g).

Definition claimIncompatible (pvc : PersistentVolumeClaim) : Prop :=
  pvc_Status_Phase pvc = ClaimLost
  \/ (pvc_Status_Phase pvc = ClaimBound /\ pvc_Spec_VolumeName pvc <> pvName g)
  \/ ~ carriesLabel (pvc_Labels pvc).

Definition claimLostError : error :=
  "PVC " +:+ pvcName g +:+ " phase is Lost; please delete it and try again".
Definition claimBoundError : error :=
  "PVC " +:+ pvcName g +:+ " is Bound, but not to PV " +:+ pvName g +:+ "; " +:+
  "please specify a different PV and/or PVC".
Definition claimLabelError : error :=
  "PVC " +:+ pvcName g +:+ " does not have " +:+ appLabel g +:+ " label; " +:+
  "please add label or delete PVC and try again".

(** The remediation the installer names, the first defect found deciding. *)
Definition claimRemediation (pvc : PersistentVolumeClaim) : error :=
  if pvc_Status_Phase pvc =? ClaimLost then claimLostError
  else if (pvc_Status_Phase pvc =? ClaimBound) && negb (pvc_Spec_VolumeName pvc =? pvName g)
  then claimBoundError
  else claimLabelError.

(** The claim an event fetches. *)
Definition claimFetched (e : Event) : option (result PersistentVolumeClaim) :=
  match e with
  | Ev (GetPVC _) r => Some r
  | _ => None
  end.

End ClaimCompatibility.

(** ** What is seen of the volume probe and of the storage driver *)

Section VolumePreflight.
Context {T : Types} {C : Collaborators}.
Variable g : Flags.

(** What the run sees of the existing volume and of the backend
    configuration. *)
Inductive Preflight :=
| SawPVProbe (r : result bool)
| SawPV (r : result PersistentVolume)
| SawStat (path : string) (r : option PathError)
| SawRead (path : string) (r : result string)
| SawStart (config : string) (r : result Backend).

Definition preflight (e : Event) : option Preflight :=
  match e with
  | Ev (CheckPVExists _) r => Some (SawPVProbe r)
  | Ev (GetPV _) r => Some (SawPV r)
  | Ev (Stat path) r => Some (SawStat path r)
  | Ev (ReadFile path) r => Some (SawRead path r)
  | Ev (NewStorageBackendForConfig config) r => Some (SawStart config r)
  | _ => None
  end.

(** An existing volume the installer can work with: not released, not
    failed, bound (if at all) to the intended claim and namespace, and
    labelled.  Its capacity plays no part. *)
Definition volumeCompatible (pv : PersistentVolume) : Prop :=
  pv_Status_Phase pv <> VolumeReleased
  /\ pv_Status_Phase pv <> VolumeFailed
  /\ (pv_Status_Phase pv = VolumeBound ->
      forall claimRef, pv_Spec_ClaimRef pv = Some claimRef ->
                       ref_Name claimRef = pvcName g
                       /\ ref_Namespace claimRef = TridentPodNamespace g)
  /\ carriesLabel g (pv_Labels pv).

Definition notExist (err : error) : option PathError :=
  Some {| IsNotExist := true; path_error := err |}.

Definition isNotExist (r : option PathError) : bool :=
  match r with
  | Some pe => IsNotExist pe
  | None => false
  end.

(** What is seen of the backend configuration, as opposed to the volume. *)
Definition readsConfiguration (x : Preflight) : bool :=
  match x with
  | SawStat _ _ | SawRead _ _ | SawStart _ _ => true
  | _ => false
  end.

(** The possible courses of [loadStorageDriver]. *)
Inductive DriverLoaded : list Preflight -> result Backend -> Prop :=
| dl_no_setup err :
    DriverLoaded [SawStat (setupPath g) (notExist err)]
      (Err ("setup directory does not exist; " +:+ err))
| dl_no_config a err :
    isNotExist a = false ->
    DriverLoaded [SawStat (setupPath g) a; SawStat (backendConfigFilePath g) (notExist err)]
      (Err ("storage backend config file does not exist; " +:+ err))
| dl_unreadable a b err :
    isNotExist a = false -> isNotExist b = false ->
    DriverLoaded [SawStat (setupPath g) a; SawStat (backendConfigFilePath g) b;
                  SawRead (backendConfigFilePath g) (Err err)]
      (Err ("could not read the storage backend config file; " +:+ err))
| dl_not_started a b config err :
    isNotExist a = false -> isNotExist b = false ->
    DriverLoaded [SawStat (setupPath g) a; SawStat (backendConfigFilePath g) b;
                  SawRead (backendConfigFilePath g) (Ok config); SawStart config (Err err)]
      (Err ("could not start the storage backend driver; " +:+ err))
| dl_started a b config backend :
    isNotExist a = false -> isNotExist b = false ->
    DriverLoaded [SawStat (setupPath g) a; SawStat (backendConfigFilePath g) b;
                  SawRead (backendConfigFilePath g) (Ok config); SawStart config (Ok backend)]
      (Ok backend).

(** The possible courses of [checkPV]. *)
Inductive VolumeProbed : list Preflight -> result bool -> Prop :=
| vp_probe_failed e err : VolumeProbed [SawPVProbe (Err e)] (Err err)
| vp_absent : VolumeProbed [SawPVProbe (Ok false)] (Ok false)
| vp_fetch_failed e err : VolumeProbed [SawPVProbe (Ok true); SawPV (Err e)] (Err err)
| vp_exists pv r :
    (forall b, r = Ok b -> b = true) ->
    (volumeCompatible pv -> r = Ok true) ->
    VolumeProbed [SawPVProbe (Ok true); SawPV (Ok pv)] r.

(** The possible courses of the pre-checks, as far as the volume and the
    storage driver go. *)
Inductive Preflighted : list Preflight -> result (bool * bool * bool * option Backend) -> Prop :=
| pf_early err : Preflighted [] (Err err)
| pf_probe_failed e err : Preflighted [SawPVProbe (Err e)] (Err err)
| pf_fetch_failed e err : Preflighted [SawPVProbe (Ok true); SawPV (Err e)] (Err err)
| pf_exists pv r :
    (forall a, r = Ok a -> exists namespaceExists pvcExists,
                 a = (namespaceExists, pvcExists, true, None)) ->
    (volumeCompatible pv -> exists a, r = Ok a) ->
    Preflighted [SawPVProbe (Ok true); SawPV (Ok pv)] r
| pf_absent xs r namespaceExists pvcExists :
    DriverLoaded xs r ->
    Preflighted (SawPVProbe (Ok false) :: xs)
      match r with
      | Ok sb => Ok (namespaceExists, pvcExists, false, Some sb)
      | Err err => Err err
      end.

End VolumePreflight.

(** ** What is seen of the volume bootstrap *)

Section VolumeBootstrap.
Context {T : Types} {C : Collaborators} {W : Type}.
Variable client : ClusterFacts.
Variable g : Flags.

(** [aborts obs phi msg K m]: in every run of [m], if [obs] sees in the
    trace something that satisfies [phi], the run ends with the error
    [msg] of it and all its events satisfy [K]. *)
Definition aborts {A X} (obs : Event -> option X) (phi : X -> Prop) (msg : X -> error)
    (K : Event -> Prop) (m : M W A) : Prop :=
  post m (fun t r => forall x, x ∈ omap obs t -> phi x -> r = Err (msg x) /\ Forall K t).

(** The volume the backend allocates. *)
Definition allocated (e : Event) : option (result Volume) :=
  match e with
  | Ev (AddVolume _ _ _) r => Some r
  | _ => None
  end.



Definition nfsOf (volume : Volume) : NfsAccessInfo :=
  access_Nfs (vc_AccessInfo (volume_Config volume)).
Definition iscsiOf (volume : Volume) : IscsiAccessInfo :=
  access_Iscsi (vc_AccessInfo (volume_Config volume)).

(** A block-target volume with a session secret. *)
Definition authenticatedBlock (volume : Volume) : Prop :=
  NfsServerIP (nfsOf volume) = EmptyString
  /\ IscsiTargetPortal (iscsiOf volume) <> EmptyString
  /\ IscsiTargetSecret (iscsiOf volume) <> EmptyString.

(** The cluster is older than the authenticated-session feature floor. *)
Definition belowCHAPFloor : Prop :=
  AtLeast (ServerVersion client) (MustParseSemantic "v1.7.0") = false.

Definition belowFloorError : error :=
  "could not create PV " +:+ pvName g +:+ "; iSCSI CHAP requires Kubernetes 1.7.0 or later".





End VolumeBootstrap.

(** ** The grammar of names

    The DNS-1123 grammars in the words of the validation messages and of
    RFC 1123, to compare with the two regular expressions of the code. *)

Section Names.

Definition isLowerAlnum (c : ascii) : bool :=
  let n := nat_of_ascii c in
  ((97 <=? n) && (n <=? 122) || (48 <=? n) && (n <=? 57))%nat.

Definition isLabelChar (c : ascii) : bool :=
  isLowerAlnum c || Ascii.eqb c "-".

(** A label: not empty, lower-case alphanumerics or ['-'] only, starting
    and ending with an alphanumeric. *)
Definition label_ok (l : list ascii) : bool :=
  forallb isLabelChar l && isLowerAlnum (List.hd "-"%char l)
  && isLowerAlnum (List.last l "-"%char).

(** The pieces of a name between its dots. *)
Fixpoint split_dots (l : list ascii) : list (list ascii) :=
  match l with
  | [] => [[]]
  | c :: l' =>
      if Ascii.eqb c "." then [] :: split_dots l'
      else match split_dots l' with
           | piece :: pieces => (c :: piece) :: pieces
           | [] => [[c]]
           end
  end.

(** No dot occurs in the piece. *)
Definition nodot (l : list ascii) : bool := forallb (fun c => negb (Ascii.eqb c ".")) l.

Definition isDNS1123Label (s : string) : bool :=
  label_ok (list_ascii_of_string s).

(** A subdomain: labels separated by single dots. *)
Definition isDNS1123Subdomain (s : string) : bool :=
  forallb label_ok (split_dots (list_ascii_of_string s)).

(** The strings a regular expression denotes. *)
Inductive lang : regex -> list ascii -> Prop :=
| lang_eps : lang REps []
| lang_class ranges c : in_class ranges c = true -> lang (RClass ranges) [c]
| lang_seq r1 r2 l1 l2 : lang r1 l1 -> lang r2 l2 -> lang (RSeq r1 r2) (l1 ++ l2)
| lang_alt_l r1 r2 l : lang r1 l -> lang (RAlt r1 r2) l
| lang_alt_r r1 r2 l : lang r2 l -> lang (RAlt r1 r2) l
| lang_star_nil r : lang (RStar r) []
| lang_star_cons r l1 l2 : lang r l1 -> lang (RStar r) l2 -> lang (RStar r) (l1 ++ l2).

End Names.

(** ** The command: logging, environment discovery, manifest generation

    [installCmd] is the cobra command around [installTrident]: cobra runs
    its [PersistentPreRun] and then its [Run].  What these do outside the
    installer proper (they set up logging, create the clients, find the
    installer's directory, remove and write the files of the setup
    directory) goes through a second family of calls; a run of the command
    records them next to the events of the installer.  [log.Fatal] and
    [log.Fatalf] end the process: a run that reaches one ends with its
    message as error. *)

Section CommandInterface.
Context {T : Types}.

Inductive SysCall : Type -> Type :=
(* logging.InitLogLevel *)
| InitLogLevel (debug : bool) (logLevel : string) : SysCall (option error)
(* k8s_client.NewKubectlClient, ucpclient.NewClient *)
| NewKubectlClient : SysCall (result ClusterFacts)
| NewClient (host token : string) : SysCall (option error)
(* client.SetNamespace: the client as it is afterwards *)
| SetNamespace (client : ClusterFacts) (namespace : string) : SysCall ClusterFacts
(* filepath.Abs(filepath.Dir(os.Args[0])) *)
| InstallerDirectory : SysCall (result string)
(* os.Remove, ioutil.WriteFile *)
| Remove (path : string) : SysCall (option error)
| WriteFile (path : string) (data : YAML) (perm : Z) : SysCall (option error).

Inductive CmdEvent :=
| Sys {R : Type} (c : SysCall R) (r : R)
| Inst (e : Event).

End CommandInterface.

Section CommandRuns.
Context {T : Types} {W : Type}.

Definition SysHandler := forall R : Type, SysCall R -> W -> W * R.

(** A run of the command: as a run of the installer, with the events of
    both families of calls. *)
Definition Cmd (A : Type) : Type := St W -> St W * list CmdEvent * result A.

Definition cret {A} (a : A) : Cmd A := fun s => (s, [], Ok a).

Definition cfail {A} (err : error) : Cmd A := fun s => (s, [], Err err).

Definition cbind {A B} (m : Cmd A) (f : A -> Cmd B) : Cmd B :=
  fun s =>
    match m s with
    | (s1, t1, Ok a) => let '(s2, t2, r) := f a s1 in (s2, t1 ++ t2, r)
    | (s1, t1, Err err) => (s1, t1, Err err)
    end.

Definition sys (host : SysHandler) {R} (c : SysCall R) : Cmd R :=
  fun s =>
    let '(w, r) := host R c (world s) in
    ({| world := w; TridentPodName := TridentPodName s;
        CurrentDriverContext := CurrentDriverContext s;
        OrchestratorTelemetry := OrchestratorTelemetry s |}, [Sys c r], Ok r).

Definition clog (lvl : Level) (fields : list (string * string)) (msg : list LogItem) : Cmd unit :=
  fun s => (s, [Inst (Logged lvl fields msg)], Ok tt).

(** A part of the command that is a run of the installer. *)
Definition inst {A} (m : M W A) : Cmd A :=
  fun s => let '(s1, t, r) := m s in (s1, Inst <$> t, r).

(** [if err := f(); err != nil { log.Fatalf(format, err) }] *)
Definition fatal {A} (wrap : error -> error) (m : Cmd A) : Cmd A :=
  fun s =>
    match m s with
    | (s1, t1, Err err) => (s1, t1, Err (wrap err))
    | (s1, t1, Ok a) => (s1, t1, Ok a)
    end.

Definition ctrace_of {A} (m : Cmd A) (s : St W) : list CmdEvent := snd (fst (m s)).
Definition cresult_of {A} (m : Cmd A) (s : St W) : result A := snd (m s).
Definition cstate_of {A} (m : Cmd A) (s : St W) : St W := fst (fst (m s)).

End CommandRuns.

Arguments SysHandler {T} W.
Arguments Cmd {T} W A.

Declare Scope cmd_scope.
Delimit Scope cmd_scope with cmd.
Notation "x <- m ;; k" := (cbind m (fun x => k))
  (at level 100, m at next level, right associativity) : cmd_scope.
Notation "m ;; k" := (cbind m (fun _ => k))
  (at level 100, right associativity) : cmd_scope.

(** [strings.Contains] *)
Fixpoint Contains (s substr : string) : bool :=
  String.prefix substr s
  || match s with
     | EmptyString => false
     | String _ s' => Contains s' substr
     end.

(** Constants of [tridentconfig] and of the Go runtime that the command
    reads. *)
Record BuildInfo := {
  BuildImage : string;
  BuildEtcdImage : string;
  BuildEtcdVersion : string;
  GOOS : string
}.

(** The two flags of the command that the installer proper only logs. *)
Record UCPFlags := {
  ucpBearerToken : string;
  ucpHost : string
}.

(** The package-level variables after [discoverInstallationEnvironment]
    has assigned the images, the RBAC mode, the installer's directory and
    the namespace. *)
Definition discovered (g : Flags) (trident etcd : string) (rbac : bool)
    (directory namespace : string) : Flags :=
  {| dryRun := dryRun g; generateYAML := generateYAML g; useYAML := useYAML g;
     silent := silent g; csi := csi g;
     pvName := pvName g; pvcName := pvcName g; volumeName := volumeName g;
     volumeSize := volumeSize g; tridentImage := trident; etcdImage := etcd;
     k8sTimeout := k8sTimeout g; useKubernetesRBAC := rbac;
     installerDirectoryPath := directory;
     appLabel := appLabel g; appLabelKey := appLabelKey g; appLabelValue := appLabelValue g;
     TridentPodNamespace := namespace; Debug := Debug g |}.

Section Command.
Context {T : Types} {C : Collaborators} {W : Type}.
Variable handle : Handler W.
Variable host : SysHandler W.
Variable build : BuildInfo.
Variable u : UCPFlags.

Local Open Scope cmd_scope.
Local Abbreviation sys := (sys host).

(** *** [initInstallerLogging] *)

Definition initInstallerLogging (g : Flags) : Cmd W unit :=
  let logLevel := if silent g then "fatal" else "info" in
  err <- sys (InitLogLevel (Debug g) logLevel) ;;
  match err with
  | Some err => cfail "Failed to initialize logging."
  | None => cret tt
  end.

(** *** [prepareYAMLFilePaths]

    The paths themselves are functions of the installer's directory
    ([setupPath] and the others above); what is assigned here is the
    directory. *)
Definition prepareYAMLFilePaths : Cmd W string :=
  r <- sys InstallerDirectory ;;
  match r with
  | Err err => cfail ("could not determine installer working directory; " +:+ err)
  | Ok installerDirectoryPath => cret installerDirectoryPath
  end.

(** *** [discoverInstallationEnvironment]

    The assignment [OperatingMode = ModeInstall] is to a variable of the
    root command that nothing in this file reads, and is left out.  The
    client that [ucpclient.NewClient] returns is the one the calls of
    [ucp_client.Interface] of the installer go to. *)

Definition discoverInstallationEnvironment (g : Flags) : Cmd W (Flags * ClusterFacts) :=
  (* Default deployment image to what Trident was built with *)
  let tridentImage :=
    if tridentImage g =? EmptyString then BuildImage build else tridentImage g in
  (* Default deployment image to what etcd was built with *)
  etcdImage <-
    (if etcdImage g =? EmptyString then cret (BuildEtcdImage build)
     else if negb (Contains (etcdImage g) (BuildEtcdVersion build)) then
       clog WarnLevel []
         [Txt ("Trident was qualified with etcd " +:+ BuildEtcdVersion build +:+
               ". You appear to be using a different version.")] ;;
       cret (etcdImage g)
     else cret (etcdImage g)) ;;
  (* Ensure we're on Linux *)
  if negb (GOOS build =? "linux") then cfail "the Trident installer only runs on Linux"
  else
    (* Create the CLI-based Kubernetes client *)
    r <- sys NewKubectlClient ;;
    match r with
    | Err err => cfail ("could not initialize Kubernetes client; " +:+ err)
    | Ok client =>
        useKubernetesRBAC <-
          (if negb (ucpBearerToken u =? EmptyString) || negb (ucpHost u =? EmptyString) then
             err <- sys (NewClient (ucpHost u) (ucpBearerToken u)) ;;
             match err with
             | Some err => cfail err
             | None => cret false
             end
           else cret true) ;;
        (* Prepare input file paths *)
        installerDirectoryPath <- prepareYAMLFilePaths ;;
        (* Infer installation namespace if not specified *)
        namespace <-
          (if TridentPodNamespace g =? EmptyString then
             (if negb (Namespace client =? PreferredNamespace) then
                clog WarnLevel
                  [("example", "./tridentctl install -n " +:+ PreferredNamespace)]
                  [Txt "For maximum security, we recommend running Trident in its own namespace."]
              else cret tt) ;;
             cret (Namespace client)
           else cret (TridentPodNamespace g)) ;;
        (* Direct all subsequent client commands to the chosen namespace *)
        client <- sys (SetNamespace client namespace) ;;
        cret (discovered g tridentImage etcdImage useKubernetesRBAC
                installerDirectoryPath namespace, client)
    end.

(** *** [cleanYAMLFiles], [writeFile], [prepareYAMLFiles], [prepareCSIYAMLFiles] *)

(** [for _, filePath := range paths { os.Remove(filePath) }]: the errors
    of [os.Remove] are dropped. *)
Fixpoint removeAll (paths : list string) : Cmd W unit :=
  match paths with
  | [] => cret tt
  | filePath :: paths => sys (Remove filePath) ;; removeAll paths
  end.

Definition cleanYAMLFiles (g : Flags) : Cmd W unit := removeAll (setupYAMLPaths g).

Definition writeFile (filePath : string) (data : YAML) : Cmd W (option error) :=
  sys (WriteFile filePath data 420 (* 0644 *)).

(** [if err = writeFile(path, data); err != nil { return fmt.Errorf(what, err) }] *)
Definition written (what : string) (filePath : string) (data : YAML) : Cmd W unit :=
  err <- writeFile filePath data ;;
  match err with
  | Some err => cfail (what +:+ err)
  | None => cret tt
  end.

Definition prepareYAMLFiles (client : ClusterFacts) (g : Flags) : Cmd W unit :=
  cleanYAMLFiles g ;;
  written "could not write namespace YAML file; "
    (namespacePath g) (GetNamespaceYAML (TridentPodNamespace g)) ;;
  written "could not write service account YAML file; "
    (serviceAccountPath g) (GetServiceAccountYAML false) ;;
  written "could not write cluster role YAML file; "
    (clusterRolePath g) (GetClusterRoleYAML (Flavor client) (ServerVersion client) false) ;;
  written "could not write cluster role binding YAML file; "
    (clusterRoleBindingPath g)
    (GetClusterRoleBindingYAML (TridentPodNamespace g) (Flavor client) (ServerVersion client)
       false) ;;
  written "could not write PVC YAML file; "
    (pvcPath g)
    (GetPVCYAML (pvcName g) (TridentPodNamespace g) (volumeSize g) (appLabelValue g)) ;;
  written "could not write deployment YAML file; "
    (deploymentPath g)
    (GetDeploymentYAML (pvcName g) (tridentImage g) (etcdImage g) (appLabelValue g) (Debug g)).

Definition prepareCSIYAMLFiles (client : ClusterFacts) (g : Flags) : Cmd W unit :=
  cleanYAMLFiles g ;;
  written "could not write namespace YAML file; "
    (namespacePath g) (GetNamespaceYAML (TridentPodNamespace g)) ;;
  written "could not write service account YAML file; "
    (serviceAccountPath g) (GetServiceAccountYAML true) ;;
  written "could not write cluster role YAML file; "
    (clusterRolePath g) (GetClusterRoleYAML (Flavor client) (ServerVersion client) true) ;;
  written "could not write cluster role binding YAML file; "
    (clusterRoleBindingPath g)
    (GetClusterRoleBindingYAML (TridentPodNamespace g) (Flavor client) (ServerVersion client)
       true) ;;
  written "could not write PVC YAML file; "
    (pvcPath g)
    (GetPVCYAML (pvcName g) (TridentPodNamespace g) (volumeSize g) (appLabelValue g)) ;;
  written "could not write service YAML file; "
    (csiServicePath g) (GetCSIServiceYAML (appLabelValue g)) ;;
  written "could not write statefulset YAML file; "
    (csiStatefulSetPath g)
    (GetCSIStatefulSetYAML (pvcName g) (tridentImage g) (etcdImage g) (appLabelValue g)
       (Debug g)) ;;
  written "could not write daemonset YAML file; "
    (csiDaemonSetPath g)
    (GetCSIDaemonSetYAML (tridentImage g) TridentNodeLabelValue (Debug g)).

(** *** [installCmd] *)

Definition PersistentPreRun (g : Flags) : Cmd W (Flags * ClusterFacts) :=
  initInstallerLogging g ;;
  d <- fatal (fun err => "Install pre-checks failed; " +:+ err)
         (discoverInstallationEnvironment g) ;;
  let '(g, client) := d in
  let g := processInstallationArguments g in
  match validateInstallationArguments g with
  | Some err => cfail ("Invalid arguments; " +:+ err)
  | None => cret (g, client)
  end.

Definition Run (client : ClusterFacts) (g : Flags) : Cmd W unit :=
  if generateYAML g then
    (* If generate-custom-yaml was specified, write the YAML files to the setup directory *)
    fatal (fun err => "YAML generation failed; " +:+ err)
      (if csi g then prepareCSIYAMLFiles client g else prepareYAMLFiles client g)
  else
    (* Run the installer *)
    fatal (fun err => "Install failed; " +:+ err +:+
                      ".  Resolve the issue; use 'tridentctl uninstall' " +:+
                      "to clean up; and try again.")
      (inst (installTrident handle client g)).

(** The command as cobra executes it. *)
Definition installCmd (g : Flags) : Cmd W unit :=
  d <- PersistentPreRun g ;;
  let '(g, client) := d in
  Run client g.

End Command.

Arguments installCmd {T C W} handle host build u g.
Arguments PersistentPreRun {T C W} host build u g.
Arguments discoverInstallationEnvironment {T C W} host build u g.
Arguments prepareYAMLFiles {T W} host client g.
Arguments prepareCSIYAMLFiles {T C W} host client g.
Arguments Run {T C W} handle host client g.

(** ** What the override validators look for *)

Section OverrideContents.
Context {T : Types} {C : Collaborators}.

(** The last container of a pod template that is named
    [tridentconfig.ContainerTrident]. *)
Definition tridentContainer (containers : list Container) : option Container :=
  last (List.filter (fun container => container_Name container =? ContainerTrident) containers).

(** The pod template defines the Trident container, with an image. *)
Definition definesTrident (template : PodTemplateSpec) : Prop :=
  exists container,
    tridentContainer (template_Spec_Containers template) = Some container
    /\ container_Image container <> EmptyString.

Definition mustHaveLabel (g : Flags) (what : string) : error :=
  "the Trident " +:+ what +:+ " must have the label " +:+ dquote +:+
  appLabelKey g +:+ ": " +:+ appLabelValue g +:+ dquote.

End OverrideContents.

(** ** The probe for an earlier installation *)

Section InstalledProbe.
Context {T : Types} {C : Collaborators}.
Variable client : ClusterFacts.
Variable g : Flags.

(** The probe of the topology: for the deployment, or for the stateful-set. *)
Definition installedProbe : Call (result (bool * string)) :=
  if csi g then isCSITridentInstalled else isTridentInstalled.

(** The distributed topology is asked for on a cluster older than
    [KubernetesCSIVersionMin]. *)
Definition belowCSIFloor : bool :=
  csi g && negb (AtLeast (ServerVersion client) (MustParseSemantic KubernetesCSIVersionMin)).

Definition belowCSIFloorError : error :=
  "CSI Trident requires Kubernetes " +:+
  ShortString (MustParseSemantic KubernetesCSIVersionMin) +:+ " or later".

Definition probeFailedError (err : error) : error :=
  (if csi g then "could not check if Trident statefulset exists; "
   else "could not check if Trident deployment exists; ") +:+ err.

Definition alreadyInstalledError (namespace : string) : error :=
  (if csi g then "CSI Trident is already installed in namespace "
   else "Trident is already installed in namespace ") +:+ namespace.

Definition previewWarning : Event :=
  Logged WarnLevel []
    [Txt ("CSI Trident for Kubernetes is a technology preview " +:+
          "and should not be installed in production environments!")].

(** The course of [ensureNotInstalled]. *)
Definition probed (t : list Event) (r : result unit) : Prop :=
  if belowCSIFloor then t = [] /\ r = Err (belowCSIFloorError)
  else
    exists answer rest,
      t = Ev (installedProbe) answer :: rest
      /\ match answer with
         | Err err => rest = [] /\ r = Err (probeFailedError err)
         | Ok (true, namespace) => rest = [] /\ r = Err (alreadyInstalledError namespace)
         | Ok (false, _) =>
             r = Ok tt /\ if csi g then rest = [previewWarning] else rest = []
         end.

End InstalledProbe.

(** ** Compatibility of an existing volume *)

Section VolumeCompatibility.
Context {T : Types} {C : Collaborators}.
Variable g : Flags.

(** An existing volume the installer cannot work with: released, failed,
    bound to another claim or to a claim of another namespace, or without
    the topology's identity label. *)
Definition volumeIncompatible (pv : PersistentVolume) : Prop :=
  pv_Status_Phase pv = VolumeReleased
  \/ pv_Status_Phase pv = VolumeFailed
  \/ (exists claimRef,
        pv_Status_Phase pv = VolumeBound /\ pv_Spec_ClaimRef pv = Some claimRef
        /\ (ref_Name claimRef <> pvcName g \/ ref_Namespace claimRef <> TridentPodNamespace g))
  \/ ~ carriesLabel g (pv_Labels pv).

Definition volumeLabelError : error :=
  "PV " +:+ pvName g +:+ " does not have " +:+ appLabel g +:+ " label; " +:+
  "please add label or delete PV and try again".

(** The remediation the installer names, the first defect found deciding. *)
Definition volumeRemediation (pv : PersistentVolume) : error :=
  if pv_Status_Phase pv =? VolumeReleased then
    "PV " +:+ pvName g +:+ " phase is Released; please delete it and try again"
  else if pv_Status_Phase pv =? VolumeFailed then
    "PV " +:+ pvName g +:+ " phase is Failed; please delete it and try again"
  else
    match (if pv_Status_Phase pv =? VolumeBound then pv_Spec_ClaimRef pv else None) with
    | Some claimRef =>
        if negb (ref_Name claimRef =? pvcName g) then
          "PV " +:+ pvName g +:+ " is Bound, but not to PVC " +:+ pvcName g +:+ "; " +:+
          "please delete PV and try again"
        else if negb (ref_Namespace claimRef =? TridentPodNamespace g) then
          "PV " +:+ pvName g +:+ " is Bound to a PVC in namespace " +:+
          ref_Namespace claimRef +:+ "; " +:+ "please delete PV and try again"
        else volumeLabelError
    | None => volumeLabelError
    end.

(** The volume an event fetches. *)
Definition volumeFetched (e : Event) : option (result PersistentVolume) :=
  match e with
  | Ev (GetPV _) r => Some r
  | _ => None
  end.

End VolumeCompatibility.

(** ** The order in which objects are created *)

Section CreationOrder.
Context {T : Types} {C : Collaborators}.

(** The place of each kind of object in the order of the code. *)
Definition rank (k : ObjectKind) : nat :=
  match k with
  | KNamespace => 0
  | KServiceAccount => 1
  | KClusterRole => 2
  | KClusterRoleBinding => 3
  | KPVC => 4
  | KSecret => 5
  | KPV => 6
  | KDeployment => 7
  | KService => 8
  | KStatefulSet => 9
  | KDaemonSet => 10
  end.

(** The submissions go up in rank from [lo] on (so no kind is submitted
    twice), and a failed submission is the last one. *)
Fixpoint ascending (lo : nat) (ws : list (ObjectKind * bool)) : bool :=
  match ws with
  | [] => true
  | (k, ok) :: ws' =>
      (lo <=? rank k)%nat
      && (ok || match ws' with [] => true | _ :: _ => false end)
      && ascending (S (rank k)) ws'
  end.

(** All submissions are of rank below [hi]. *)
Definition below (hi : nat) (ws : list (ObjectKind * bool)) : bool :=
  forallb (fun w => (rank (fst w) <? hi)%nat) ws.

Definition succeeded (ws : list (ObjectKind * bool)) : bool := forallb snd ws.

(** What a stage of the installation submits: objects of ranks from [lo]
    to below [hi], in order; all of them accepted if the stage succeeds. *)
Definition staged {A} (lo hi : nat) (ws : list (ObjectKind * bool)) (r : result A) : Prop :=
  ascending lo ws = true /\ below hi ws = true
  /\ (forall a, r = Ok a -> succeeded ws = true).

End CreationOrder.

(** ** What the pre-checks find, and what the installation creates *)

Section FoundAndCreated.
Context {T : Types} {C : Collaborators}.
Variable g : Flags.

(** The answer of an existence probe, with the kind of object it is about. *)
Definition existence (e : Event) : option (ObjectKind * result bool) :=
  match e with
  | Ev (CheckNamespaceExists _) r => Some (KNamespace, r)
  | Ev (CheckPVCExists _) r => Some (KPVC, r)
  | Ev (CheckPVExists _) r => Some (KPV, r)
  | _ => None
  end.

(** The submissions of one kind of object, with whether they succeeded. *)
Definition created (kind : ObjectKind) (e : Event) : option bool :=
  match submission g e with
  | Some (k, ok) => if kind_eqb k kind then Some ok else None
  | None => None
  end.

(** What the probes of the pre-checks have answered, when the pre-checks
    pass. *)
Definition probes_of (r : result (bool * bool * bool * option Backend))
    (xs : list (ObjectKind * result bool)) : Prop :=
  match r with
  | Ok (namespaceExists, pvcExists, pvExists, _) =>
      xs = [(KNamespace, Ok namespaceExists); (KPVC, Ok pvcExists); (KPV, Ok pvExists)]
  | Err _ => True
  end.

(** An object that exists is not submitted; one that does not is
    submitted once, and accepted if the run succeeds. *)
Definition keptOrCreated {A} (exists_ : bool) (xs : list bool) (r : result A) : Prop :=
  (exists_ = true -> xs = [])
  /\ (exists_ = false -> forall a, r = Ok a -> xs = [true]).

End FoundAndCreated.

(** ** RBAC objects: what is deleted and what is created *)

Section RBACObjects.
Context {T : Types} {C : Collaborators}.
Variable client : ClusterFacts.
Variable g : Flags.




(** The error with which a call that creates or deletes was refused. *)
Definition refusal {R} (c : Call R) : R -> option error :=
  match c in Call R return R -> option error with
  | CreateObjectByFile _ | CreateObjectByYAML _ | DeleteObjectByYAML _ _
  | AddTridentUserToOpenShiftSCC | RemoveTridentUserFromOpenShiftSCC => fun r => r
  | CreateTridentRole | AddTridentRoleToServiceAccount _
  | RemoveTridentRoleFromServiceAccount _ | DeleteTridentRole =>
      fun r => match r with Err err => Some err | Ok _ => None end
  | _ => fun _ => None
  end.

(** The creation step an event attempts, with the error if it was refused. *)
Definition rbacCreation (e : Event) : option (RBACStep * option error) :=
  match e with
  | Ev c r =>
      match c with
      | AddTridentUserToOpenShiftSCC => Some (StepSCC, refusal c r)
      | CreateTridentRole => Some (StepUCPRole, refusal c r)
      | AddTridentRoleToServiceAccount _ => Some (StepUCPAttachment, refusal c r)
      | _ => match creates g c with
             | Some KServiceAccount => Some (StepServiceAccount, refusal c r)
             | Some KClusterRole => Some (StepClusterRole, refusal c r)
             | Some KClusterRoleBinding => Some (StepClusterRoleBinding, refusal c r)
             | _ => None
             end
      end
  | Logged _ _ _ => None
  end.

(** The creation steps of each RBAC mode, in the order of the code. *)
Definition creationSteps : list RBACStep :=
  if useKubernetesRBAC g then
    [StepServiceAccount; StepClusterRole; StepClusterRoleBinding] ++
    (if flavor_eqb (Flavor client) FlavorOpenShift then [StepSCC] else [])
  else [StepServiceAccount; StepUCPRole; StepUCPAttachment].

(** The error of the run when a creation step fails. *)
Definition creationFailure (step : RBACStep) : string :=
  match step with
  | StepServiceAccount => "could not create service account; "
  | StepClusterRole => "could not create cluster role; "
  | StepClusterRoleBinding => "could not create cluster role binding; "
  | StepSCC => "could not modify security context constraint; "
  | StepUCPRole => "could not create Trident UCP role; "
  | StepUCPAttachment => "could not add Trident UCP role to service account; "
  end.

(** The attempts follow [steps] in order, possibly stopping early, and a
    refused attempt is the last one. *)
Fixpoint attemptedInOrder (steps : list RBACStep) (xs : list (RBACStep * option error))
    {struct xs} : Prop :=
  match xs with
  | [] => True
  | (step, refused) :: xs' =>
      match steps with
      | [] => False
      | step' :: steps' =>
          step = step' /\ (refused <> None -> xs' = []) /\ attemptedInOrder steps' xs'
      end
  end.

(** The course of the RBAC creation. *)
Definition rbacCreated {A} (xs : list (RBACStep * option error)) (r : result A) : Prop :=
  attemptedInOrder creationSteps xs
  /\ (forall a, r = Ok a -> xs = (fun step => (step, None)) <$> creationSteps)
  /\ (forall step err, (step, Some err) ∈ xs -> r = Err (creationFailure step +:+ err)).

End RBACObjects.

(** ** The volume allocated on the storage backend *)

Section Allocation.
Context {T : Types} {C : Collaborators}.
Variable g : Flags.

(** The allocation an event asks of the backend: the backend, the volume
    configuration and the pool. *)
Definition allocation (e : Event) : option (Backend * VolumeConfig * option Pool) :=
  match e with
  | Ev (AddVolume sb volConfig pool) _ => Some (sb, volConfig, pool)
  | _ => None
  end.

(** The volume configuration [createPV] asks for. *)
Definition requestedVolume (sb : Backend) : VolumeConfig :=
  {| vc_Version := "1"; vc_Name := volumeName g; vc_Size := volumeSize g;
     vc_Protocol := sb_Protocol sb; vc_AccessInfo := emptyAccessInfo |}.

Definition noPoolsError (sb : Backend) : error :=
  "backend " +:+ sb_Name sb +:+ " has no storage pools".

(** At most one allocation, of the requested volume, in a pool of the
    backend. *)
Definition allocatedOn (sb : Backend)
    (xs : list (Backend * VolumeConfig * option Pool)) : Prop :=
  xs = []
  \/ exists name pool,
       sb_Storage sb !! name = Some pool
       /\ xs = [(sb, requestedVolume sb, Some pool)].

End Allocation.

(** ** Statements about the waits *)

Section PaceDefs.
Context {T : Types}.

(** What a wait does, as far as its rhythm goes: it polls, or it pauses. *)
Inductive Pace :=
| Poll
| Pause (d : Duration).

Definition pace (e : Event) : option Pace :=
  match e with
  | Ev (CheckPVCBound _) _ | Ev (GetPodByLabel _ _) _ | Ev (Exec _ _ _) _ => Some Poll
  | Ev (Sleep d) _ => Some (Pause d)
  | _ => None
  end.

(** The back-off a wait asks for: the maximum elapsed time, and the
    increments it is given. *)
Definition scheduled (e : Event) : option (Duration * list Duration) :=
  match e with
  | Ev (NewExponentialBackOff MaxElapsedTime) schedule => Some (MaxElapsedTime, schedule)
  | _ => None
  end.

(** A poll, then a pause and a poll for each of the first [k] increments
    of the schedule. *)
Definition paced (schedule : list Duration) (k : nat) : list Pace :=
  Poll :: flat_map (fun d => [Pause d; Poll]) (take k schedule).

(** The answer to the first look at the claim says that it is bound. *)
Definition boundNow (answer : result bool) : bool :=
  match answer with
  | Ok true => true
  | _ => false
  end.

Definition failedWith {A} (r : result A) : bool :=
  match r with
  | Err _ => true
  | Ok _ => false
  end.

(** The wait has asked for a back-off bounded by [timeout], has polled
    and paused as the schedule says, and has not given up before the
    schedule was used up. *)
Definition waitPaced {A} (timeout : Duration) (t : list Event) (r : result A) : Prop :=
  exists schedule k,
    omap scheduled t = [(timeout, schedule)]
    /\ (k <= length schedule)%nat
    /\ omap pace t = paced schedule k
    /\ (failedWith r = true -> k = length schedule).

End PaceDefs.

Section PodWaitDefs.
Context {T : Types} {C : Collaborators}.
Variable client : ClusterFacts.
Variable g : Flags.

(** The answer to a poll for the Trident pod, with the label and the scope
    of the poll. *)
Definition polledPod (e : Event) : option (string * bool * result Pod) :=
  match e with
  | Ev (GetPodByLabel label allNamespaces) r => Some (label, allNamespaces, r)
  | _ => None
  end.

(** The pod that a poll has found running. *)
Definition foundRunning (answer : result Pod) : option Pod :=
  match answer with
  | Ok pod => if pod_Status_Phase pod =? PodRunning then Some pod else None
  | Err _ => None
  end.

(** The Error line of a wait that gives up, from the answer to its last
    poll. *)
Definition podTimeoutLine (answer : result Pod) : Event :=
  Logged ErrorLevel []
    (Join
       ([[Txt "Trident pod was not running after "; SecondsF (k8sTimeout g); Txt " seconds."]]
        ++ match answer with
           | Ok pod =>
               (if pod_Status_Phase pod =? EmptyString then []
                else [[Txt ("Pod status is " +:+ pod_Status_Phase pod +:+ ".")]]
                     ++ (if pod_Status_Message pod =? EmptyString then []
                         else [[Txt (pod_Status_Message pod)]]))
               ++ [[Txt ("Use '" +:+ CLI client +:+ " describe pod " +:+ pod_Name pod +:+
                         " -n " +:+ Namespace client +:+ "' for more information.")]]
           | Err _ => []
           end)
       " ").

(** The course of [waitForTridentPod]: every poll is for the app label in
    the namespace of the client, and the last poll decides. *)
Definition podWaited (t : list Event) (r : result Pod) : Prop :=
  exists answer,
    last (omap polledPod t) = Some (appLabel g, false, answer)
    /\ Forall (fun p => fst p = (appLabel g, false)) (omap polledPod t)
    /\ match r with
       | Ok pod => foundRunning answer = Some pod
       | Err err =>
           err = "pod not running" /\ foundRunning answer = None
           /\ last t = Some (podTimeoutLine answer)
       end.

End PodWaitDefs.

Section RESTWaitDefs.
Context {T : Types} {C : Collaborators}.
Variable g : Flags.

(** The command that asks the Trident server for its version. *)
Definition versionCommand : list string :=
  ["tridentctl"; "-s"; PodServer; "version"; "-o"; "json"].

(** What a run does to see that Trident is up: it polls for the pod, and
    it asks the server in the pod for its version. *)
Inductive Readiness :=
| PodPolled (label : string) (allNamespaces : bool) (answer : result Pod)
| VersionAsked (pod container : string) (command : list string)
    (answer : string * option error).

Definition readiness (e : Event) : option Readiness :=
  match e with
  | Ev (GetPodByLabel label allNamespaces) r => Some (PodPolled label allNamespaces r)
  | Ev (Exec pod container command) r => Some (VersionAsked pod container command r)
  | _ => None
  end.

(** A poll for the pod with the app label, in the namespace of the client. *)
Definition pollsForApp (x : Readiness) : Prop :=
  exists answer, x = PodPolled (appLabel g) false answer.

(** The version command, run in the Trident container of the pod. *)
Definition asksVersionIn (pod : string) (x : Readiness) : Prop :=
  exists answer, x = VersionAsked pod ContainerTrident versionCommand answer.

(** What is wrong with the answer to the version command, if anything:
    the command failed (its output, if any, is appended to the error), or
    its output does not parse. *)
Definition restError (answer : string * option error) : option error :=
  match answer with
  | (versionJSON, Some err) =>
      Some (if versionJSON =? EmptyString then err
            else err +:+ "; " +:+ TrimSpace versionJSON)
  | (versionJSON, None) =>
      match UnmarshalServerVersion versionJSON with
      | Err err => Some err
      | Ok _ => None
      end
  end.

Definition restTimeoutLine : Event :=
  Logged ErrorLevel []
    [Txt "Trident REST interface was not available after "; SecondsF (k8sTimeout g);
     Txt " seconds."].

(** The readiness checks of a run.  Either the version is never asked
    for: the run has ended before, at the latest with a wait for the pod
    that gave up.  Or the polls for the pod end with an answer that shows
    the pod Running, the version is then asked for in that pod, and the
    last answer decides the run. *)
Definition readied (xs : list Readiness) (r : result unit) : Prop :=
  (Forall pollsForApp xs
   /\ (dryRun g = true -> xs = []) /\ (dryRun g = false -> r <> Ok tt))
  \/ exists polls pod asks answer,
       xs = polls ++ PodPolled (appLabel g) false (Ok pod)
                  :: asks ++ [VersionAsked (pod_Name pod) ContainerTrident versionCommand answer]
       /\ Forall pollsForApp polls
       /\ pod_Status_Phase pod = PodRunning
       /\ Forall (asksVersionIn (pod_Name pod)) asks
       /\ r = match restError answer with
              | Some err => Err (err +:+ "; use 'tridentctl logs' to learn more")
              | None => Ok tt
              end.

End RESTWaitDefs.

Section AfterBoundDefs.
Context {T : Types} {C : Collaborators}.
Variable g : Flags.

(** The answer to a look at a claim. *)
Definition claimPolled (e : Event) : option (string * result bool) :=
  match e with
  | Ev (CheckPVCBound pvc) r => Some (pvc, r)
  | _ => None
  end.

(** The event shows the claim of the installation bound. *)
Definition seesBound (e : Event) : bool :=
  match claimPolled e with
  | Some (pvc, Ok true) => pvc =? pvcName g
  | _ => false
  end.

(** No workload object is submitted before the claim has been seen bound
    ([bound] says whether it has been, before the trace starts). *)
Fixpoint afterBound (bound : bool) (t : list Event) : bool :=
  match t with
  | [] => true
  | e :: t' =>
      (bound || negb (isWorkloadCreation g e)) && afterBound (bound || seesBound e) t'
  end.

End AfterBoundDefs.

Section Attempts.
Context {T : Types} {C : Collaborators}.
Variable g : Flags.

Definition allocationOf (pvExists : bool) (storageBackend : option Backend)
    (xs : list (Backend * VolumeConfig * option Pool)) (r : result unit) : Prop :=
  match pvExists, storageBackend with
  | false, Some sb => allocatedOn g sb xs /\ (sb_Storage sb = ∅ -> xs = [] /\ r <> Ok tt)
  | _, _ => xs = []
  end.

(** One attempt of the wait for the pod: one poll, whose answer decides. *)
Definition podAttempted (xs : list (string * bool * result Pod))
    (att : Attempt (option Pod) Pod) : Prop :=
  exists answer,
    xs = [(appLabel g, false, answer)]
    /\ match att with
       | Done _ _ pod => foundRunning answer = Some pod
       | Again _ _ pod err =>
           err = "pod not running" /\ foundRunning answer = None
           /\ pod = match answer with Ok pod => Some pod | Err _ => None end
       end.

Definition restAttempt (answer : string * option error) : Attempt unit string :=
  match answer with
  | (versionJSON, Some err) =>
      if negb (versionJSON =? EmptyString) then
        Again _ _ tt (err +:+ "; " +:+ TrimSpace versionJSON)
      else Again _ _ tt err
  | (versionJSON, None) =>
      match UnmarshalServerVersion versionJSON with
      | Err err => Again _ _ tt err
      | Ok version => Done _ _ version
      end
  end.

(** One attempt of the wait for the pod, as the readiness checks see it. *)
Definition podPolledOnce (xs : list Readiness) (att : Attempt (option Pod) Pod) : Prop :=
  exists answer,
    xs = [PodPolled (appLabel g) false answer]
    /\ match att with
       | Done _ _ pod => foundRunning answer = Some pod
       | Again _ _ _ _ => foundRunning answer = None
       end.

(** One look at the claim: it is the claim of the installation, and the
    look succeeds only if the answer is that it is bound. *)
Definition lookedOnce (xs : list (string * result bool)) (att : Attempt unit unit) : Prop :=
  exists answer,
    xs = [(pvcName g, answer)]
    /\ match att with
       | Done _ _ _ => answer = Ok true
       | Again _ _ _ _ => True
       end.

End Attempts.

(** ** Statements about the size of an existing volume *)

Section VolumeSizeDefs.
Context {T : Types} {C : Collaborators}.
Variable g : Flags.

(** The warnings about the volume: the log lines at warning level that
    carry the field [pv]. *)
Definition volumeWarning (e : Event) : option (list (string * string) * list LogItem) :=
  match e with
  | Logged WarnLevel fields msg =>
      if existsb (fun field => fst field =? "pv") fields then Some (fields, msg) else None
  | _ => None
  end.

(** What the installer has to say about the size of an existing volume:
    nothing when its capacity is the size asked for. *)
Definition sizeWarning (requested : Quantity) (pv : PersistentVolume)
    : list (list (string * string) * list LogItem) :=
  match pv_Spec_Capacity pv !! ResourceStorage with
  | None => [([("pv", pvName g)], [Txt "Could not determine size of existing PV."])]
  | Some actual =>
      if (Quantity_Cmp requested actual =? 0)%Z then []
      else [([("existing", Quantity_String actual); ("request", Quantity_String requested);
              ("pv", pvName g)],
             [Txt "Existing PV size does not match request."])]
  end.

End VolumeSizeDefs.

(** ** Statements about the files of the setup directory *)

Section FileUseDefs.
Context {T : Types} {C : Collaborators}.
Variable g : Flags.

(** What the validators accept. *)
Definition labelled (labels : Labels) : bool :=
  index labels (appLabelKey g) =? appLabelValue g.

Definition nodeLabelled (labels : Labels) : bool :=
  index labels TridentNodeLabelKey =? TridentNodeLabelValue.

Definition hasTridentImage (template : PodTemplateSpec) : bool :=
  negb (findTridentImage (template_Spec_Containers template) =? EmptyString).

Definition claimAccepted (pvc : PersistentVolumeClaim) : bool :=
  labelled (pvc_Labels pvc) && (pvc_Name pvc =? pvcName g)
  && (pvc_Namespace pvc =? TridentPodNamespace g).

Definition deploymentAccepted (deployment : Deployment) : bool :=
  labelled (deployment_Labels deployment)
  && labelled (template_Labels (deployment_Spec_Template deployment))
  && hasTridentImage (deployment_Spec_Template deployment).

Definition serviceAccepted (service : Service) : bool :=
  labelled (service_Labels service).

Definition statefulSetAccepted (statefulset : StatefulSet) : bool :=
  labelled (statefulset_Labels statefulset)
  && labelled (template_Labels (statefulset_Spec_Template statefulset))
  && hasTridentImage (statefulset_Spec_Template statefulset).

Definition daemonSetAccepted (daemonset : DaemonSet) : bool :=
  nodeLabelled (daemonset_Labels daemonset)
  && nodeLabelled (template_Labels (daemonset_Spec_Template daemonset))
  && hasTridentImage (daemonset_Spec_Template daemonset).

(** What a run does with a file of the setup directory: it finds that the
    file exists, it reads it and finds its contents acceptable, it applies
    it. *)
Inductive FileUse :=
| Found (path : string)
| Passed (path : string)
| Applied (path : string).

Definition passed (path : string) (ok : bool) : option FileUse :=
  if ok then Some (Passed path) else None.

Definition fileUse (e : Event) : option FileUse :=
  match e with
  | Ev c r =>
      match c in Call R return R -> option FileUse with
      | fileExists path => fun r => if r then Some (Found path) else None
      | ReadPVCFromFile path => fun r =>
          match r with Ok pvc => passed path (claimAccepted pvc) | Err _ => None end
      | ReadDeploymentFromFile path => fun r =>
          match r with Ok x => passed path (deploymentAccepted x) | Err _ => None end
      | ReadServiceFromFile path => fun r =>
          match r with Ok x => passed path (serviceAccepted x) | Err _ => None end
      | ReadStatefulSetFromFile path => fun r =>
          match r with Ok x => passed path (statefulSetAccepted x) | Err _ => None end
      | ReadDaemonSetFromFile path => fun r =>
          match r with Ok x => passed path (daemonSetAccepted x) | Err _ => None end
      | CreateObjectByFile path => fun _ => Some (Applied path)
      | _ => fun _ => None
      end r
  | Logged _ _ _ => None
  end.

(** The files whose contents the installer checks: the claim and the
    workload objects. *)
Definition needsValidation (path : string) : bool :=
  match fileKind g path with
  | Some (KPVC | KDeployment | KService | KStatefulSet | KDaemonSet) => true
  | _ => false
  end.

(** Every file that is applied is a file of the setup directory, custom
    files being asked for, that was found to exist earlier in the run and,
    if it is one whose contents are checked, was read and found acceptable
    earlier in the run. *)
Definition justified (xs : list FileUse) : Prop :=
  forall before path after,
    xs = before ++ Applied path :: after ->
    useYAML g = true /\ path ∈ setupYAMLPaths g /\ Found path ∈ before
    /\ (needsValidation path = true -> Passed path ∈ before).

(** The same, use by use, from what was seen so far. *)
Fixpoint justifiedFrom (seen xs : list FileUse) : Prop :=
  match xs with
  | [] => True
  | x :: xs' =>
      (forall path, x = Applied path ->
         useYAML g = true /\ path ∈ setupYAMLPaths g /\ Found path ∈ seen
         /\ (needsValidation path = true -> Passed path ∈ seen))
      /\ justifiedFrom (seen ++ [x]) xs'
  end.

End FileUseDefs.

(** ** Statements about the command *)

Section CommandStatements.
Context {T : Types} {W : Type}.

(** [cpost m P]: in every run of the command [m], the trace and the result
    satisfy [P]. *)
Definition cpost {A} (m : Cmd W A) (P : list CmdEvent -> result A -> Prop) : Prop :=
  forall s, P (ctrace_of m s) (cresult_of m s).

(** Calls on the client of the external authorization service (UCP). *)
Definition usesUCPClient (e : CmdEvent) : bool :=
  match e with
  | Inst (Ev c _) =>
      match c with
      | CreateTridentRole | AddTridentRoleToServiceAccount _
      | RemoveTridentRoleFromServiceAccount _ | DeleteTridentRole => true
      | _ => false
      end
  | _ => false
  end.

(** The creation of that client, from the host and the token of the
    command line. *)
Definition createdUCPClient (u : UCPFlags) : CmdEvent :=
  Sys (NewClient (ucpHost u) (ucpBearerToken u)) None.

(** Every use of the client of the authorization service comes after its
    creation. *)
Definition clientCreatedBeforeUse (u : UCPFlags) (t : list CmdEvent) : Prop :=
  forall i e,
    t !! i = Some e -> usesUCPClient e = true -> createdUCPClient u ∈ take i t.

End CommandStatements.

Section GenerationStatements.
Context {T : Types} {C : Collaborators}.

(** What an event of the command does to a file. *)
Inductive FileOp :=
| Removed (path : string)
| Wrote (path : string) (data : YAML) (perm : Z) (ok : bool)
| OtherOp.

Definition fileOp (e : CmdEvent) : FileOp :=
  match e with
  | Sys c r =>
      match c in SysCall R return R -> FileOp with
      | Remove path => fun _ => Removed path
      | WriteFile path data perm => fun r =>
          Wrote path data perm match r with None => true | Some _ => false end
      | _ => fun _ => OtherOp
      end r
  | Inst _ => OtherOp
  end.

(** The files of each topology with their contents, in the order in which
    [prepareYAMLFiles] and [prepareCSIYAMLFiles] write them. *)
Definition generatedFiles (client : ClusterFacts) (g : Flags) : list (string * YAML) :=
  if csi g then
    [(namespacePath g, GetNamespaceYAML (TridentPodNamespace g));
     (serviceAccountPath g, GetServiceAccountYAML true);
     (clusterRolePath g, GetClusterRoleYAML (Flavor client) (ServerVersion client) true);
     (clusterRoleBindingPath g,
      GetClusterRoleBindingYAML (TridentPodNamespace g) (Flavor client) (ServerVersion client)
        true);
     (pvcPath g,
      GetPVCYAML (pvcName g) (TridentPodNamespace g) (volumeSize g) (appLabelValue g));
     (csiServicePath g, GetCSIServiceYAML (appLabelValue g));
     (csiStatefulSetPath g,
      GetCSIStatefulSetYAML (pvcName g) (tridentImage g) (etcdImage g) (appLabelValue g)
        (Debug g));
     (csiDaemonSetPath g, GetCSIDaemonSetYAML (tridentImage g) TridentNodeLabelValue (Debug g))]
  else
    [(namespacePath g, GetNamespaceYAML (TridentPodNamespace g));
     (serviceAccountPath g, GetServiceAccountYAML false);
     (clusterRolePath g, GetClusterRoleYAML (Flavor client) (ServerVersion client) false);
     (clusterRoleBindingPath g,
      GetClusterRoleBindingYAML (TridentPodNamespace g) (Flavor client) (ServerVersion client)
        false);
     (pvcPath g,
      GetPVCYAML (pvcName g) (TridentPodNamespace g) (volumeSize g) (appLabelValue g));
     (deploymentPath g,
      GetDeploymentYAML (pvcName g) (tridentImage g) (etcdImage g) (appLabelValue g)
        (Debug g))].

(** The files are written in order with mode 0644, up to the first write
    that fails; the result is [nil] when all of them were written. *)
Fixpoint writtenInOrder (files : list (string * YAML)) (ops : list FileOp) (r : result unit)
    : Prop :=
  match files with
  | [] => ops = [] /\ r = Ok tt
  | (path, data) :: files' =>
      (ops = [Wrote path data 420 false] /\ r <> Ok tt)
      \/ (exists ops', ops = Wrote path data 420 true :: ops' /\ writtenInOrder files' ops' r)
  end.

(** The flags with [--generate-custom-yaml] given. *)
Definition generating (g : Flags) : Flags :=
  {| dryRun := dryRun g; generateYAML := true; useYAML := useYAML g;
     silent := silent g; csi := csi g;
     pvName := pvName g; pvcName := pvcName g; volumeName := volumeName g;
     volumeSize := volumeSize g; tridentImage := tridentImage g; etcdImage := etcdImage g;
     k8sTimeout := k8sTimeout g; useKubernetesRBAC := useKubernetesRBAC g;
     installerDirectoryPath := installerDirectoryPath g;
     appLabel := appLabel g; appLabelKey := appLabelKey g; appLabelValue := appLabelValue g;
     TridentPodNamespace := TridentPodNamespace g; Debug := Debug g |}.

(** The file an event of the command writes, when the write succeeds. *)
Definition writtenFile (e : CmdEvent) : option (string * YAML) :=
  match fileOp e with
  | Wrote path data _ true => Some (path, data)
  | _ => None
  end.

(** The manifest an event of the installer submits as it is, not from a
    file. *)
Definition submittedManifest (e : Event) : option YAML :=
  match e with
  | Ev (CreateObjectByYAML yaml) _ => Some yaml
  | _ => None
  end.

End GenerationStatements.

Section NamespaceStatements.
Context {T : Types} {C : Collaborators}.

(** The namespace the command installs into: the one of the command line
    or, when none is given there, the current one of the client. *)
Definition chosenNamespace (g : Flags) (client : ClusterFacts) : string :=
  if TridentPodNamespace g =? EmptyString then Namespace client else TridentPodNamespace g.

(** What a successful pre-run has done about the namespace, with the flags
    and the client it hands to the body of the command. *)
Definition namespaceSettled (g : Flags) (t : list CmdEvent) (g' : Flags)
    (client' : ClusterFacts) : Prop :=
  exists client,
    Sys NewKubectlClient (Ok client) ∈ t
    /\ TridentPodNamespace g' = chosenNamespace g client
    /\ isDNS1123Label (TridentPodNamespace g') = true
    /\ last t = Some (Sys (SetNamespace client (TridentPodNamespace g')) client').

(** The flags with [--dry-run] given. *)
Definition dryRunning (g : Flags) : Flags :=
  {| dryRun := true; generateYAML := generateYAML g; useYAML := useYAML g;
     silent := silent g; csi := csi g;
     pvName := pvName g; pvcName := pvcName g; volumeName := volumeName g;
     volumeSize := volumeSize g; tridentImage := tridentImage g; etcdImage := etcdImage g;
     k8sTimeout := k8sTimeout g; useKubernetesRBAC := useKubernetesRBAC g;
     installerDirectoryPath := installerDirectoryPath g;
     appLabel := appLabel g; appLabelKey := appLabelKey g; appLabelValue := appLabelValue g;
     TridentPodNamespace := TridentPodNamespace g; Debug := Debug g |}.

End NamespaceStatements.

Section PreRunDefs.
Context {T : Types}.

(** Events of the command that change nothing outside it: no file is
    removed or written, no call goes to the cluster, the authorization
    service, the file system or the storage backend through the installer. *)
Definition changesNothing (e : CmdEvent) : bool :=
  match e with
  | Sys c _ =>
      match c with
      | Remove _ | WriteFile _ _ _ => false
      | _ => true
      end
  | Inst (Ev _ _) => false
  | Inst (Logged _ _ _) => true
  end.

(** Events of the command before any client exists: the initialisation of
    logging, and log lines. *)
Definition beforeAnyClient (e : CmdEvent) : bool :=
  match e with
  | Sys c _ =>
      match c with
      | InitLogLevel _ _ => true
      | _ => false
      end
  | Inst (Ev _ _) => false
  | Inst (Logged _ _ _) => true
  end.

End PreRunDefs.

(** ** A concrete host, for examples

    A host on which the command runs, over the simulated cluster: the
    files of the cluster are the files of the host. *)

Module Host.
Import Sim.

Definition directed (client : ClusterFacts) (namespace : string) : ClusterFacts :=
  {| Flavor := Flavor client; ServerVersion := ServerVersion client; CLI := CLI client;
     Namespace := namespace |}.

(** [found] is the client that [NewKubectlClient] returns. *)
Definition host (found : ClusterFacts) : SysHandler Cluster :=
  fun R c w =>
    match c in SysCall R return Cluster * R with
    | InitLogLevel _ _ => (w, None)
    | NewKubectlClient => (w, Ok found)
    | NewClient _ _ => (w, None)
    | SetNamespace client namespace => (w, directed client namespace)
    | InstallerDirectory => (w, Ok "/opt/trident-installer")
    | Remove path =>
        (with_files w (filter (fun f => negb (f =? path)) (files w)),
         if mem path (files w) then None else Some "no such file or directory")
    | WriteFile path _ _ => (with_files w (path :: files w), None)
    end.

Definition build : BuildInfo :=
  {| BuildImage := "netapp/trident:18.04.0"; BuildEtcdImage := "quay.io/coreos/etcd:v3.1.5";
     BuildEtcdVersion := "v3.1.5"; GOOS := "linux" |}.

(** No credentials of the external authorization service. *)
Definition noUCP : UCPFlags := {| ucpBearerToken := EmptyString; ucpHost := EmptyString |}.

(** The flags of the command line when nothing but the volume size is
    given: no namespace, no images. *)
Definition bare : Flags :=
  {| dryRun := false; generateYAML := false; useYAML := false; silent := false; csi := false;
     pvName := EmptyString; pvcName := EmptyString; volumeName := EmptyString;
     volumeSize := DefaultVolumeSize;
     tridentImage := EmptyString; etcdImage := EmptyString;
     k8sTimeout := 180 * Second; useKubernetesRBAC := false;
     installerDirectoryPath := EmptyString;
     appLabel := EmptyString; appLabelKey := EmptyString; appLabelValue := EmptyString;
     TridentPodNamespace := EmptyString; Debug := false |}.

(** The same build for another operating system. *)
Definition elsewhere : BuildInfo :=
  {| BuildImage := BuildImage build; BuildEtcdImage := BuildEtcdImage build;
     BuildEtcdVersion := BuildEtcdVersion build; GOOS := "darwin" |}.

(** A namespace given on the command line that is not a DNS-1123 label. *)
Definition capitalised : Flags :=
  {| dryRun := false; generateYAML := false; useYAML := false; silent := false; csi := false;
     pvName := EmptyString; pvcName := EmptyString; volumeName := EmptyString;
     volumeSize := DefaultVolumeSize;
     tridentImage := EmptyString; etcdImage := EmptyString;
     k8sTimeout := 180 * Second; useKubernetesRBAC := false;
     installerDirectoryPath := EmptyString;
     appLabel := EmptyString; appLabelKey := EmptyString; appLabelValue := EmptyString;
     TridentPodNamespace := "Trident"; Debug := false |}.

(** A volume left over from an earlier installation, released by its
    claim. *)
Definition releasedVolume : PersistentVolume :=
  {| pv_Labels := Some {[ "app" := "trident.netapp.io" ]};
     pv_Spec_ClaimRef := None;
     pv_Spec_Capacity := {[ ResourceStorage := 2147483648 ]};
     pv_Status_Phase := VolumeReleased |}.

End Host.

(** * Properties *)

(** ** Rules for runs *)

Section Rules.
Context {T : Types} {C : Collaborators} {W : Type}.
Implicit Types s : St W.

Lemma trace_bind {A B} (m : M W A) (f : A -> M W B) s :
  trace_of (bind m f) s =
  trace_of m s ++ match result_of m s with
                  | Ok a => trace_of (f a) (state_of m s)
                  | Err _ => []
                  end.
Proof.
  unfold trace_of, result_of, state_of, bind.
  destruct (m s) as [[s1 t1] [a|e]]; simpl.
  - destruct (f a s1) as [[s2 t2] r]; reflexivity.
  - symmetry; apply app_nil_r.
Qed.

Lemma result_bind {A B} (m : M W A) (f : A -> M W B) s :
  result_of (bind m f) s =
  match result_of m s with
  | Ok a => result_of (f a) (state_of m s)
  | Err e => Err e
  end.
Proof.
  unfold result_of, state_of, bind.
  destruct (m s) as [[s1 t1] [a|e]]; simpl; [|reflexivity].
  destruct (f a s1) as [[s2 t2] r]; reflexivity.
Qed.

Lemma state_bind {A B} (m : M W A) (f : A -> M W B) s :
  state_of (bind m f) s =
  match result_of m s with
  | Ok a => state_of (f a) (state_of m s)
  | Err e => state_of m s
  end.
Proof.
  unfold result_of, state_of, bind.
  destruct (m s) as [[s1 t1] [a|e]]; simpl; [|reflexivity].
  destruct (f a s1) as [[s2 t2] r]; reflexivity.
Qed.

Lemma post_ret {A} (a : A) (P : list Event -> result A -> Prop) :
  P [] (Ok a) -> post (W:=W) (ret a) P.
Proof. intros H s; exact H. Qed.

Lemma post_fail {A} err (P : list Event -> result A -> Prop) :
  P [] (Err err) -> post (W:=W) (fail err) P.
Proof. intros H s; exact H. Qed.

Lemma post_call (handle : Handler W) {R} (c : Call R) (P : list Event -> result R -> Prop) :
  (forall r, P [Ev c r] (Ok r)) -> post (call handle c) P.
Proof.
  intros H s. unfold trace_of, result_of, call.
  destruct (handle R c (world s)) as [w r]; simpl. apply H.
Qed.

Lemma post_log lvl fields msg (P : list Event -> result unit -> Prop) :
  P [Logged lvl fields msg] (Ok tt) -> post (W:=W) (log lvl fields msg) P.
Proof. intros H s; exact H. Qed.

Lemma post_get_TridentPodName (P : list Event -> result string -> Prop) :
  (forall name, P [] (Ok name)) -> post (W:=W) get_TridentPodName P.
Proof. intros H s; apply H. Qed.

Lemma post_set_TridentPodName name (P : list Event -> result unit -> Prop) :
  P [] (Ok tt) -> post (W:=W) (set_TridentPodName name) P.
Proof. intros H s; exact H. Qed.

Lemma post_set_driver_globals t ctx (P : list Event -> result unit -> Prop) :
  P [] (Ok tt) -> post (W:=W) (set_driver_globals t ctx) P.
Proof. intros H s; exact H. Qed.

Lemma post_bind {A B} (m : M W A) (f : A -> M W B) (P : list Event -> result B -> Prop) :
  post m (fun t1 r1 =>
            match r1 with
            | Ok a => post (f a) (fun t2 r => P (t1 ++ t2) r)
            | Err err => P t1 (Err err)
            end) ->
  post (bind m f) P.
Proof.
  intros H s. rewrite trace_bind, result_bind. specialize (H s).
  destruct (result_of m s) as [a|e].
  - apply H.
  - rewrite app_nil_r. exact H.
Qed.

Lemma post_wrapError {A} wrap (m : M W A) (P : list Event -> result A -> Prop) :
  post m (fun t r => P t match r with Ok a => Ok a | Err err => Err (wrap err) end) ->
  post (wrapError wrap m) P.
Proof.
  intros H s. specialize (H s). unfold trace_of, result_of, wrapError in *.
  destruct (m s) as [[s1 t1] [a|e]]; exact H.
Qed.

Lemma post_conseq {A} (m : M W A) (P Q : list Event -> result A -> Prop) :
  post m Q -> (forall t r, Q t r -> P t r) -> post m P.
Proof. intros H HQ s. apply HQ, H. Qed.

Lemma post_and {A} (m : M W A) (P Q : list Event -> result A -> Prop) :
  post m P -> post m Q -> post m (fun t r => P t r /\ Q t r).
Proof. intros HP HQ s. split; [apply HP | apply HQ]. Qed.

(** Sequencing with what is known of the first part. *)
Lemma post_seq {A B} (m : M W A) (f : A -> M W B) (Q : list Event -> result A -> Prop)
    (P : list Event -> result B -> Prop) :
  post m Q ->
  (forall t1 a, Q t1 (Ok a) -> post (f a) (fun t2 r => P (t1 ++ t2) r)) ->
  (forall t1 err, Q t1 (Err err) -> P t1 (Err err)) ->
  post (bind m f) P.
Proof.
  intros HQ Hok Herr. apply post_bind. eapply post_conseq; [exact HQ|].
  intros t [a|e] H; [apply Hok | apply Herr]; exact H.
Qed.

Lemma emits_post {A} K (m : M W A) : emits K m <-> post m (fun t _ => Forall K t).
Proof. reflexivity. Qed.

Lemma emits_ret {A} K (a : A) : emits (W:=W) K (ret a).
Proof. intros s; constructor. Qed.

Lemma emits_fail {A} K err : emits (W:=W) (A:=A) K (fail err).
Proof. intros s; constructor. Qed.

Lemma emits_call (handle : Handler W) K {R} (c : Call R) :
  (forall r, K (Ev c r)) -> emits K (call handle c).
Proof.
  intros H. apply emits_post, post_call. intros r. constructor; [apply H | constructor].
Qed.

Lemma emits_log K lvl fields msg :
  K (Logged lvl fields msg) -> emits (W:=W) K (log lvl fields msg).
Proof. intros H s. constructor; [exact H | constructor]. Qed.

Lemma emits_bind {A B} K (m : M W A) (f : A -> M W B) :
  emits K m -> (forall a, emits K (f a)) -> emits K (bind m f).
Proof.
  intros Hm Hf s. rewrite trace_bind. apply Forall_app. split; [apply Hm|].
  destruct (result_of m s); [apply Hf | constructor].
Qed.

Lemma emits_wrapError {A} K wrap (m : M W A) : emits K m -> emits K (wrapError wrap m).
Proof.
  intros H. apply emits_post, post_wrapError. exact H.
Qed.

Lemma emits_get_TridentPodName K : emits (W:=W) K get_TridentPodName.
Proof. intros s; constructor. Qed.

Lemma emits_set_TridentPodName K name : emits (W:=W) K (set_TridentPodName name).
Proof. intros s; constructor. Qed.

Lemma emits_set_driver_globals K t ctx : emits (W:=W) K (set_driver_globals t ctx).
Proof. intros s; constructor. Qed.

Lemma emits_RetryNotify (handle : Handler W) K {S A}
    (operation : S -> M W (Attempt S A)) b notify captured :
  (forall x, emits K (operation x)) ->
  (forall err d, emits K (notify err d)) ->
  (forall d r, K (Ev (Sleep d) r)) ->
  emits K (RetryNotify handle operation b notify captured).
Proof.
  intros Hop Hn Hs. revert captured.
  induction b as [|next b IH]; intros captured; simpl.
  - apply emits_bind; [apply Hop|]. intros [a|x err]; apply emits_ret.
  - apply emits_bind; [apply Hop|]. intros [a|x err]; [apply emits_ret|].
    apply emits_bind; [apply Hn|]. intros _.
    apply emits_bind; [apply emits_call; apply Hs|]. intros _. apply IH.
Qed.

End Rules.

Create HintDb installer.
#[export] Hint Unfold
  useYAMLFile validateTridentDeployment validateTridentService validateTridentStatefulSet
  validateTridentDaemonSet validateTridentPVC loadStorageDriver createRBACObjects
  removeRBACObjects waitForTridentPod
  checkPodRunning checkRESTInterface waitForRESTInterface notifyDebug
  parseVolumeSize ensureNotInstalled checkNamespace checkPVC checkPV preChecks
  createNamespace cleanRBACObjects createPVC checkPVCBound
  waitForPVCBound createDeployment createService createStatefulSet createDaemonSet
  createWorkloads installSteps installTrident : installer.

(** Walks through a program in weakest-precondition style. *)
Ltac post_step :=
  lazymatch goal with
  | |- post (ret _) _ => apply post_ret
  | |- post (fail _) _ => apply post_fail
  | |- post (log _ _ _) _ => apply post_log
  | |- post get_TridentPodName _ => apply post_get_TridentPodName; intros ?
  | |- post (set_TridentPodName _) _ => apply post_set_TridentPodName
  | |- post (set_driver_globals _ _) _ => apply post_set_driver_globals
  | |- post (wrapError _ _) _ => apply post_wrapError
  | |- post (call _ _) _ => apply post_call; intros ?
  | |- post (bind _ _) _ => apply post_bind
  | |- post (if ?b then _ else _) _ => destruct b eqn:?
  | |- post (match ?x with _ => _ end) _ => destruct x eqn:?
  end.

Ltac post_walk := repeat post_step.

(** The calls of the volume bootstrap, whatever volume the backend returns. *)
Section VolumeBootstrapCalls.
Context {T : Types} {C : Collaborators} {W : Type}.
Variable handle : Handler W.
Variable client : ClusterFacts.
Variable g : Flags.

Lemma emits_createPVIfNecessary (K : Event -> Prop) pvExists storageBackend :
  (forall pools n, K (Ev (RangeFirst pools) n)) ->
  (forall sb volConfig pool r, K (Ev (AddVolume sb volConfig pool) r)) ->
  (forall secret r, K (Ev (CheckSecretExists secret) r)) ->
  (forall yaml r, yamlKind yaml = KSecret -> K (Ev (CreateObjectByYAML yaml) r)) ->
  (forall yaml r, yamlKind yaml = KPV -> K (Ev (CreateObjectByYAML yaml) r)) ->
  emits K (createPVIfNecessary handle client g pvExists storageBackend).
Proof.
  intros Hrange Hadd Hcheck Hsecret Hpv. apply emits_post.
  unfold createPVIfNecessary, createPV, createCHAPSecret, rangeFirst.
  post_walk; simpl; repeat (constructor; [solve [auto]|]); constructor.
Qed.

End VolumeBootstrapCalls.

(** Walks through a program, leaving the events of its calls to [solve_event]. *)
Ltac emits_step solve_event :=
  lazymatch goal with
  | |- emits _ (ret _) => apply emits_ret
  | |- emits _ (fail _) => apply emits_fail
  | |- emits _ get_TridentPodName => apply emits_get_TridentPodName
  | |- emits _ (set_TridentPodName _) => apply emits_set_TridentPodName
  | |- emits _ (set_driver_globals _ _) => apply emits_set_driver_globals
  | |- emits _ (wrapError _ _) => apply emits_wrapError
  | |- emits _ (log _ _ _) => apply emits_log; solve_event
  | |- emits _ (call _ _) => apply emits_call; intros; solve_event
  | |- emits _ (RetryNotify _ _ _ _ _) =>
      apply emits_RetryNotify; [intros ? | intros ? ? | intros; solve_event]
  | |- emits _ (createPVIfNecessary _ _ _ _ _) =>
      apply emits_createPVIfNecessary; intros; solve_event
  | |- emits _ (bind _ _) => apply emits_bind; [| intros ?]
  | |- emits _ (if ?b then _ else _) => destruct b
  | |- emits _ (match ?x with _ => _ end) => destruct x
  | |- emits _ (let '(_, _) := ?x in _) => destruct x
  end.

Ltac emits_walk_with solve_event := repeat emits_step solve_event.

Tactic Notation "emits_walk" tactic3(solve_event) :=
  unfold unseen; autounfold with installer; emits_walk_with solve_event.

(** ** Footprints: which calls each part of the installer can make *)

Section Footprints.
Context {T : Types} {C : Collaborators} {W : Type}.
Variable handle : Handler W.
Variable client : ClusterFacts.
Variable g : Flags.

Lemma preChecks_no_mutation :
  emits (fun e => isMutation e = false) (preChecks handle client g).
Proof.
  emits_walk reflexivity.
Qed.

End Footprints.

(** ** Rules for observations *)

Section ObservationRules.
Context {T : Types} {C : Collaborators} {W : Type} {X : Type}.
Variable obs : Event -> option X.

Lemma omap_unseen (t : list Event) : Forall (fun e => obs e = None) t -> omap obs t = [].
Proof.
  induction 1 as [|e t He _ IH]; [reflexivity|]. simpl. rewrite He. exact IH.
Qed.

Lemma unseen_trace {A} (m : M W A) s : unseen obs m -> omap obs (trace_of m s) = [].
Proof. intros H. apply omap_unseen, H. Qed.

Lemma observes_unseen {A} (m : M W A) (P : list X -> result A -> Prop) :
  unseen obs m -> (forall r, P [] r) -> observes obs m P.
Proof. intros Hs HP s. rewrite (unseen_trace m s Hs). apply HP. Qed.

Lemma observes_seq {A B} (m : M W A) (f : A -> M W B)
    (Q : list X -> result A -> Prop) (P : list X -> result B -> Prop) :
  observes obs m Q ->
  (forall xs a, Q xs (Ok a) -> observes obs (f a) (fun ys r => P (xs ++ ys) r)) ->
  (forall xs err, Q xs (Err err) -> P xs (Err err)) ->
  observes obs (bind m f) P.
Proof.
  intros HQ Hok Herr. unfold observes. eapply post_seq; [exact HQ | |].
  - intros t1 a H. eapply post_conseq; [exact (Hok _ a H)|].
    intros t r HP. simpl in HP. rewrite omap_app. exact HP.
  - intros t1 err H. apply Herr, H.
Qed.

Lemma observes_skip {A B} (m : M W A) (f : A -> M W B) (P : list X -> result B -> Prop) :
  unseen obs m ->
  (forall err, P [] (Err err)) ->
  (forall a, observes obs (f a) P) ->
  observes obs (bind m f) P.
Proof.
  intros Hs Herr Hf.
  apply observes_seq with (Q := fun xs _ => xs = []).
  - intros s. apply unseen_trace, Hs.
  - intros xs a ->. exact (Hf a).
  - intros xs err ->. apply Herr.
Qed.

Lemma observes_conseq {A} (m : M W A) (P Q : list X -> result A -> Prop) :
  observes obs m Q -> (forall xs r, Q xs r -> P xs r) -> observes obs m P.
Proof. intros H HQ s. apply HQ, H. Qed.

Lemma observes_wrapError {A} wrap (m : M W A) (P : list X -> result A -> Prop) :
  observes obs m (fun xs r => P xs match r with Ok a => Ok a | Err err => Err (wrap err) end) ->
  observes obs (wrapError wrap m) P.
Proof. intros H. apply post_wrapError, H. Qed.

Lemma observed_elem (t : list Event) e x : e ∈ t -> obs e = Some x -> x ∈ omap obs t.
Proof. intros He Hx. apply list_elem_of_omap. exists e. split; assumption. Qed.

End ObservationRules.

(** ** Rules for aborting runs *)

Section AbortRules.
Context {T : Types} {C : Collaborators} {W : Type} {X : Type}.
Variable obs : Event -> option X.
Variable phi : X -> Prop.
Variable msg : X -> error.
Variable K : Event -> Prop.

Lemma aborts_unseen {A} (m : M W A) :
  emits (fun e => K e /\ obs e = None) m -> aborts obs phi msg K m.
Proof.
  intros Hm s x Hx. exfalso.
  rewrite (omap_unseen obs) in Hx; [apply elem_of_nil in Hx; exact Hx|].
  eapply Forall_impl; [apply Hm|]. intros e [_ He]. exact He.
Qed.

Lemma aborts_skip {A B} (m : M W A) (f : A -> M W B) :
  emits (fun e => K e /\ obs e = None) m ->
  (forall a, aborts obs phi msg K (f a)) ->
  aborts obs phi msg K (bind m f).
Proof.
  intros Hm Hf s x. rewrite trace_bind, result_bind, omap_app.
  assert (HK : Forall K (trace_of m s))
    by (eapply Forall_impl; [apply Hm|]; intros e [He _]; exact He).
  rewrite (omap_unseen obs (trace_of m s))
    by (eapply Forall_impl; [apply Hm|]; intros e [_ He]; exact He).
  simpl. destruct (result_of m s) as [a|err].
  - intros Hx Hphi. destruct (Hf a (state_of m s) x Hx Hphi) as [Hr Ht].
    split; [exact Hr|]. apply Forall_app. split; assumption.
  - intros Hx. apply elem_of_nil in Hx. contradiction.
Qed.

Lemma aborts_stop {A B} (m : M W A) (f : A -> M W B) :
  aborts obs phi msg K m ->
  (forall a, unseen obs (f a)) ->
  aborts obs phi msg K (bind m f).
Proof.
  intros Hm Hf s x. rewrite trace_bind, result_bind, omap_app.
  specialize (Hm s x). simpl in Hm.
  destruct (result_of m s) as [a|err].
  - rewrite (unseen_trace obs (f a) _ (Hf a)), app_nil_r.
    intros Hx Hphi. destruct (Hm Hx Hphi) as [Hr _]. discriminate.
  - simpl. rewrite !app_nil_r. intros Hx Hphi. destruct (Hm Hx Hphi) as [Hr Ht].
    injection Hr as ->. split; [reflexivity | exact Ht].
Qed.

End AbortRules.

(** Turns boolean string tests in the context into (in)equalities. *)
Ltac eqb_prop :=
  repeat match goal with
         | H : negb _ = true |- _ => apply negb_true_iff in H
         | H : negb _ = false |- _ => apply negb_false_iff in H
         | H : (_ =? _)%string = true |- _ => apply String.eqb_eq in H
         | H : (_ =? _)%string = false |- _ => apply String.eqb_neq in H
         end.

(** ** Existing claim: incompatibility aborts before any mutation *)

Section ExistingClaim.
Context {T : Types} {C : Collaborators} {W : Type}.
Variable handle : Handler W.
Variable client : ClusterFacts.
Variable g : Flags.

Lemma carriesLabel_index labels :
  appLabelValue g <> EmptyString ->
  is_nil labels || negb (index labels (appLabelKey g) =? appLabelValue g) = false ->
  carriesLabel g labels.
Proof.
  intros Hne H. apply orb_false_elim in H as [Hnil Hidx].
  apply negb_false_iff, String.eqb_eq in Hidx.
  unfold carriesLabel, labelOf. destruct labels as [m|]; [|discriminate].
  unfold index in Hidx. destruct (m !! appLabelKey g) as [v|]; simpl in Hidx.
  - congruence.
  - congruence.
Qed.

Lemma checkPVC_claim :
  appLabelValue g <> EmptyString ->
  observes claimFetched (checkPVC handle g)
    (fun xs r => forall pvc, Ok pvc ∈ xs -> claimIncompatible g pvc ->
                             r = Err (claimRemediation g pvc)).
Proof.
  intros Hne. unfold observes, checkPVC. post_walk; simpl; intros pvc Hin Hinc;
    try (apply elem_of_nil in Hin; contradiction);
    apply list_elem_of_singleton in Hin; try discriminate;
    injection Hin as <-; unfold claimRemediation.
  - rewrite Heqb0. reflexivity.
  - rewrite Heqb0, Heqb1. reflexivity.
  - rewrite Heqb0, Heqb1. reflexivity.
  - exfalso. destruct Hinc as [Hl | [[Hb Hv] | Hc]].
    + apply String.eqb_eq in Hl. congruence.
    + apply String.eqb_eq in Hb. apply String.eqb_neq in Hv.
      rewrite Hb, Hv in Heqb1. discriminate.
    + apply Hc, carriesLabel_index; assumption.
Qed.

Lemma preChecks_claim :
  appLabelValue g <> EmptyString ->
  observes claimFetched (preChecks handle client g)
    (fun xs r => forall pvc, Ok pvc ∈ xs -> claimIncompatible g pvc ->
                             r = Err (claimRemediation g pvc)).
Proof.
  intros Hne. unfold preChecks.
  apply observes_skip.
  { emits_walk reflexivity. }
  { intros err pvc Hin. apply elem_of_nil in Hin. contradiction. }
  intros pvRequestedQuantity. apply observes_skip.
  { emits_walk reflexivity. }
  { intros err pvc Hin. apply elem_of_nil in Hin. contradiction. }
  intros _. apply observes_skip.
  { emits_walk reflexivity. }
  { intros err pvc Hin. apply elem_of_nil in Hin. contradiction. }
  intros namespaceExists. eapply observes_seq.
  - apply checkPVC_claim, Hne.
  - intros xs pvcExists HQ. apply observes_unseen.
    { emits_walk reflexivity. }
    intros r pvc Hin Hinc. rewrite app_nil_r in Hin.
    specialize (HQ pvc Hin Hinc). discriminate.
  - intros xs err HQ pvc Hin Hinc. specialize (HQ pvc Hin Hinc).
    injection HQ as ->. reflexivity.
Qed.

Lemma installSteps_no_claim_fetch namespaceExists pvcExists pvExists storageBackend :
  unseen claimFetched
    (installSteps handle client g namespaceExists pvcExists pvExists storageBackend).
Proof.
  emits_walk reflexivity.
Qed.

(** C4. If the claim the installer finds is in the Lost phase, or is Bound
    to a volume other than the intended one, or does not carry the
    topology's identity label with the expected value, the run ends with
    the error that names the remediation, and no call of the run creates or
    deletes anything. *)
Theorem incompatible_claim_aborts_before_mutation (s : St W) (pvc : PersistentVolumeClaim) :
  appLabelValue g <> EmptyString ->
  Ev (GetPVC (pvcName g)) (Ok pvc) ∈ trace_of (installTrident handle client g) s ->
  claimIncompatible g pvc ->
  result_of (installTrident handle client g) s = Err (claimRemediation g pvc)
  /\ Forall (fun e => isMutation e = false) (trace_of (installTrident handle client g) s).
Proof.
  intros Hne Hin Hinc. unfold installTrident in *.
  rewrite trace_bind in *. rewrite result_bind.
  pose proof (preChecks_claim Hne s) as Hc. simpl in Hc.
  pose proof (preChecks_no_mutation handle client g s) as Hm.
  destruct (result_of (preChecks handle client g) s) as [[[[ns pe] pv] sb]|err].
  - exfalso. apply elem_of_app in Hin as [Hin|Hin].
    + specialize (Hc pvc (observed_elem _ _ _ _ Hin eq_refl) Hinc). discriminate.
    + destruct (dryRun g).
      * apply elem_of_nil in Hin. contradiction.
      * pose proof (installSteps_no_claim_fetch ns pe pv sb
                      (state_of (preChecks handle client g) s)) as Hs.
        rewrite Forall_forall in Hs. specialize (Hs _ Hin). discriminate.
  - rewrite app_nil_r in *. split; [|exact Hm].
    specialize (Hc pvc (observed_elem _ _ _ _ Hin eq_refl) Hinc).
    injection Hc as ->. reflexivity.
Qed.

End ExistingClaim.

Lemma incompatible_claim_witness :
  let run := installTrident (Sim.handle Demo.noFaults)
               (Demo.facts (1, 9, 0)%nat FlavorKubernetes) Demo.flags in
  let s := Demo.start (Sim.with_objects (Demo.cluster Demo.nfsVolume)
                         (Some Demo.lostClaim) None) in
  appLabelValue Demo.flags <> EmptyString
  /\ Ev (GetPVC (pvcName Demo.flags)) (Ok Demo.lostClaim) ∈ trace_of run s
  /\ claimIncompatible Demo.flags Demo.lostClaim
  /\ result_of run s = Err (claimRemediation Demo.flags Demo.lostClaim)
  /\ Forall (fun e => isMutation e = false) (trace_of run s).
Proof.
  intros run s.
  assert (H1 : appLabelValue Demo.flags <> EmptyString) by (vm_compute; discriminate).
  assert (H2 : Ev (GetPVC (pvcName Demo.flags)) (Ok Demo.lostClaim) ∈ trace_of run s)
    by (vm_compute; repeat constructor).
  assert (H3 : claimIncompatible Demo.flags Demo.lostClaim) by (left; reflexivity).
  split; [exact H1|]. split; [exact H2|]. split; [exact H3|].
  exact (incompatible_claim_aborts_before_mutation _ _ _ s Demo.lostClaim H1 H2 H3).
Defined.

(** ** The volume probe and the storage driver *)

Section Preflight.
Context {T : Types} {C : Collaborators} {W : Type}.
Variable handle : Handler W.
Variable client : ClusterFacts.
Variable g : Flags.

Lemma loadStorageDriver_preflight :
  observes preflight (loadStorageDriver handle client g) (DriverLoaded g).
Proof.
  unfold observes, loadStorageDriver. post_walk; simpl; subst;
    solve [ constructor; reflexivity ].
Qed.

Lemma carriesLabel_checked labels :
  carriesLabel g labels ->
  is_nil labels || negb (index labels (appLabelKey g) =? appLabelValue g) = false.
Proof.
  unfold carriesLabel, labelOf, index. destruct labels as [m|]; [|discriminate].
  intros ->. simpl. rewrite String.eqb_refl. reflexivity.
Qed.

Lemma checkPV_preflight pvRequestedQuantity :
  observes preflight (checkPV handle g pvRequestedQuantity) (VolumeProbed g).
Proof.
  unfold observes, checkPV. post_walk; simpl.
  all: try solve [constructor].
  all: apply vp_exists; [intros b Hb; first [discriminate | injection Hb as <-; reflexivity]|].
  all: try reflexivity.
  all: intros (Hrel & Hfail & Hbound & Hlabel); exfalso.
  all: try (rewrite (carriesLabel_checked _ Hlabel) in *; discriminate).
  all: try match goal with
           | H : (if ?b then _ else _) = Some _ |- _ => destruct b eqn:?; [|discriminate]
           end.
  all: eqb_prop; try congruence.
  all: edestruct Hbound as [? ?]; eauto; congruence.
Qed.

Lemma preChecks_preflight :
  observes preflight (preChecks handle client g) (Preflighted g).
Proof.
  unfold preChecks.
  apply observes_skip; [emits_walk reflexivity | constructor | intros pvRequestedQuantity].
  apply observes_skip; [emits_walk reflexivity | constructor | intros _].
  apply observes_skip; [emits_walk reflexivity | constructor | intros namespaceExists].
  apply observes_skip; [emits_walk reflexivity | constructor | intros pvcExists].
  eapply observes_seq; [apply checkPV_preflight | |].
  - intros xs pvExists HQ. inversion HQ as [| | |pv r Hok Hcompat]; subst; simpl.
    + unfold observes. apply post_bind, post_bind.
      eapply post_conseq; [apply loadStorageDriver_preflight|].
      intros t [sb|err] Hload; simpl.
      * apply post_ret, post_ret. rewrite ?app_nil_r.
        exact (pf_absent g _ (Ok sb) namespaceExists pvcExists Hload).
      * rewrite ?app_nil_r.
        exact (pf_absent g _ (Err err) namespaceExists pvcExists Hload).
    + rewrite (Hok pvExists eq_refl). simpl.
      unfold observes. post_walk. simpl. apply pf_exists.
      * intros a Ha. injection Ha as <-. eauto.
      * intros _. eauto.
  - intros xs err HQ. inversion HQ as [| | |pv r Hok Hcompat]; subst; try constructor.
    + intros a Ha. discriminate.
    + intros Hc. specialize (Hcompat Hc). discriminate.
Qed.

Lemma preflight_event e x :
  preflight e = Some x ->
  match x with
  | SawPVProbe r => exists pv, e = Ev (CheckPVExists pv) r
  | SawPV r => exists pv, e = Ev (GetPV pv) r
  | SawStat path r => e = Ev (Stat path) r
  | SawRead path r => e = Ev (ReadFile path) r
  | SawStart config r => e = Ev (NewStorageBackendForConfig config) r
  end.
Proof.
  destruct e as [R c r|]; [destruct c|]; simpl; intros H; try discriminate;
    injection H as <-; eauto.
Qed.

Lemma dry_run_stops_after_preChecks s :
  dryRun g = true ->
  trace_of (installTrident handle client g) s = trace_of (preChecks handle client g) s
  /\ result_of (installTrident handle client g) s =
     match result_of (preChecks handle client g) s with
     | Ok _ => Ok tt
     | Err err => Err err
     end.
Proof.
  intros Hdry. unfold installTrident. rewrite trace_bind, result_bind.
  destruct (result_of (preChecks handle client g) s) as [[[[ns pe] pv] sb]|err].
  - rewrite Hdry. split; [apply app_nil_r | reflexivity].
  - split; [apply app_nil_r | reflexivity].
Qed.

End Preflight.

(** Takes apart a membership hypothesis in an explicit list. *)
Ltac mem_inv H :=
  repeat (apply elem_of_cons in H; destruct H as [H|H];
          [try discriminate H | ]);
  try (apply elem_of_nil in H; contradiction).

Section DryRun.
Context {T : Types} {C : Collaborators} {W : Type}.
Variable handle : Handler W.
Variable client : ClusterFacts.
Variable g : Flags.

(** C7. In dry-run mode the run is the pre-checks and nothing else, and no
    call of it creates or deletes anything.  When the volume probe answers
    that the volume does not exist, the storage driver is loaded all the
    same: the setup directory is examined, a failure to read the backend
    configuration or to start the driver is the error of the run, and the
    run succeeds only after the driver has started from the configuration
    that was read. *)
Theorem dry_run_loads_driver_and_changes_nothing (s : St W) :
  dryRun g = true ->
  let t := trace_of (installTrident handle client g) s in
  let r := result_of (installTrident handle client g) s in
  t = trace_of (preChecks handle client g) s
  /\ Forall (fun e => isMutation e = false) t
  /\ (Ev (CheckPVExists (pvName g)) (Ok false) ∈ t ->
      (exists a, Ev (Stat (setupPath g)) a ∈ t)
      /\ (forall err, Ev (ReadFile (backendConfigFilePath g)) (Err err) ∈ t ->
            r = Err ("could not read the storage backend config file; " +:+ err))
      /\ (forall config err, Ev (NewStorageBackendForConfig config) (Err err) ∈ t ->
            r = Err ("could not start the storage backend driver; " +:+ err))
      /\ (r = Ok tt ->
          exists config backend,
            Ev (ReadFile (backendConfigFilePath g)) (Ok config) ∈ t
            /\ Ev (NewStorageBackendForConfig config) (Ok backend) ∈ t)).
Proof.
  intros Hdry t r. subst t r.
  destruct (dry_run_stops_after_preChecks handle client g s Hdry) as [-> ->].
  pose proof (preChecks_preflight handle client g s) as Hpf. simpl in Hpf.
  pose proof (preChecks_no_mutation handle client g s) as Hm.
  split; [reflexivity|]. split; [exact Hm|]. clear Hm.
  set (t1 := trace_of (preChecks handle client g) s) in *.
  set (r1 := result_of (preChecks handle client g) s) in *.
  assert (F1 : forall e x, e ∈ t1 -> preflight e = Some x -> x ∈ omap preflight t1)
    by (intros e x; apply observed_elem).
  assert (F2 : forall x, x ∈ omap preflight t1 -> exists e, e ∈ t1 /\ preflight e = Some x)
    by (intros x Hx; apply list_elem_of_omap in Hx; exact Hx).
  clearbody t1 r1. remember (omap preflight t1) as xs eqn:E. clear E.
  intros Hprobe. apply F1 with (x := SawPVProbe (Ok false)) in Hprobe; [|reflexivity].
  inversion Hpf as [| | | |ys r' ns pe Hload Hxs Hr]; subst xs.
  1-4: mem_inv Hprobe.
  clear Hprobe Hpf. subst r1.
  inversion Hload as [err|a err Ha|a b err Ha Hb|a b config err Ha Hb|a b config sb Ha Hb];
    subst ys r'.
  all: split;
    [ edestruct F2 as (e & He & Hobs);
      [ apply elem_of_cons; right; apply elem_of_cons; left; reflexivity |];
      apply preflight_event in Hobs; subst e; eauto |].
  all: split;
    [ intros err' Hin; apply F1 with (x := SawRead (backendConfigFilePath g) (Err err')) in Hin;
      [|reflexivity]; mem_inv Hin; try (injection Hin as <-; reflexivity) |].
  all: split;
    [ intros config' err' Hin; apply F1 with (x := SawStart config' (Err err')) in Hin;
      [|reflexivity]; mem_inv Hin; try (injection Hin as <- <-; reflexivity) |].
  all: intros Hr; try discriminate Hr.
  exists config, sb. split.
  - destruct (F2 (SawRead (backendConfigFilePath g) (Ok config))) as (e & He & Hobs).
    { do 3 (apply elem_of_cons; right). apply elem_of_cons; left; reflexivity. }
    apply preflight_event in Hobs. subst e. exact He.
  - destruct (F2 (SawStart config (Ok sb))) as (e & He & Hobs).
    { do 4 (apply elem_of_cons; right). apply elem_of_cons; left; reflexivity. }
    apply preflight_event in Hobs. subst e. exact He.
Qed.

End DryRun.

Lemma dry_run_witness :
  let run := installTrident (Sim.handle Demo.noFaults)
               (Demo.facts (1, 9, 0)%nat FlavorKubernetes) Demo.flags_dry in
  let s := Demo.start (Demo.cluster Demo.nfsVolume) in
  dryRun Demo.flags_dry = true
  /\ Ev (CheckPVExists (pvName Demo.flags_dry)) (Ok false) ∈ trace_of run s
  /\ result_of run s = Ok tt
  /\ Forall (fun e => isMutation e = false) (trace_of run s)
  /\ exists config backend,
       Ev (ReadFile (backendConfigFilePath Demo.flags_dry)) (Ok config) ∈ trace_of run s
       /\ Ev (NewStorageBackendForConfig config) (Ok backend) ∈ trace_of run s.
Proof.
  intros run s.
  assert (H1 : dryRun Demo.flags_dry = true) by reflexivity.
  assert (H2 : Ev (CheckPVExists (pvName Demo.flags_dry)) (Ok false) ∈ trace_of run s)
    by (vm_compute; repeat constructor).
  assert (H3 : result_of run s = Ok tt) by (vm_compute; reflexivity).
  destruct (dry_run_loads_driver_and_changes_nothing (Sim.handle Demo.noFaults)
              (Demo.facts (1, 9, 0)%nat FlavorKubernetes) Demo.flags_dry s H1)
    as (_ & Hm & Hd).
  destruct (Hd H2) as (_ & _ & _ & Hok).
  split; [exact H1|]. split; [exact H2|]. split; [exact H3|]. split; [exact Hm|].
  exact (Hok H3).
Defined.


(** ** An existing volume makes the storage backend unnecessary *)

Section ExistingVolume.
Context {T : Types} {C : Collaborators} {W : Type}.
Variable handle : Handler W.
Variable client : ClusterFacts.
Variable g : Flags.

Lemma preChecks_backend_use :
  emits (fun e => isBackendUse e = false
                  \/ exists x, preflight e = Some x /\ readsConfiguration x = true)
    (preChecks handle client g).
Proof.
  emits_walk (first [left; reflexivity | right; eexists; split; reflexivity]).
Qed.

Lemma installSteps_no_backend_use namespaceExists pvcExists storageBackend :
  emits (fun e => isBackendUse e = false)
    (installSteps handle client g namespaceExists pvcExists true storageBackend).
Proof.
  unfold installSteps, createPVIfNecessary. simpl negb. cbv iota.
  emits_walk reflexivity.
Qed.

(** C9. When the volume probe answers that the volume exists, no call of
    the run reads the backend configuration or uses the storage driver:
    neither the setup directory nor the configuration file is examined or
    read, no driver is started, no volume is allocated.  In dry-run mode,
    if the existing volume is one the installer can work with (whatever its
    capacity), the pre-checks succeed. *)
Theorem existing_volume_needs_no_backend (s : St W) :
  let t := trace_of (installTrident handle client g) s in
  let r := result_of (installTrident handle client g) s in
  Ev (CheckPVExists (pvName g)) (Ok true) ∈ t ->
  Forall (fun e => isBackendUse e = false) t
  /\ (dryRun g = true ->
      forall pv, Ev (GetPV (pvName g)) (Ok pv) ∈ t -> volumeCompatible g pv -> r = Ok tt).
Proof.
  intros t r Hprobe. subst t r.
  assert (Hpre : Ev (CheckPVExists (pvName g)) (Ok true) ∈ trace_of (preChecks handle client g) s).
  { unfold installTrident in Hprobe. rewrite trace_bind in Hprobe.
    apply elem_of_app in Hprobe as [H|H]; [exact H|]. exfalso.
    destruct (result_of (preChecks handle client g) s) as [[[[ns pe] pv] sb]|err].
    - destruct (dryRun g).
      + apply elem_of_nil in H. exact H.
      + assert (Hs : unseen preflight (installSteps handle client g ns pe pv sb))
          by (emits_walk reflexivity).
        specialize (Hs (state_of (preChecks handle client g) s)).
        rewrite Forall_forall in Hs. specialize (Hs _ H). discriminate.
    - apply elem_of_nil in H. exact H. }
  clear Hprobe.
  pose proof (preChecks_preflight handle client g s) as Hpf. simpl in Hpf.
  pose proof (preChecks_backend_use s) as Hb.
  assert (Hquiet : Forall (fun e => isBackendUse e = false) (trace_of (preChecks handle client g) s)
                   /\ (forall a, result_of (preChecks handle client g) s = Ok a ->
                        exists ns pe, a = (ns, pe, true, None))
                   /\ (forall pv, Ev (GetPV (pvName g)) (Ok pv) ∈ trace_of (preChecks handle client g) s ->
                        volumeCompatible g pv ->
                        exists a, result_of (preChecks handle client g) s = Ok a)).
  { set (t1 := trace_of (preChecks handle client g) s) in *.
    set (r1 := result_of (preChecks handle client g) s) in *.
    assert (F1 : forall e x, e ∈ t1 -> preflight e = Some x -> x ∈ omap preflight t1)
      by (intros e x; apply observed_elem).
    clearbody t1 r1. remember (omap preflight t1) as xs eqn:E. clear E.
    apply F1 with (x := SawPVProbe (Ok true)) in Hpre; [|reflexivity].
    assert (Hno : Forall (fun x => readsConfiguration x = false) xs ->
                  Forall (fun e => isBackendUse e = false) t1).
    { intros Hxs. rewrite Forall_forall in Hxs. rewrite Forall_forall in Hb.
      rewrite Forall_forall. intros e He.
      destruct (Hb e He) as [H|(x & Hx & Hread)]; [exact H|].
      rewrite (Hxs x (F1 e x He Hx)) in Hread. discriminate. }
    inversion Hpf as [|e err|e err|pv r' Hok Hcompat|ys r' ns pe Hload]; subst xs.
    - mem_inv Hpre.
    - mem_inv Hpre.
    - subst r1. split; [apply Hno; repeat constructor|]. split; [discriminate|].
      intros pv Hin _. apply F1 with (x := SawPV (Ok pv)) in Hin; [|reflexivity].
      mem_inv Hin.
    - subst r'. split; [apply Hno; repeat constructor|]. split; [exact Hok|].
      intros pv' Hin Hc. apply F1 with (x := SawPV (Ok pv')) in Hin; [|reflexivity].
      mem_inv Hin. injection Hin as <-. exact (Hcompat Hc).
    - apply elem_of_cons in Hpre as [Hpre|Hpre]; [discriminate|].
      inversion Hload; subst ys; mem_inv Hpre. }
  destruct Hquiet as (Hq & Hres & Hgood).
  unfold installTrident. rewrite trace_bind, result_bind.
  destruct (result_of (preChecks handle client g) s) as [a|err] eqn:Er.
  - destruct (Hres a eq_refl) as (ns & pe & ->). split.
    + apply Forall_app. split; [exact Hq|].
      destruct (dryRun g); [constructor|]. apply installSteps_no_backend_use.
    + intros Hdry pv Hin Hc. rewrite Hdry. reflexivity.
  - split; [rewrite app_nil_r; exact Hq|].
    intros Hdry pv Hin Hc. rewrite app_nil_r in Hin.
    destruct (Hgood pv Hin Hc) as (a & Ha). discriminate.
Qed.

End ExistingVolume.

Lemma existing_volume_witness :
  let run := installTrident (Sim.handle Demo.noFaults)
               (Demo.facts (1, 9, 0)%nat FlavorKubernetes) Demo.flags in
  let s := Demo.start (Sim.with_files
                         (Sim.with_objects (Demo.cluster Demo.nfsVolume)
                            None (Some Demo.existingVolume)) []) in
  Ev (CheckPVExists (pvName Demo.flags)) (Ok true) ∈ trace_of run s
  /\ result_of run s = Ok tt
  /\ Forall (fun e => isBackendUse e = false) (trace_of run s).
Proof.
  intros run s.
  assert (H1 : Ev (CheckPVExists (pvName Demo.flags)) (Ok true) ∈ trace_of run s)
    by (vm_compute; repeat constructor).
  assert (H2 : result_of run s = Ok tt) by (vm_compute; reflexivity).
  split; [exact H1|]. split; [exact H2|].
  exact (proj1 (existing_volume_needs_no_backend (Sim.handle Demo.noFaults)
                  (Demo.facts (1, 9, 0)%nat FlavorKubernetes) Demo.flags s H1)).
Defined.

(** ** Override validation *)

Section Overrides.
Context {T : Types} {C : Collaborators} {W : Type}.
Variable handle : Handler W.
Variable g : Flags.

(** C10. The daemon-set override is accepted exactly when the daemon-set
    and its pod template carry the node label ([TridentNodeLabelKey],
    [TridentNodeLabelValue]) and the Trident container is defined; the
    deployment, service and stateful-set overrides are accepted only with
    the topology's app label ([appLabelKey], [appLabelValue]).  When the
    daemon-set or its pod template lacks the node label, the error names
    the app label, not the node label. *)
Theorem daemonset_override_checks_node_label_reports_app_label :
  post (validateTridentDaemonSet handle g)
    (fun t r =>
       exists x, t = [Ev (ReadDaemonSetFromFile (csiDaemonSetPath g)) x]
       /\ match x with
          | Err err => r = Err ("could not load daemonset YAML file; " +:+ err)
          | Ok daemonset =>
              let labels := daemonset_Labels daemonset in
              let podLabels := template_Labels (daemonset_Spec_Template daemonset) in
              (r = Ok tt <->
               index labels TridentNodeLabelKey = TridentNodeLabelValue
               /\ index podLabels TridentNodeLabelKey = TridentNodeLabelValue
               /\ findTridentImage
                    (template_Spec_Containers (daemonset_Spec_Template daemonset))
                  <> EmptyString)
              /\ (index labels TridentNodeLabelKey <> TridentNodeLabelValue ->
                  r = Err ("the Trident daemonset must have the label " +:+ dquote +:+
                           appLabelKey g +:+ ": " +:+ appLabelValue g +:+ dquote))
              /\ (index labels TridentNodeLabelKey = TridentNodeLabelValue ->
                  index podLabels TridentNodeLabelKey <> TridentNodeLabelValue ->
                  r = Err ("the Trident daemonset's pod template must have the label " +:+
                           dquote +:+ appLabelKey g +:+ ": " +:+ appLabelValue g +:+ dquote))
          end)
  /\ post (validateTridentStatefulSet handle g)
       (fun t r =>
          r = Ok tt ->
          exists statefulset,
            t = [Ev (ReadStatefulSetFromFile (csiStatefulSetPath g)) (Ok statefulset)]
            /\ index (statefulset_Labels statefulset) (appLabelKey g) = appLabelValue g
            /\ index (template_Labels (statefulset_Spec_Template statefulset)) (appLabelKey g)
               = appLabelValue g)
  /\ post (validateTridentDeployment handle g)
       (fun t r =>
          r = Ok tt ->
          exists deployment,
            t = [Ev (ReadDeploymentFromFile (deploymentPath g)) (Ok deployment)]
            /\ index (deployment_Labels deployment) (appLabelKey g) = appLabelValue g
            /\ index (template_Labels (deployment_Spec_Template deployment)) (appLabelKey g)
               = appLabelValue g)
  /\ post (validateTridentService handle g)
       (fun t r =>
          r = Ok tt ->
          exists service,
            t = [Ev (ReadServiceFromFile (csiServicePath g)) (Ok service)]
            /\ index (service_Labels service) (appLabelKey g) = appLabelValue g).
Proof.
  repeat split.
  - unfold validateTridentDaemonSet. post_walk; simpl; eexists; (split; [reflexivity|]);
      simpl; try reflexivity; eqb_prop.
    + repeat split; try discriminate; try congruence. intros (H & _). congruence.
    + repeat split; try discriminate; try congruence. intros (_ & H & _). congruence.
    + repeat split; try discriminate; try congruence. intros (_ & _ & H). congruence.
    + repeat split; try congruence.
  - unfold validateTridentStatefulSet. post_walk; simpl; intros H; try discriminate.
    eqb_prop. eauto.
  - unfold validateTridentDeployment. post_walk; simpl; intros H; try discriminate.
    eqb_prop. eauto.
  - unfold validateTridentService. post_walk; simpl; intros H; try discriminate.
    eqb_prop. eauto.
Qed.

End Overrides.

(** A daemon-set override that carries the app label of the distributed
    topology, as the error message asks, and not the node label: it is
    rejected, with the message that asks for the label it already has. *)
Example daemonset_with_app_label_is_rejected :
  result_of (validateTridentDaemonSet (Demo.overriding Demo.appLabelledDaemonSet) Demo.flags_csi)
            (Demo.start (Demo.cluster Demo.nfsVolume))
  = Err ("the Trident daemonset must have the label " +:+ dquote +:+
         "app: controller.csi.trident.netapp.io" +:+ dquote).
Proof. vm_compute. reflexivity. Qed.

(** ** The files of the setup directory *)

Section SetupFiles.
Context {T : Types} {C : Collaborators}.
Variable g : Flags.

Lemma strip_prefix_dir (dir name : string) :
  strip_prefix (dir +:+ "/") (dir +:+ "/" +:+ name) = Some name.
Proof.
  induction dir as [|a dir IH]; simpl.
  - reflexivity.
  - rewrite Ascii.eqb_refl. exact IH.
Qed.

Lemma fileKind_path (name : string) :
  fileKind g (path_Join (setupPath g) name) = nameKind name.
Proof. unfold fileKind, path_Join. rewrite strip_prefix_dir. reflexivity. Qed.

Lemma fileKind_namespace : fileKind g (namespacePath g) = Some KNamespace.
Proof. apply fileKind_path. Qed.
Lemma fileKind_serviceAccount : fileKind g (serviceAccountPath g) = Some KServiceAccount.
Proof. apply fileKind_path. Qed.
Lemma fileKind_clusterRole : fileKind g (clusterRolePath g) = Some KClusterRole.
Proof. apply fileKind_path. Qed.
Lemma fileKind_clusterRoleBinding :
  fileKind g (clusterRoleBindingPath g) = Some KClusterRoleBinding.
Proof. apply fileKind_path. Qed.
Lemma fileKind_pvc : fileKind g (pvcPath g) = Some KPVC.
Proof. apply fileKind_path. Qed.
Lemma fileKind_deployment : fileKind g (deploymentPath g) = Some KDeployment.
Proof. apply fileKind_path. Qed.
Lemma fileKind_service : fileKind g (csiServicePath g) = Some KService.
Proof. apply fileKind_path. Qed.
Lemma fileKind_statefulSet : fileKind g (csiStatefulSetPath g) = Some KStatefulSet.
Proof. apply fileKind_path. Qed.
Lemma fileKind_daemonSet : fileKind g (csiDaemonSetPath g) = Some KDaemonSet.
Proof. apply fileKind_path. Qed.

End SetupFiles.

Create Rewrite HintDb setup_files.
#[export] Hint Rewrite
  @fileKind_namespace @fileKind_serviceAccount @fileKind_clusterRole
  @fileKind_clusterRoleBinding @fileKind_pvc @fileKind_deployment @fileKind_service
  @fileKind_statefulSet @fileKind_daemonSet : setup_files.

(** Decides what an observation makes of the event of a call. *)
Ltac observe_call :=
  unfold isWorkloadCreation, isRBACCreation, workload, submission, creates;
  autorewrite with setup_files;
  try match goal with H : yamlKind _ = _ |- _ => rewrite H end;
  reflexivity.

(** ** Workload objects: order of submission *)

Section Workloads.
Context {T : Types} {C : Collaborators} {W : Type}.
Variable handle : Handler W.
Variable client : ClusterFacts.
Variable g : Flags.








End Workloads.


(** ** The volume bootstrap *)

Section Bootstrap.
Context {T : Types} {C : Collaborators} {W : Type}.
Variable handle : Handler W.
Variable client : ClusterFacts.
Variable g : Flags.

Lemma createPVIfNecessary_below_floor pvExists storageBackend :
  belowCHAPFloor client ->
  aborts allocated (fun r => exists volume, r = Ok volume /\ authenticatedBlock volume)
    (fun _ => belowFloorError g)
    (fun e => isSecretCreation e = false /\ isWorkloadCreation g e = false)
    (createPVIfNecessary handle client g pvExists storageBackend).
Proof.
  intros Hfloor. unfold belowCHAPFloor in Hfloor.
  unfold aborts, createPVIfNecessary, createPV, createCHAPSecret, rangeFirst.
  post_walk; simpl; intros x Hx (volume & -> & Hnfs & Hportal & Hsecret);
    unfold nfsOf, iscsiOf in *; mem_inv Hx; injection Hx as <-;
    eqb_prop; try congruence.
  split; [reflexivity | repeat constructor].
Qed.

(** C6. When the backend returns a block-target volume with a session
    secret and the cluster is older than Kubernetes 1.7.0, the run ends at
    the volume bootstrap with the minimum-version error, and no call of the
    run creates the session-credential secret or a workload object. *)
Theorem authenticated_volume_below_floor_aborts (s : St W) sb volConfig pool volume :
  let t := trace_of (installTrident handle client g) s in
  let r := result_of (installTrident handle client g) s in
  Ev (AddVolume sb volConfig pool) (Ok volume) ∈ t ->
  authenticatedBlock volume ->
  belowCHAPFloor client ->
  r = Err ("could not create PV " +:+ pvName g +:+
           "; iSCSI CHAP requires Kubernetes 1.7.0 or later")
  /\ Forall (fun e => isSecretCreation e = false /\ isWorkloadCreation g e = false) t.
Proof.
  intros t r Hin Hvol Hfloor. subst t r.
  assert (H : aborts allocated (fun r => exists volume, r = Ok volume /\ authenticatedBlock volume)
                (fun _ => belowFloorError g)
                (fun e => isSecretCreation e = false /\ isWorkloadCreation g e = false)
                (installTrident handle client g)).
  { unfold installTrident. apply aborts_skip.
    { emits_walk (split; [split|]; observe_call). }
    intros [[[ns pe] pv] sb']. destruct (dryRun g).
    { apply aborts_unseen. emits_walk (split; [split|]; observe_call). }
    unfold installSteps.
    apply aborts_skip; [emits_walk (split; [split|]; observe_call) | intros _].
    apply aborts_skip; [emits_walk (split; [split|]; observe_call) | intros _].
    apply aborts_skip; [emits_walk (split; [split|]; observe_call) | intros _].
    apply aborts_skip; [emits_walk (split; [split|]; observe_call) | intros _].
    apply aborts_stop; [apply createPVIfNecessary_below_floor, Hfloor | intros _].
    emits_walk observe_call. }
  apply (H s (Ok volume)).
  - eapply observed_elem; [exact Hin | reflexivity].
  - exists volume. split; [reflexivity | exact Hvol].
Qed.





End Bootstrap.

Lemma below_floor_witness :
  let client := Demo.facts (1, 6, 0)%nat FlavorKubernetes in
  let w := Demo.cluster (Demo.iscsiVolume "s3cr3t") in
  let run := installTrident (Sim.handle Demo.noFaults) client Demo.flags in
  let volConfig :=
    {| vc_Version := "1"; vc_Name := "trident"; vc_Size := "2Gi"; vc_Protocol := "block";
       vc_AccessInfo := emptyAccessInfo |} in
  Ev (AddVolume (Sim.backend w) volConfig (Some {| pool_Name := "aggr1" |}))
     (Ok (Demo.iscsiVolume "s3cr3t")) ∈ trace_of run (Demo.start w)
  /\ authenticatedBlock (Demo.iscsiVolume "s3cr3t")
  /\ belowCHAPFloor client
  /\ result_of run (Demo.start w)
     = Err "could not create PV trident; iSCSI CHAP requires Kubernetes 1.7.0 or later"
  /\ Forall (fun e => isSecretCreation e = false /\ isWorkloadCreation Demo.flags e = false)
       (trace_of run (Demo.start w)).
Proof.
  intros client w run volConfig.
  assert (H1 : Ev (AddVolume (Sim.backend w) volConfig (Some {| pool_Name := "aggr1" |}))
                 (Ok (Demo.iscsiVolume "s3cr3t")) ∈ trace_of run (Demo.start w))
    by (vm_compute; repeat constructor).
  assert (H2 : authenticatedBlock (Demo.iscsiVolume "s3cr3t"))
    by (repeat split; discriminate).
  assert (H3 : belowCHAPFloor client) by reflexivity.
  split; [exact H1|]. split; [exact H2|]. split; [exact H3|].
  exact (authenticated_volume_below_floor_aborts (Sim.handle Demo.noFaults) client
           Demo.flags (Demo.start w) _ _ _ _ H1 H2 H3).
Defined.



(** ** RBAC objects: teardown before creation *)

Section RBAC.
Context {T : Types} {C : Collaborators} {W : Type}.
Variable handle : Handler W.
Variable client : ClusterFacts.
Variable g : Flags.

Lemma cleanRBACObjects_teardown :
  observes (rbac g) (cleanRBACObjects handle client g)
    (fun xs r =>
       Forall (fun x => isCreation x = false) xs
       /\ fst <$> removals xs = teardownSteps client g
       /\ r = if escalated (removals xs) then Err couldNotClean else Ok tt).
Proof.
  unfold observes, cleanRBACObjects, removeRBACObjects, teardownSteps.
  destruct (useKubernetesRBAC g); [destruct (flavor_eqb (Flavor client) FlavorOpenShift)|];
    cbv iota; post_walk; simpl; (split; [repeat constructor | split; reflexivity]).
Qed.

Lemma createRBACObjects_creates :
  observes (rbac g) (createRBACObjects handle client g)
    (fun xs r => xs <> [] /\ Forall (fun x => isCreation x = true) xs).
Proof.
  unfold observes, createRBACObjects, useYAMLFile.
  post_walk; unfold rbac, isRBACCreation, creates; simpl;
    autorewrite with setup_files; simpl;
    (split; [discriminate | repeat constructor]).
Qed.

(** C1 (amended). What a run does to RBAC objects is a sequence of
    teardown steps followed by creations.  Unless the run stops before, the
    teardown attempts every step of the RBAC mode, in order (cluster role
    binding, cluster role, service account and, on OpenShift, the SCC entry
    in native mode; role detachment, role deletion and service account in
    external-authorization mode), whether or not earlier steps failed.  If
    a step other than the two of the external authorization service has
    failed, the run ends with the could-not-clean error and creates no RBAC
    object; otherwise it goes on to create them. *)
Theorem rbac_teardown_before_create (s : St W) :
  let xs := omap (rbac g) (trace_of (installTrident handle client g) s) in
  let r := result_of (installTrident handle client g) s in
  exists removed created,
    xs = removed ++ created
    /\ Forall (fun x => isCreation x = false) removed
    /\ Forall (fun x => isCreation x = true) created
    /\ ((removed = [] /\ created = [])
        \/ (fst <$> removals removed = teardownSteps client g
            /\ if escalated (removals removed)
               then r = Err couldNotClean /\ created = []
               else created <> [])).
Proof.
  simpl. revert s.
  change (observes (rbac g) (installTrident handle client g)
    (fun xs r =>
       exists removed created,
         xs = removed ++ created
         /\ Forall (fun x => isCreation x = false) removed
         /\ Forall (fun x => isCreation x = true) created
         /\ ((removed = [] /\ created = [])
             \/ (fst <$> removals removed = teardownSteps client g
                 /\ if escalated (removals removed)
                    then r = Err couldNotClean /\ created = []
                    else created <> [])))).
  assert (Hnone : forall A (r : result A),
            exists removed created : list RBACEvent,
              [] = removed ++ created
              /\ Forall (fun x => isCreation x = false) removed
              /\ Forall (fun x => isCreation x = true) created
              /\ ((removed = [] /\ created = [])
                  \/ (fst <$> removals removed = teardownSteps client g
                      /\ if escalated (removals removed)
                         then r = Err couldNotClean /\ created = []
                         else created <> []))).
  { intros A r. exists [], []. split; [reflexivity|]. split; [constructor|].
    split; [constructor|]. left. split; reflexivity. }
  unfold installTrident.
  apply observes_skip; [emits_walk (unfold rbac; simpl; observe_call) | intros; apply Hnone |].
  intros [[[ns pe] pv] sb]. destruct (dryRun g).
  { apply observes_unseen; [emits_walk (unfold rbac; simpl; observe_call) | intros; apply Hnone]. }
  unfold installSteps.
  apply observes_skip; [emits_walk (unfold rbac; simpl; observe_call) | intros; apply Hnone |].
  intros _. eapply observes_seq; [apply cleanRBACObjects_teardown | |].
  - intros xs [] (Hrem & Hsteps & Hr).
    destruct (escalated (removals xs)) eqn:Hesc; [discriminate|].
    eapply observes_seq; [apply createRBACObjects_creates | |].
    + intros ys [] (Hne & Hcre). apply observes_unseen.
      { emits_walk (unfold rbac; simpl; observe_call). }
      intros r. rewrite app_nil_r. exists xs, ys.
      split; [reflexivity|]. split; [exact Hrem|]. split; [exact Hcre|].
      right. split; [exact Hsteps|]. rewrite Hesc. exact Hne.
    + intros ys err (Hne & Hcre). exists xs, ys.
      split; [reflexivity|]. split; [exact Hrem|]. split; [exact Hcre|].
      right. split; [exact Hsteps|]. rewrite Hesc. exact Hne.
  - intros xs err (Hrem & Hsteps & Hr).
    destruct (escalated (removals xs)) eqn:Hesc; [|discriminate].
    exists xs, []. rewrite app_nil_r.
    split; [reflexivity|]. split; [exact Hrem|]. split; [constructor|].
    right. split; [exact Hsteps|]. rewrite Hesc. split; [exact Hr | reflexivity].
Qed.

End RBAC.

(** C1 as stated fails in external-authorization mode: the role detachment
    fails, and the installation goes on to create the RBAC objects and
    succeeds. *)
Lemma rbac_teardown_failure_not_fatal_under_ucp :
  let run := installTrident (Sim.handle Demo.detachFails)
               (Demo.facts (1, 9, 0)%nat FlavorKubernetes) Demo.flags_ucp in
  let s := Demo.start (Demo.cluster Demo.nfsVolume) in
  useKubernetesRBAC Demo.flags_ucp = false
  /\ omap removal (trace_of run s)
     = [(StepUCPAttachment, true); (StepUCPRole, false); (StepServiceAccount, false)]
  /\ result_of run s = Ok tt
  /\ result_of run s <> Err couldNotClean.
Proof.
  vm_compute. split; [reflexivity|]. split; [reflexivity|]. split; [reflexivity|discriminate].
Qed.


(** ** Readiness waits: what a timeout reports *)

Section Waits.
Context {T : Types} {C : Collaborators} {W : Type}.
Variable handle : Handler W.
Variable client : ClusterFacts.
Variable g : Flags.

(** [RetryNotify] itself returns; the error of a wait is made by its caller. *)
Lemma RetryNotify_returns {S A} (operation : S -> M W (Attempt S A)) b captured :
  (forall x, post (operation x) (fun _ r => exists a, r = Ok a)) ->
  post (RetryNotify handle operation b notifyDebug captured) (fun _ r => exists a, r = Ok a).
Proof.
  intros Hop. revert captured. induction b as [|next b IH]; intros captured; simpl.
  - apply post_bind. eapply post_conseq; [apply Hop|].
    intros t r [[a|x err] ->]; apply post_ret; eauto.
  - apply post_bind. eapply post_conseq; [apply Hop|].
    intros t r [[a|x err] ->]; [apply post_ret; eauto|].
    unfold notifyDebug. apply post_bind, post_ret, post_bind, post_call. intros _.
    eapply post_conseq; [apply IH|]. intros t' r' H. exact H.
Qed.

Lemma waitForPVCBound_timeout :
  post (waitForPVCBound handle g)
    (fun _ r => r = Ok tt
                \/ r = Err ("PVC " +:+ pvcName g +:+ " was not bound after " +:+
                            fmt_d (k8sTimeout g) +:+ " seconds")).
Proof.
  unfold waitForPVCBound.
  assert (Hop : forall x, post (checkPVCBound handle g x) (fun _ r => exists a, r = Ok a)).
  { intros x. unfold checkPVCBound. post_walk; eauto. }
  apply post_bind. eapply post_conseq; [apply Hop|].
  intros t r [[a|x err] ->]; [apply post_ret; left; reflexivity|].
  apply post_bind, post_call. intros pvcBackoff. apply post_bind.
  eapply post_conseq; [apply RetryNotify_returns, Hop|].
  intros t' r' [[a|x' err'] ->]; [apply post_ret; left; reflexivity|].
  apply post_fail. right. reflexivity.
Qed.

(** The two sibling waits print the timeout as [k8sTimeout.Seconds()], in
    an Error line, and return the last error of the predicate. *)
Lemma waitForRESTInterface_timeout :
  post (waitForRESTInterface handle g)
    (fun t r =>
       r = Ok tt
       \/ Logged ErrorLevel []
            [Txt "Trident REST interface was not available after ";
             SecondsF (k8sTimeout g); Txt " seconds."] ∈ t).
Proof.
  unfold waitForRESTInterface.
  assert (Hop : forall x, post (checkRESTInterface handle x) (fun _ r => exists a, r = Ok a)).
  { intros x. unfold checkRESTInterface. post_walk; eauto. }
  apply post_bind, post_call. intros restBackoff. apply post_bind.
  eapply post_conseq; [apply RetryNotify_returns, Hop|].
  intros t' r' [[a|x' err'] ->]; [apply post_ret; left; reflexivity|].
  apply post_bind, post_log, post_fail. right.
  rewrite !elem_of_app. right. right. left. apply elem_of_cons. left. reflexivity.
Qed.

Lemma waitForTridentPod_timeout :
  post (waitForTridentPod handle client g)
    (fun t r =>
       (exists pod, r = Ok pod)
       \/ exists rest,
            Logged ErrorLevel []
              (Txt "Trident pod was not running after " :: SecondsF (k8sTimeout g)
               :: Txt " seconds." :: rest) ∈ t).
Proof.
  unfold waitForTridentPod.
  assert (Hop : forall x, post (checkPodRunning handle g x) (fun _ r => exists a, r = Ok a)).
  { intros x. unfold checkPodRunning. post_walk; eauto. }
  apply post_bind, post_call. intros podBackoff. apply post_bind.
  eapply post_conseq; [apply RetryNotify_returns, Hop|].
  intros t' r' [[a|x' err'] ->]; [apply post_ret; left; eauto|].
  apply post_bind, post_log, post_fail. right.
  destruct x' as [pod|]; [destruct (negb (pod_Status_Phase pod =? EmptyString));
                          [destruct (negb (pod_Status_Message pod =? EmptyString))|]|];
    eexists; rewrite !elem_of_app; right; right; left;
    apply elem_of_cons; left; reflexivity.
Qed.

End Waits.

(** C2 fails at the claim wait.  With the default timeout of 180 seconds
    and a claim that is never bound, the error of the run reports the
    [time.Duration] itself under the verb [%d], a count of nanoseconds,
    as a number of seconds; in general the number printed is the timeout
    in nanoseconds.  (The pod and REST waits print [k8sTimeout.Seconds()].) *)
Theorem claim_wait_timeout_reports_nanoseconds :
  k8sTimeout Demo.flags = 180 * Second
  /\ result_of (installTrident (Sim.handle Demo.noFaults)
                 (Demo.facts (1, 9, 0)%nat FlavorKubernetes) Demo.flags)
       (Demo.start (Sim.with_polls (Demo.cluster Demo.nfsVolume) None))
     = Err "PVC trident was not bound after 180000000000 seconds"
  /\ forall (T : Types) (C : Collaborators) (W : Type) (handle : Handler W) (g : Flags),
       post (waitForPVCBound handle g)
         (fun _ r => r = Ok tt
                     \/ r = Err ("PVC " +:+ pvcName g +:+ " was not bound after " +:+
                                 fmt_d (k8sTimeout g) +:+ " seconds")).
Proof.
  split; [reflexivity|]. split; [vm_compute; reflexivity|].
  intros T C W handle g. apply waitForPVCBound_timeout.
Qed.

(** ** Names: the regular expressions against the grammar *)

Section Regex.

Lemma lang_seq_inv r1 r2 l :
  lang (RSeq r1 r2) l -> exists l1 l2, l = l1 ++ l2 /\ lang r1 l1 /\ lang r2 l2.
Proof. inversion 1; subst; eauto. Qed.

Lemma lang_alt_inv r1 r2 l : lang (RAlt r1 r2) l -> lang r1 l \/ lang r2 l.
Proof. inversion 1; subst; auto. Qed.

Lemma lang_class_inv ranges l :
  lang (RClass ranges) l -> exists c, l = [c] /\ in_class ranges c = true.
Proof. inversion 1; subst; eauto. Qed.

Lemma lang_eps_inv l : lang REps l -> l = [].
Proof. inversion 1; reflexivity. Qed.

Lemma lang_empty_inv l : ~ lang REmpty l.
Proof. inversion 1. Qed.

Lemma nullable_lang r : nullable r = true <-> lang r [].
Proof.
  induction r as [| |ranges|r1 IH1 r2 IH2|r1 IH1 r2 IH2|r IH]; simpl.
  - split; [discriminate | intros H; destruct (lang_empty_inv _ H)].
  - split; [constructor | reflexivity].
  - split; [discriminate|]. intros H. apply lang_class_inv in H as (c & H & _). discriminate.
  - rewrite andb_true_iff, IH1, IH2. split.
    + intros [H1 H2]. exact (lang_seq _ _ [] [] H1 H2).
    + intros H. apply lang_seq_inv in H as (l1 & l2 & Heq & H1 & H2).
      symmetry in Heq. apply app_eq_nil in Heq as [-> ->]. split; assumption.
  - rewrite orb_true_iff, IH1, IH2. split.
    + intros [H|H]; [apply lang_alt_l | apply lang_alt_r]; exact H.
    + apply lang_alt_inv.
  - split; [constructor | reflexivity].
Qed.

Lemma lang_star_head r c l :
  lang (RStar r) (c :: l) ->
  exists l1 l2, l = l1 ++ l2 /\ lang r (c :: l1) /\ lang (RStar r) l2.
Proof.
  intros H. remember (RStar r) as r' eqn:Er. remember (c :: l) as l' eqn:El.
  revert c l El. induction H as [| | | | | |r0 l1 l2 H1 _ H2 IH2]; try discriminate.
  injection Er as ->. intros c l El.
  destruct l1 as [|c1 l1]; simpl in El.
  - apply IH2; [reflexivity | exact El].
  - injection El as -> <-. exists l1, l2. repeat split; assumption.
Qed.

Lemma deriv_lang c r l : lang (deriv c r) l <-> lang r (c :: l).
Proof.
  revert l. induction r as [| |ranges|r1 IH1 r2 IH2|r1 IH1 r2 IH2|r IH]; intros l; simpl.
  - split; intros H; destruct (lang_empty_inv _ H).
  - split; intros H; [destruct (lang_empty_inv _ H)|].
    apply lang_eps_inv in H. discriminate.
  - destruct (in_class ranges c) eqn:E; split; intros H.
    + apply lang_eps_inv in H as ->. constructor. exact E.
    + apply lang_class_inv in H as (c' & Heq & _). injection Heq as -> ->. constructor.
    + destruct (lang_empty_inv _ H).
    + apply lang_class_inv in H as (c' & Heq & Hc). injection Heq as -> ->. congruence.
  - assert (Hseq : lang (RSeq (deriv c r1) r2) l <->
                   exists l1 l2, l = l1 ++ l2 /\ lang r1 (c :: l1) /\ lang r2 l2).
    { split.
      - intros H. apply lang_seq_inv in H as (l1 & l2 & -> & H1 & H2).
        exists l1, l2. rewrite <- IH1. repeat split; assumption.
      - intros (l1 & l2 & -> & H1 & H2). constructor; [apply IH1|]; assumption. }
    assert (Hgoal : lang (RSeq r1 r2) (c :: l) <->
                    (exists l1 l2, l = l1 ++ l2 /\ lang r1 (c :: l1) /\ lang r2 l2)
                    \/ (lang r1 [] /\ lang r2 (c :: l))).
    { split.
      - intros H. apply lang_seq_inv in H as (l1 & l2 & Heq & H1 & H2).
        destruct l1 as [|c1 l1]; simpl in Heq.
        + right. subst l2. split; assumption.
        + injection Heq as -> ->. left. exists l1, l2. repeat split; assumption.
      - intros [(l1 & l2 & -> & H1 & H2)|[H1 H2]].
        + exact (lang_seq _ _ (c :: l1) l2 H1 H2).
        + exact (lang_seq _ _ [] (c :: l) H1 H2). }
    rewrite Hgoal. destruct (nullable r1) eqn:En.
    + split.
      * intros H. apply lang_alt_inv in H as [H|H]; [left; apply Hseq; assumption|].
        right. split; [apply nullable_lang, En | apply IH2; assumption].
      * intros [H|[H1 H2]]; [apply lang_alt_l, Hseq, H | apply lang_alt_r, IH2, H2].
    + rewrite Hseq. split; [intros H; left; exact H|].
      intros [H|[H1 _]]; [exact H|]. apply nullable_lang in H1. congruence.
  - split; intros H.
    + apply lang_alt_inv in H as [H|H]; [apply lang_alt_l, IH1 | apply lang_alt_r, IH2];
        assumption.
    + apply lang_alt_inv in H as [H|H]; [apply lang_alt_l, IH1 | apply lang_alt_r, IH2];
        assumption.
  - split; intros H.
    + apply lang_seq_inv in H as (l1 & l2 & -> & H1 & H2).
      apply IH in H1. exact (lang_star_cons _ (c :: l1) l2 H1 H2).
    + apply lang_star_head in H as (l1 & l2 & -> & H1 & H2).
      constructor; [apply IH|]; assumption.
Qed.

Lemma MatchString_lang r s : MatchString r s = true <-> lang r (list_ascii_of_string s).
Proof.
  revert r. induction s as [|c s IH]; intros r; simpl.
  - apply nullable_lang.
  - rewrite IH. apply deriv_lang.
Qed.

Lemma in_class_alnum c : in_class alnum c = isLowerAlnum c.
Proof. destruct c as [[] [] [] [] [] [] [] []]; reflexivity. Qed.

Lemma in_class_dash_alnum c : in_class dash_alnum c = isLabelChar c.
Proof. destruct c as [[] [] [] [] [] [] [] []]; reflexivity. Qed.

Lemma in_class_dot c : in_class [("."%char, "."%char)] c = Ascii.eqb c ".".
Proof. destruct c as [[] [] [] [] [] [] [] []]; reflexivity. Qed.

Lemma isLowerAlnum_label c : isLowerAlnum c = true -> isLabelChar c = true.
Proof. unfold isLabelChar. intros ->. reflexivity. Qed.

Lemma isLabelChar_not_dot c : isLabelChar c = true -> Ascii.eqb c "." = false.
Proof. destruct c as [[] [] [] [] [] [] [] []]; simpl; intros H; first [reflexivity | discriminate H]. Qed.

Lemma lang_star_label l :
  lang (RStar (RClass dash_alnum)) l <-> forallb isLabelChar l = true.
Proof.
  split.
  - intros H. remember (RStar (RClass dash_alnum)) as r eqn:Er.
    induction H as [| | | | | |r0 l1 l2 H1 _ H2 IH2]; try discriminate; [reflexivity|].
    injection Er as ->. apply lang_class_inv in H1 as (c & -> & Hc).
    rewrite in_class_dash_alnum in Hc. simpl. rewrite Hc. apply IH2. reflexivity.
  - induction l as [|c l IH]; simpl; [constructor|].
    intros H. apply andb_true_iff in H as [Hc Hl].
    rewrite <- in_class_dash_alnum in Hc.
    exact (lang_star_cons _ [c] l (lang_class _ _ Hc) (IH Hl)).
Qed.

Lemma label_body_lang l : lang label_body l <-> label_ok l = true.
Proof.
  unfold label_body, ROpt, label_ok. split.
  - intros H. apply lang_seq_inv in H as (l1 & l2 & -> & H1 & H2).
    apply lang_class_inv in H1 as (c & -> & Hc). rewrite in_class_alnum in Hc.
    apply lang_alt_inv in H2 as [H2|H2].
    + apply lang_seq_inv in H2 as (m & l3 & -> & Hm & H3).
      apply lang_class_inv in H3 as (d & -> & Hd). rewrite in_class_alnum in Hd.
      apply lang_star_label in Hm.
      change ([c] ++ m ++ [d]) with ((c :: m) ++ [d]).
      rewrite List.last_last, forallb_app. simpl.
      rewrite (isLowerAlnum_label _ Hc), (isLowerAlnum_label _ Hd), Hc, Hd.
      rewrite Hm. reflexivity.
    + apply lang_eps_inv in H2 as ->. simpl.
      rewrite (isLowerAlnum_label _ Hc), Hc. reflexivity.
  - intros H. apply andb_true_iff in H as [H Hlast]. apply andb_true_iff in H as [Hall Hhd].
    destruct l as [|c rest]; [discriminate|]. simpl in Hhd.
    apply (lang_seq _ _ [c] rest).
    { constructor. rewrite in_class_alnum. exact Hhd. }
    destruct (exists_last (l := c :: rest)) as (m & d & Heq); [discriminate|].
    destruct rest as [|c' rest']; [apply lang_alt_r; constructor|].
    apply lang_alt_l.
    destruct m as [|c0 m]; [discriminate|]. simpl in Heq. injection Heq as <- Hrest.
    rewrite Hrest. rewrite Hrest in Hall, Hlast.
    change (c :: m ++ [d]) with ((c :: m) ++ [d]) in Hlast.
    rewrite List.last_last in Hlast.
    simpl in Hall. apply andb_true_iff in Hall as [_ Hall].
    rewrite forallb_app in Hall. apply andb_true_iff in Hall as [Hm _].
    constructor.
    + apply lang_star_label. exact Hm.
    + constructor. rewrite in_class_alnum. exact Hlast.
Qed.

Lemma label_ok_nodot l : label_ok l = true -> nodot l = true.
Proof.
  unfold label_ok. intros H. apply andb_true_iff in H as [H _].
  apply andb_true_iff in H as [H _]. induction l as [|c l IH]; [reflexivity|].
  simpl in *. apply andb_true_iff in H as [Hc Hl].
  rewrite (isLabelChar_not_dot _ Hc). simpl. apply IH, Hl.
Qed.

Lemma split_dots_nodot l : nodot l = true -> split_dots l = [l].
Proof.
  induction l as [|c l IH]; simpl; [reflexivity|].
  intros H. apply andb_true_iff in H as [Hc Hl]. apply negb_true_iff in Hc.
  rewrite Hc, (IH Hl). reflexivity.
Qed.

Lemma split_dots_app l rest :
  nodot l = true -> split_dots (l ++ "."%char :: rest) = l :: split_dots rest.
Proof.
  induction l as [|c l IH]; simpl; [reflexivity|].
  intros H. apply andb_true_iff in H as [Hc Hl]. apply negb_true_iff in Hc.
  rewrite Hc, (IH Hl). reflexivity.
Qed.

Lemma split_dots_join l :
  exists piece pieces,
    split_dots l = piece :: pieces
    /\ l = piece ++ concat (map (fun q => "."%char :: q) pieces).
Proof.
  induction l as [|c l (piece & pieces & Hs & Hl)]; simpl.
  - exists [], []. split; reflexivity.
  - destruct (Ascii.eqb c ".") eqn:Ec.
    + apply Ascii.eqb_eq in Ec as ->. exists [], (piece :: pieces). rewrite Hs.
      split; [reflexivity|]. simpl. rewrite <- Hl. reflexivity.
    + rewrite Hs. exists (c :: piece), pieces. split; [reflexivity|].
      simpl. rewrite <- Hl. reflexivity.
Qed.

Lemma domain_lang l :
  lang dns1123DomainRegex l <-> forallb label_ok (split_dots l) = true.
Proof.
  unfold dns1123DomainRegex, RChar. split.
  - intros H. apply lang_seq_inv in H as (l0 & tail & -> & H0 & Htail).
    apply label_body_lang in H0. revert l0 H0.
    remember (RStar (RSeq (RClass [("."%char, "."%char)]) label_body)) as r eqn:Er.
    induction Htail as [| | | | | |r0 l1 l2 H1 _ H2 IH2]; try discriminate; intros l0 H0.
    + rewrite app_nil_r, (split_dots_nodot _ (label_ok_nodot _ H0)). simpl.
      rewrite H0. reflexivity.
    + injection Er as ->. apply lang_seq_inv in H1 as (d & q & -> & Hd & Hq).
      apply lang_class_inv in Hd as (c & -> & Hc). rewrite in_class_dot in Hc.
      apply Ascii.eqb_eq in Hc as ->. apply label_body_lang in Hq.
      change (l0 ++ (["."%char] ++ q) ++ l2) with (l0 ++ "."%char :: (q ++ l2)).
      rewrite (split_dots_app _ _ (label_ok_nodot _ H0)). simpl.
      rewrite H0. apply IH2; [reflexivity | exact Hq].
  - destruct (split_dots_join l) as (piece & pieces & Hs & ->). rewrite Hs. simpl.
    intros H. apply andb_true_iff in H as [Hp Hps]. constructor.
    + apply label_body_lang, Hp.
    + clear Hs Hp. induction pieces as [|q pieces IH]; simpl; [constructor|].
      simpl in Hps. apply andb_true_iff in Hps as [Hq Hps].
      apply (lang_star_cons _ ("."%char :: q)); [|apply IH, Hps].
      apply (lang_seq _ _ ["."%char] q); [|apply label_body_lang, Hq].
      constructor. reflexivity.
Qed.

Lemma MatchString_label s : MatchString dns1123LabelRegex s = isDNS1123Label s.
Proof.
  apply eq_true_iff_eq. rewrite MatchString_lang. apply label_body_lang.
Qed.

Lemma MatchString_domain s : MatchString dns1123DomainRegex s = isDNS1123Subdomain s.
Proof.
  apply eq_true_iff_eq. rewrite MatchString_lang. apply domain_lang.
Qed.

End Regex.

(** ** Argument validation *)

Section Validation.
Context {T : Types} {C : Collaborators}.
Variable g : Flags.

(** C3 (amended). The names are accepted if and only if the namespace is a
    DNS-1123 label and the claim and volume names are DNS-1123 subdomains;
    the size is accepted if and only if it parses as a quantity, whatever
    its sign.  Validating the names is a pure computation, and a run whose
    size does not parse ends with the invalid-size error before making any
    call and leaves the state as it was. *)
Theorem arguments_accepted_iff_names_valid_and_size_parses :
  (validateInstallationArguments g = None <->
   isDNS1123Label (TridentPodNamespace g) = true
   /\ isDNS1123Subdomain (pvcName g) = true
   /\ isDNS1123Subdomain (pvName g) = true)
  /\ (forall (W : Type) (handle : Handler W) (client : ClusterFacts) (s : St W),
        match ParseQuantity (volumeSize g) with
        | Ok quantity => parseVolumeSize g s = (s, [], Ok quantity)
        | Err err =>
            installTrident handle client g s
            = (s, [], Err ("volume-size '" +:+ volumeSize g +:+ "' is invalid; " +:+ err))
        end).
Proof.
  split.
  - unfold validateInstallationArguments.
    rewrite MatchString_label, !MatchString_domain.
    destruct (isDNS1123Label (TridentPodNamespace g)); simpl;
      [|split; [discriminate | intros (H & _); discriminate]].
    destruct (isDNS1123Subdomain (pvcName g)); simpl;
      [|split; [discriminate | intros (_ & H & _); discriminate]].
    destruct (isDNS1123Subdomain (pvName g)); simpl;
      [|split; [discriminate | intros (_ & _ & H); discriminate]].
    split; [intros _; repeat split | reflexivity].
  - intros W handle client s.
    unfold installTrident, preChecks, parseVolumeSize.
    destruct (ParseQuantity (volumeSize g)) as [quantity|err]; reflexivity.
Qed.

End Validation.

(** C3 as stated fails on the size: ["0"] parses, to a quantity that is not
    positive, and the arguments are accepted; the installation runs to its
    end. *)
Lemma zero_size_is_accepted :
  let g := Demo.set_size Demo.flags "0" in
  validateInstallationArguments g = None
  /\ ParseQuantity (volumeSize g) = Ok 0%Z
  /\ ~ (0 < Quantity_Sign 0%Z)%Z
  /\ result_of (installTrident (Sim.handle Demo.noFaults)
                  (Demo.facts (1, 9, 0)%nat FlavorKubernetes) g)
        (Demo.start (Demo.cluster Demo.nfsVolume)) = Ok tt.
Proof.
  split; [vm_compute; reflexivity|]. split; [vm_compute; reflexivity|].
  split; [vm_compute; discriminate|]. vm_compute. reflexivity.
Qed.


(** ** Argument processing *)

Section Processing.
Context {T : Types} {C : Collaborators}.

(** X1. Processing the arguments a second time changes nothing: the names
    and the label chosen by the first pass are kept by the second. *)
Theorem processInstallationArguments_idempotent (g : Flags) :
  processInstallationArguments (processInstallationArguments g)
  = processInstallationArguments g.
Proof.
  unfold processInstallationArguments, with_names.
  destruct (csi g) eqn:Hcsi; simpl; rewrite ?Hcsi;
    destruct (pvcName g =? EmptyString) eqn:H1;
    destruct (pvName g =? EmptyString) eqn:H2;
    destruct (volumeName g =? EmptyString) eqn:H3; simpl;
    rewrite ?H1, ?H2, ?H3;
    repeat match goal with
           | |- context [if ?b then _ else _] => destruct b
           end; reflexivity.
Qed.

Lemma list_ascii_of_string_app (s1 s2 : string) :
  list_ascii_of_string (s1 +:+ s2) = list_ascii_of_string s1 ++ list_ascii_of_string s2.
Proof. induction s1 as [|c s1 IH]; simpl; [reflexivity | rewrite IH; reflexivity]. Qed.

Lemma label_is_subdomain (s : string) :
  isDNS1123Label s = true -> isDNS1123Subdomain s = true.
Proof.
  unfold isDNS1123Label, isDNS1123Subdomain. intros H.
  rewrite (split_dots_nodot _ (label_ok_nodot _ H)). simpl. rewrite H. reflexivity.
Qed.

Lemma label_csi_is_label (s : string) :
  isDNS1123Label s = true -> isDNS1123Label (s +:+ "-csi") = true.
Proof.
  unfold isDNS1123Label. rewrite list_ascii_of_string_app.
  generalize (list_ascii_of_string s). intros l. unfold label_ok.
  rewrite !andb_true_iff. intros [[Hall Hhd] _].
  split; [split|].
  - rewrite forallb_app, Hall. reflexivity.
  - destruct l; [discriminate | exact Hhd].
  - change (list_ascii_of_string "-csi") with (["-"; "c"; "s"]%char ++ ["i"%char]).
    rewrite app_assoc, List.last_last. reflexivity.
Qed.

(** X2. When the name of the orchestrator is a DNS-1123 label, the names
    the processing gives to the claim and to the volume that the user left
    unnamed pass validation, in both topologies: the arguments are then
    accepted exactly when the namespace is a DNS-1123 label. *)
Theorem default_names_pass_validation (g : Flags) :
  isDNS1123Label OrchestratorName = true ->
  pvcName g = EmptyString ->
  pvName g = EmptyString ->
  (validateInstallationArguments (processInstallationArguments g) = None
   <-> isDNS1123Label (TridentPodNamespace g) = true).
Proof.
  intros HD Hpvc Hpv.
  assert (Hnames : isDNS1123Subdomain (pvcName (processInstallationArguments g)) = true
                   /\ isDNS1123Subdomain (pvName (processInstallationArguments g)) = true).
  { unfold processInstallationArguments, with_names.
    rewrite Hpvc, Hpv. simpl.
    destruct (csi g); simpl; split;
      unfold DefaultPVCName, DefaultPVName;
      auto using label_is_subdomain, label_csi_is_label. }
  destruct Hnames as [H1 H2].
  assert (Hns : TridentPodNamespace (processInstallationArguments g) = TridentPodNamespace g).
  { unfold processInstallationArguments. destruct (csi g); reflexivity. }
  unfold validateInstallationArguments.
  rewrite MatchString_label, !MatchString_domain, H1, H2, Hns. simpl.
  destruct (isDNS1123Label (TridentPodNamespace g)); simpl; split; congruence.
Qed.

End Processing.

Lemma default_names_witness :
  isDNS1123Label (OrchestratorName (Collaborators := Sim.collaborators)) = true
  /\ pvcName Demo.defaults = EmptyString
  /\ pvName Demo.defaults = EmptyString
  /\ validateInstallationArguments (processInstallationArguments Demo.defaults) = None.
Proof.
  assert (H1 : isDNS1123Label (OrchestratorName (Collaborators := Sim.collaborators)) = true)
    by reflexivity.
  assert (H2 : pvcName Demo.defaults = EmptyString) by reflexivity.
  assert (H3 : pvName Demo.defaults = EmptyString) by reflexivity.
  split; [exact H1|]. split; [exact H2|]. split; [exact H3|].
  exact (proj2 (default_names_pass_validation Demo.defaults H1 H2 H3) eq_refl).
Defined.

(** ** Override validation: claim, deployment and stateful-set *)

Section OverrideValidation.
Context {T : Types} {C : Collaborators} {W : Type}.
Variable handle : Handler W.
Variable g : Flags.

Lemma findTridentImage_from (containers : list Container) (image : string) :
  fold_left (fun tridentImage container =>
               if container_Name container =? ContainerTrident
               then container_Image container else tridentImage)
            containers image
  = match tridentContainer containers with
    | Some container => container_Image container
    | None => image
    end.
Proof.
  unfold tridentContainer. revert image.
  induction containers as [|c cs IH]; intros image; simpl; [reflexivity|].
  rewrite IH. destruct (container_Name c =? ContainerTrident); [|reflexivity].
  simpl. destruct (List.filter _ cs) as [|c' cs'] eqn:E; [reflexivity|].
  change (last (c :: c' :: cs')) with (last (c' :: cs')).
  destruct (last (c' :: cs')) eqn:El; [reflexivity|].
  apply last_None in El. discriminate.
Qed.

Lemma findTridentImage_defines (template : PodTemplateSpec) :
  findTridentImage (template_Spec_Containers template) <> EmptyString
  <-> definesTrident template.
Proof.
  unfold findTridentImage, definesTrident. rewrite findTridentImage_from.
  destruct (tridentContainer _) as [c|]; split.
  - intros H. exists c. split; [reflexivity | exact H].
  - intros (c' & [= <-] & H). exact H.
  - intros H. congruence.
  - intros (c' & H & _). discriminate.
Qed.

(** X3. The claim override is read once, from [pvcPath], and is accepted
    exactly when it carries the app label, is named as the claim of the
    installation and lies in its namespace; the first of these that fails,
    in this order, is the one reported. *)
Theorem claim_override_accepted_iff :
  post (validateTridentPVC handle g)
    (fun t r =>
       exists x, t = [Ev (ReadPVCFromFile (pvcPath g)) x]
       /\ match x with
          | Err err => r = Err ("could not load PVC YAML file; " +:+ err)
          | Ok pvc =>
              let labelled := index (pvc_Labels pvc) (appLabelKey g) = appLabelValue g in
              (r = Ok tt <->
               labelled /\ pvc_Name pvc = pvcName g /\ pvc_Namespace pvc = TridentPodNamespace g)
              /\ (~ labelled -> r = Err (mustHaveLabel g "PVC"))
              /\ (labelled -> pvc_Name pvc <> pvcName g ->
                  r = Err ("the Trident PVC must be named " +:+ pvcName g))
              /\ (labelled -> pvc_Name pvc = pvcName g ->
                  pvc_Namespace pvc <> TridentPodNamespace g ->
                  r = Err ("the Trident PVC must specify namespace " +:+ TridentPodNamespace g))
          end).
Proof.
  unfold validateTridentPVC. post_walk; simpl; eexists; (split; [reflexivity|]);
    simpl; try reflexivity; eqb_prop; unfold mustHaveLabel.
  - repeat split; try discriminate; try congruence. intros (H & _). congruence.
  - repeat split; try discriminate; try congruence. intros (_ & H & _). congruence.
  - repeat split; try discriminate; try congruence. intros (_ & _ & H). congruence.
  - repeat split; try congruence.
Qed.

(** X4. The deployment and the stateful-set overrides are accepted
    exactly when the object and its pod template carry the app label and
    the pod template defines the Trident container: the LAST container of
    that name decides, and it must name an image.  The first check that
    fails, in this order, is the one reported. *)
Theorem workload_override_accepted_iff :
  post (validateTridentDeployment handle g)
    (fun t r =>
       exists x, t = [Ev (ReadDeploymentFromFile (deploymentPath g)) x]
       /\ match x with
          | Err err => r = Err ("could not load deployment YAML file; " +:+ err)
          | Ok deployment =>
              let template := deployment_Spec_Template deployment in
              let labelled :=
                index (deployment_Labels deployment) (appLabelKey g) = appLabelValue g in
              let podLabelled :=
                index (template_Labels template) (appLabelKey g) = appLabelValue g in
              (r = Ok tt <-> labelled /\ podLabelled /\ definesTrident template)
              /\ (~ labelled -> r = Err (mustHaveLabel g "deployment"))
              /\ (labelled -> ~ podLabelled ->
                  r = Err (mustHaveLabel g "deployment's pod template"))
              /\ (labelled -> podLabelled -> ~ definesTrident template ->
                  r = Err ("the Trident deployment must define the " +:+ ContainerTrident +:+
                           " container"))
          end)
  /\ post (validateTridentStatefulSet handle g)
       (fun t r =>
          exists x, t = [Ev (ReadStatefulSetFromFile (csiStatefulSetPath g)) x]
          /\ match x with
             | Err err => r = Err ("could not load statefulset YAML file; " +:+ err)
             | Ok statefulset =>
                 let template := statefulset_Spec_Template statefulset in
                 let labelled :=
                   index (statefulset_Labels statefulset) (appLabelKey g) = appLabelValue g in
                 let podLabelled :=
                   index (template_Labels template) (appLabelKey g) = appLabelValue g in
                 (r = Ok tt <-> labelled /\ podLabelled /\ definesTrident template)
                 /\ (~ labelled -> r = Err (mustHaveLabel g "statefulset"))
                 /\ (labelled -> ~ podLabelled ->
                     r = Err (mustHaveLabel g "statefulset's pod template"))
                 /\ (labelled -> podLabelled -> ~ definesTrident template ->
                     r = Err ("the Trident statefulset must define the " +:+
                              ContainerTrident +:+ " container"))
             end).
Proof.
  split.
  - unfold validateTridentDeployment. post_walk; simpl; eexists; (split; [reflexivity|]);
      simpl; try reflexivity; eqb_prop; rewrite <- findTridentImage_defines;
      unfold mustHaveLabel.
    + repeat split; try discriminate; try congruence. intros (H & _). congruence.
    + repeat split; try discriminate; try congruence. intros (_ & H & _). congruence.
    + repeat split; try discriminate; try congruence. intros (_ & _ & H). congruence.
    + repeat split; try congruence. intros _ _ H. contradiction.
  - unfold validateTridentStatefulSet. post_walk; simpl; eexists; (split; [reflexivity|]);
      simpl; try reflexivity; eqb_prop; rewrite <- findTridentImage_defines;
      unfold mustHaveLabel.
    + repeat split; try discriminate; try congruence. intros (H & _). congruence.
    + repeat split; try discriminate; try congruence. intros (_ & H & _). congruence.
    + repeat split; try discriminate; try congruence. intros (_ & _ & H). congruence.
    + repeat split; try congruence. intros _ _ H. contradiction.
Qed.

End OverrideValidation.

(** ** Rules for runs: calls *)

Section CallRules.
Context {T : Types} {W : Type}.
Variable handle : Handler W.

Lemma trace_call {R} (c : Call R) (s : St W) :
  trace_of (call handle c) s = [Ev c (snd (handle R c (world s)))].
Proof. unfold trace_of, call. destruct (handle R c (world s)); reflexivity. Qed.

Lemma result_call {R} (c : Call R) (s : St W) :
  result_of (call handle c) s = Ok (snd (handle R c (world s))).
Proof. unfold result_of, call. destruct (handle R c (world s)); reflexivity. Qed.

Lemma state_call {R} (c : Call R) (s : St W) :
  state_of (call handle c) s
  = {| world := fst (handle R c (world s)); TridentPodName := TridentPodName s;
       CurrentDriverContext := CurrentDriverContext s;
       OrchestratorTelemetry := OrchestratorTelemetry s |}.
Proof. unfold state_of, call. destruct (handle R c (world s)); reflexivity. Qed.

End CallRules.

(** ** The probe for an earlier installation *)

Section AlreadyInstalled.
Context {T : Types} {C : Collaborators} {W : Type}.
Variable handle : Handler W.
Variable client : ClusterFacts.
Variable g : Flags.

Lemma ensureNotInstalled_probed : post (ensureNotInstalled handle client g) (probed client g).
Proof.
  unfold ensureNotInstalled, probed, belowCSIFloor, installedProbe, probeFailedError,
    alreadyInstalledError, belowCSIFloorError, previewWarning.
  destruct (csi g); simpl negb; cbv iota; simpl andb.
  - destruct (AtLeast _ _); simpl negb; cbv iota.
    + post_walk; simpl; eexists _, _; (split; [reflexivity|]); simpl; split; reflexivity.
    + apply post_fail. split; reflexivity.
  - post_walk; simpl; eexists _, _; (split; [reflexivity|]); simpl; split; reflexivity.
Qed.

(** X5. Once the size has parsed, the first thing a run does is to look
    for an earlier installation.  For the distributed topology on a
    cluster below the minimum version the run ends before any call is
    made.  Otherwise the first call is the probe of the topology; if the
    probe fails, or finds Trident installed, the run ends there, with
    nothing else called, and the error names the namespace of the earlier
    installation; if it finds nothing, the distributed topology goes on
    with the technology-preview warning. *)
Theorem installation_probe_comes_first (s : St W) (quantity : Quantity) :
  ParseQuantity (volumeSize g) = Ok quantity ->
  let t := trace_of (installTrident handle client g) s in
  let r := result_of (installTrident handle client g) s in
  if belowCSIFloor client g then t = [] /\ r = Err (belowCSIFloorError)
  else
    exists answer rest,
      t = Ev (installedProbe g) answer :: rest
      /\ match answer with
         | Err err => rest = [] /\ r = Err (probeFailedError g err)
         | Ok (true, namespace) => rest = [] /\ r = Err (alreadyInstalledError g namespace)
         | Ok (false, _) => csi g = true -> exists rest', rest = previewWarning :: rest'
         end.
Proof.
  intros Hq. cbv zeta. revert s.
  change (post (installTrident handle client g)
    (fun t r =>
       if belowCSIFloor client g then t = [] /\ r = Err (belowCSIFloorError)
       else
         exists answer rest,
           t = Ev (installedProbe g) answer :: rest
           /\ match answer with
              | Err err => rest = [] /\ r = Err (probeFailedError g err)
              | Ok (true, namespace) =>
                  rest = [] /\ r = Err (alreadyInstalledError g namespace)
              | Ok (false, _) =>
                  csi g = true -> exists rest', rest = previewWarning :: rest'
              end)).
  unfold installTrident, preChecks, parseVolumeSize. rewrite Hq.
  apply post_bind, post_bind, post_ret. simpl app.
  eapply post_seq; [apply ensureNotInstalled_probed | |]; unfold probed.
  - intros t1 [] H s. revert H.
    destruct (belowCSIFloor client g); cbv iota; intros H; [destruct H as [_ H]; discriminate H|].
    destruct H as (answer & rest & -> & H).
    destruct answer as [[[|] ns]|err]; try (destruct H as [_ H]; discriminate H).
    destruct H as [_ H].
    destruct (result_of _ s) as [a|err]; [intros s2|];
      eexists _, _; (split; [simpl; reflexivity|]); cbv iota;
      (destruct (csi g); [|discriminate]); intros _; subst rest; eexists; reflexivity.
  - intros t1 err H. revert H.
    destruct (belowCSIFloor client g); cbv iota; intros H; [exact H|].
    destruct H as (answer & rest & -> & H). exists answer, rest. split; [reflexivity|].
    destruct answer as [[[|] ns]|err']; try exact H. destruct H as [H _]; discriminate H.
Qed.

End AlreadyInstalled.

Lemma installation_probe_witness :
  let run := installTrident (Sim.handle Demo.noFaults)
               (Demo.facts (1, 9, 0)%nat FlavorKubernetes) Demo.flags_csi in
  let s := Demo.start (Demo.cluster Demo.nfsVolume) in
  ParseQuantity (volumeSize Demo.flags_csi) = Ok 2147483648
  /\ belowCSIFloor (Demo.facts (1, 9, 0)%nat FlavorKubernetes) Demo.flags_csi = true
  /\ trace_of run s = []
  /\ result_of run s = Err "CSI Trident requires Kubernetes 1.10.0 or later".
Proof.
  intros run s.
  assert (H1 : ParseQuantity (volumeSize Demo.flags_csi) = Ok 2147483648) by reflexivity.
  split; [exact H1|]. split; [reflexivity|].
  exact (installation_probe_comes_first (Sim.handle Demo.noFaults)
           (Demo.facts (1, 9, 0)%nat FlavorKubernetes) Demo.flags_csi s _ H1).
Defined.

(** ** Existing volume: incompatibility aborts before any mutation *)

Section ExistingVolumeDefects.
Context {T : Types} {C : Collaborators} {W : Type}.
Variable handle : Handler W.
Variable client : ClusterFacts.
Variable g : Flags.

Lemma checkPV_volume pvRequestedQuantity :
  appLabelValue g <> EmptyString ->
  observes volumeFetched (checkPV handle g pvRequestedQuantity)
    (fun xs r => forall pv, Ok pv ∈ xs -> volumeIncompatible g pv ->
                            r = Err (volumeRemediation g pv)).
Proof.
  intros Hne. unfold observes, checkPV. post_walk; simpl; intros pv Hin Hinc;
    try (apply elem_of_nil in Hin; contradiction);
    apply list_elem_of_singleton in Hin; try discriminate;
    injection Hin as <-; unfold volumeRemediation, volumeLabelError;
    repeat match goal with
           | H : (_ =? _) = _ |- _ => rewrite H
           | H : negb _ = _ |- _ => rewrite H
           | H : (if _ then _ else _) = _ |- _ => rewrite H
           end; try reflexivity.
  all: exfalso; destruct Hinc as [Hr | [Hf | [(ref & Hb & Href & Hn) | Hl]]];
    try (apply Hl, carriesLabel_index; assumption);
    eqb_prop; try congruence.
  all: try (rewrite Hb, String.eqb_refl, Href in *; simplify_eq; destruct Hn; congruence).
Qed.

Lemma preChecks_volume :
  appLabelValue g <> EmptyString ->
  observes volumeFetched (preChecks handle client g)
    (fun xs r => forall pv, Ok pv ∈ xs -> volumeIncompatible g pv ->
                            r = Err (volumeRemediation g pv)).
Proof.
  intros Hne. unfold preChecks.
  apply observes_skip.
  { emits_walk reflexivity. }
  { intros err pv Hin. apply elem_of_nil in Hin. contradiction. }
  intros pvRequestedQuantity. apply observes_skip.
  { emits_walk reflexivity. }
  { intros err pv Hin. apply elem_of_nil in Hin. contradiction. }
  intros _. apply observes_skip.
  { emits_walk reflexivity. }
  { intros err pv Hin. apply elem_of_nil in Hin. contradiction. }
  intros namespaceExists. apply observes_skip.
  { emits_walk reflexivity. }
  { intros err pv Hin. apply elem_of_nil in Hin. contradiction. }
  intros pvcExists. eapply observes_seq.
  - apply checkPV_volume, Hne.
  - intros xs pvExists HQ. apply observes_unseen.
    { emits_walk reflexivity. }
    intros r pv Hin Hinc. rewrite app_nil_r in Hin.
    specialize (HQ pv Hin Hinc). discriminate.
  - intros xs err HQ pv Hin Hinc. specialize (HQ pv Hin Hinc).
    injection HQ as ->. reflexivity.
Qed.

Lemma installSteps_no_volume_fetch namespaceExists pvcExists pvExists storageBackend :
  unseen volumeFetched
    (installSteps handle client g namespaceExists pvcExists pvExists storageBackend).
Proof.
  emits_walk reflexivity.
Qed.

(** X6. If the volume the installer finds is released or failed, or is
    bound to a claim other than the intended one or in another namespace,
    or does not carry the topology's identity label with the expected
    value, the run ends with the error that names the remediation (the
    first defect found deciding), and no call of the run creates or
    deletes anything. *)
Theorem incompatible_volume_aborts_before_mutation (s : St W) (pv : PersistentVolume) :
  appLabelValue g <> EmptyString ->
  Ev (GetPV (pvName g)) (Ok pv) ∈ trace_of (installTrident handle client g) s ->
  volumeIncompatible g pv ->
  result_of (installTrident handle client g) s = Err (volumeRemediation g pv)
  /\ Forall (fun e => isMutation e = false) (trace_of (installTrident handle client g) s).
Proof.
  intros Hne Hin Hinc. unfold installTrident in *.
  rewrite trace_bind in *. rewrite result_bind.
  pose proof (preChecks_volume Hne s) as Hc. simpl in Hc.
  pose proof (preChecks_no_mutation handle client g s) as Hm.
  destruct (result_of (preChecks handle client g) s) as [[[[ns pe] pvExists] sb]|err].
  - exfalso. apply elem_of_app in Hin as [Hin|Hin].
    + specialize (Hc pv (observed_elem _ _ _ _ Hin eq_refl) Hinc). discriminate.
    + destruct (dryRun g).
      * apply elem_of_nil in Hin. contradiction.
      * pose proof (installSteps_no_volume_fetch ns pe pvExists sb
                      (state_of (preChecks handle client g) s)) as Hs.
        rewrite Forall_forall in Hs. specialize (Hs _ Hin). discriminate.
  - rewrite app_nil_r in *. split; [|exact Hm].
    specialize (Hc pv (observed_elem _ _ _ _ Hin eq_refl) Hinc).
    injection Hc as ->. reflexivity.
Qed.

End ExistingVolumeDefects.

Lemma incompatible_volume_witness :
  let run := installTrident (Sim.handle Demo.noFaults)
               (Demo.facts (1, 9, 0)%nat FlavorKubernetes) Demo.flags in
  let s := Demo.start (Sim.with_objects (Demo.cluster Demo.nfsVolume)
                         None (Some Host.releasedVolume)) in
  appLabelValue Demo.flags <> EmptyString
  /\ Ev (GetPV (pvName Demo.flags)) (Ok Host.releasedVolume) ∈ trace_of run s
  /\ volumeIncompatible Demo.flags Host.releasedVolume
  /\ result_of run s = Err (volumeRemediation Demo.flags Host.releasedVolume)
  /\ Forall (fun e => isMutation e = false) (trace_of run s).
Proof.
  intros run s.
  assert (H1 : appLabelValue Demo.flags <> EmptyString) by (vm_compute; discriminate).
  assert (H2 : Ev (GetPV (pvName Demo.flags)) (Ok Host.releasedVolume) ∈ trace_of run s)
    by (vm_compute; repeat constructor).
  assert (H3 : volumeIncompatible Demo.flags Host.releasedVolume) by (left; reflexivity).
  split; [exact H1|]. split; [exact H2|]. split; [exact H3|].
  exact (incompatible_volume_aborts_before_mutation _ _ _ s Host.releasedVolume H1 H2 H3).
Defined.

(** ** The order in which objects are created *)

Section Stages.
Context {T : Types} {C : Collaborators} {W : Type}.
Variable handle : Handler W.
Variable client : ClusterFacts.
Variable g : Flags.

Lemma ascending_weaken lo lo' ws :
  (lo' <= lo)%nat -> ascending lo ws = true -> ascending lo' ws = true.
Proof.
  destruct ws as [|[k ok] ws]; [reflexivity|]. simpl. intros Hle.
  rewrite !andb_true_iff, !Nat.leb_le. intros [[H1 H2] H3]. repeat split; [lia | assumption..].
Qed.

Lemma ascending_app lo mid ws1 ws2 :
  (lo <= mid)%nat ->
  ascending lo ws1 = true -> below mid ws1 = true ->
  (ws2 <> [] -> succeeded ws1 = true) ->
  ascending mid ws2 = true ->
  ascending lo (ws1 ++ ws2) = true.
Proof.
  revert lo. induction ws1 as [|[k ok] ws1 IH]; intros lo Hle Hasc Hbelow Hok H2; simpl in *.
  - eapply ascending_weaken; [exact Hle | exact H2].
  - apply andb_true_iff in Hasc as [Hasc H3]. apply andb_true_iff in Hasc as [H1 Hlast].
    apply andb_true_iff in Hbelow as [Hk Hbelow]. apply Nat.ltb_lt in Hk.
    rewrite H1. simpl. rewrite IH; try assumption.
    + rewrite andb_true_r. destruct ok; [reflexivity|]. simpl in *.
      destruct ws1; [|discriminate]. simpl.
      destruct ws2; [reflexivity|]. exfalso.
      specialize (Hok ltac:(discriminate)). discriminate.
    + intros Hne. specialize (Hok Hne). apply andb_true_iff in Hok as [_ Hok]. exact Hok.
Qed.

Lemma below_weaken hi hi' ws : (hi <= hi')%nat -> below hi ws = true -> below hi' ws = true.
Proof.
  unfold below. rewrite !forallb_forall. intros Hle H w Hw.
  specialize (H w Hw). apply Nat.ltb_lt in H. apply Nat.ltb_lt. lia.
Qed.

(** Stages compose: a stage that fails ends the run. *)
Lemma staged_bind {A B} lo mid hi (m : M W A) (f : A -> M W B) :
  (lo <= mid)%nat -> (mid <= hi)%nat ->
  observes (submission g) m (staged lo mid) ->
  (forall a, observes (submission g) (f a) (staged mid hi)) ->
  observes (submission g) (bind m f) (staged lo hi).
Proof.
  intros Hlo Hhi Hm Hf. eapply observes_seq; [exact Hm | |].
  - intros ws1 a (Hasc & Hbelow & Hok). eapply observes_conseq; [apply Hf|].
    intros ws2 r (Hasc2 & Hbelow2 & Hok2). repeat split.
    + eapply ascending_app; eauto.
    + unfold below in *. rewrite forallb_app, Hbelow2, andb_true_r.
      exact (below_weaken _ _ _ Hhi Hbelow).
    + intros b Hb. unfold succeeded in *. rewrite forallb_app, (Hok a eq_refl), (Hok2 b Hb).
      reflexivity.
  - intros ws1 err (Hasc & Hbelow & Hok). repeat split.
    + exact Hasc.
    + exact (below_weaken _ _ _ Hhi Hbelow).
    + intros b Hb. discriminate.
Qed.

(** A part of the run that submits nothing is a stage of any range. *)
Lemma staged_unseen {A} lo (m : M W A) :
  unseen (submission g) m -> observes (submission g) m (staged lo lo).
Proof.
  intros H. apply observes_unseen; [exact H|]. intros r. repeat split.
Qed.

Lemma staged_widen {A} lo lo' hi hi' (m : M W A) :
  (lo' <= lo)%nat -> (hi <= hi')%nat ->
  observes (submission g) m (staged lo hi) -> observes (submission g) m (staged lo' hi').
Proof.
  intros Hlo Hhi H. eapply observes_conseq; [exact H|].
  intros ws r (Hasc & Hbelow & Hok). repeat split.
  - exact (ascending_weaken _ _ _ Hlo Hasc).
  - exact (below_weaken _ _ _ Hhi Hbelow).
  - exact Hok.
Qed.

Ltac stage :=
  unfold observes; autounfold with installer;
  post_walk; unfold staged, submission, creates; simpl;
    autorewrite with setup_files; simpl;
    (split; [reflexivity | split; [reflexivity | intros ? ?; first [reflexivity | discriminate]]]).

Lemma createNamespace_stage namespaceExists :
  observes (submission g) (createNamespace handle g namespaceExists) (staged 0 1).
Proof. stage. Qed.

Lemma createRBACObjects_stage :
  observes (submission g) (createRBACObjects handle client g) (staged 1 4).
Proof. stage. Qed.

Lemma createPVC_stage pvcExists :
  observes (submission g) (createPVC handle g pvcExists) (staged 4 5).
Proof. stage. Qed.

Lemma createPVIfNecessary_stage pvExists storageBackend :
  observes (submission g) (createPVIfNecessary handle client g pvExists storageBackend)
    (staged 5 7).
Proof.
  unfold createPVIfNecessary, createPV, createCHAPSecret, rangeFirst. stage.
Qed.

Lemma createWorkloads_stage :
  observes (submission g) (createWorkloads handle g) (staged 7 11).
Proof. stage. Qed.

Lemma installSteps_stage namespaceExists pvcExists pvExists storageBackend :
  observes (submission g)
    (installSteps handle client g namespaceExists pvcExists pvExists storageBackend)
    (staged 0 11).
Proof.
  unfold installSteps.
  eapply (staged_bind 0 1 11); [lia | lia | apply createNamespace_stage | intros _].
  eapply (staged_bind 1 1 11); [lia | lia | | intros _].
  { apply staged_unseen. emits_walk observe_call. }
  eapply (staged_bind 1 4 11); [lia | lia | apply createRBACObjects_stage | intros _].
  eapply (staged_bind 4 5 11); [lia | lia | apply createPVC_stage | intros _].
  eapply (staged_bind 5 7 11); [lia | lia | apply createPVIfNecessary_stage | intros _].
  eapply (staged_bind 7 7 11); [lia | lia | | intros _].
  { apply staged_unseen. emits_walk observe_call. }
  eapply (staged_bind 7 11 11); [lia | lia | apply createWorkloads_stage | intros _].
  apply staged_unseen. emits_walk observe_call.
Qed.

(** X7. The objects of an installation are submitted in one fixed order:
    namespace, service account, cluster role, cluster role binding, claim,
    session-credential secret, volume, then the workload objects.  No kind
    of object is submitted twice, nothing is submitted after a submission
    that the cluster refused, and a run that succeeds had all its
    submissions accepted. *)
Theorem objects_created_in_order (s : St W) :
  let ws := omap (submission g) (trace_of (installTrident handle client g) s) in
  ascending 0 ws = true
  /\ (result_of (installTrident handle client g) s = Ok tt -> succeeded ws = true).
Proof.
  cbv zeta.
  assert (H : observes (submission g) (installTrident handle client g) (staged 0 11)).
  { unfold installTrident.
    eapply (staged_bind 0 0 11); [lia | lia | |].
    - apply staged_unseen. emits_walk observe_call.
    - intros [[[ns pe] pv] sb]. destruct (dryRun g).
      + apply (staged_widen 0 0 0 11); [lia | lia |].
        apply staged_unseen. emits_walk observe_call.
      + apply installSteps_stage. }
  destruct (H s) as (Hasc & _ & Hok). split; [exact Hasc | apply Hok].
Qed.

End Stages.

(** ** Objects that exist are not created again *)

Section Found.
Context {T : Types} {C : Collaborators} {W : Type}.
Variable handle : Handler W.
Variable client : ClusterFacts.
Variable g : Flags.

Lemma preChecks_existence :
  observes existence (preChecks handle client g) (fun xs r => probes_of r xs).
Proof.
  unfold preChecks.
  apply observes_skip; [emits_walk reflexivity | intros; exact I | intros quantity].
  apply observes_skip; [emits_walk reflexivity | intros; exact I | intros _].
  apply observes_seq with (Q := fun xs r => forall a, r = Ok a -> xs = [(KNamespace, Ok a)]).
  { unfold observes, checkNamespace. post_walk; simpl; intros a' [= <-]; reflexivity. }
  2: { intros; exact I. }
  intros xs1 namespaceExists H1. rewrite (H1 _ eq_refl). clear H1.
  apply observes_seq with (Q := fun xs r => forall a, r = Ok a -> xs = [(KPVC, Ok a)]).
  { unfold observes, checkPVC. post_walk; simpl; intros a' [= <-]; reflexivity. }
  2: { intros; exact I. }
  intros xs2 pvcExists H2. rewrite (H2 _ eq_refl). clear H2.
  apply observes_seq with (Q := fun xs r => forall a, r = Ok a -> xs = [(KPV, Ok a)]).
  { unfold observes, checkPV. post_walk; simpl; intros a' [= <-]; reflexivity. }
  2: { intros; exact I. }
  intros xs3 pvExists H3. rewrite (H3 _ eq_refl). clear H3.
  apply observes_skip; [emits_walk reflexivity | intros; exact I | intros sb].
  unfold observes. apply post_ret. reflexivity.
Qed.

(** Decides what [created] makes of the event of a call. *)
Ltac created_call :=
  unfold created, submission, creates;
  autorewrite with setup_files;
  try match goal with H : yamlKind _ = _ |- _ => rewrite H end;
  reflexivity.

Ltac kept_or_created :=
  unfold observes; autounfold with installer; cbv iota; simpl negb; cbv iota;
  post_walk; unfold keptOrCreated, created, submission, creates; simpl;
    autorewrite with setup_files; simpl;
    (split; [intros ? | intros ? ? ?]; first [reflexivity | discriminate]).

Lemma createNamespace_kept namespaceExists :
  observes (created g KNamespace) (createNamespace handle g namespaceExists)
    (keptOrCreated namespaceExists).
Proof. destruct namespaceExists; kept_or_created. Qed.

Lemma createPVC_kept pvcExists :
  observes (created g KPVC) (createPVC handle g pvcExists) (keptOrCreated pvcExists).
Proof. destruct pvcExists; kept_or_created. Qed.

Lemma createPVIfNecessary_kept pvExists storageBackend :
  observes (created g KPV) (createPVIfNecessary handle client g pvExists storageBackend)
    (keptOrCreated pvExists).
Proof.
  unfold createPVIfNecessary, createPV, createCHAPSecret, rangeFirst.
  destruct pvExists; kept_or_created.
Qed.

Lemma createPVIfNecessary_no_secret storageBackend :
  unseen (created g KSecret) (createPVIfNecessary handle client g true storageBackend).
Proof. unfold createPVIfNecessary. simpl. intros s. constructor. Qed.

Lemma keptOrCreated_failed {A} exists_ err : keptOrCreated (A := A) exists_ [] (Err err).
Proof. split; [reflexivity | discriminate]. Qed.

(** A stage that keeps or creates an object, in the middle of a run whose
    other stages do not submit objects of that kind. *)
Lemma kept_then_unseen {A B} kind exists_ (m : M W A) (f : A -> M W B) :
  observes (created g kind) m (keptOrCreated exists_) ->
  (forall a, unseen (created g kind) (f a)) ->
  observes (created g kind) (bind m f) (keptOrCreated exists_).
Proof.
  intros Hm Hf. eapply observes_seq; [exact Hm | |].
  - intros xs a [Hkept Hcreated]. apply observes_unseen; [apply Hf|].
    intros r. rewrite app_nil_r. split; [exact Hkept|].
    intros Hex b _. exact (Hcreated Hex a eq_refl).
  - intros xs err [Hkept Hcreated]. split; [exact Hkept | discriminate].
Qed.

Lemma installSteps_namespace namespaceExists pvcExists pvExists storageBackend :
  observes (created g KNamespace)
    (installSteps handle client g namespaceExists pvcExists pvExists storageBackend)
    (keptOrCreated namespaceExists).
Proof.
  unfold installSteps.
  apply kept_then_unseen; [apply createNamespace_kept | intros _].
  emits_walk created_call.
Qed.

Lemma installSteps_claim namespaceExists pvcExists pvExists storageBackend :
  observes (created g KPVC)
    (installSteps handle client g namespaceExists pvcExists pvExists storageBackend)
    (keptOrCreated pvcExists).
Proof.
  unfold installSteps.
  apply observes_skip; [emits_walk created_call | apply keptOrCreated_failed | intros _].
  apply observes_skip; [emits_walk created_call | apply keptOrCreated_failed | intros _].
  apply observes_skip; [emits_walk created_call | apply keptOrCreated_failed | intros _].
  apply kept_then_unseen; [apply createPVC_kept | intros _].
  emits_walk created_call.
Qed.

Lemma installSteps_volume namespaceExists pvcExists pvExists storageBackend :
  observes (created g KPV)
    (installSteps handle client g namespaceExists pvcExists pvExists storageBackend)
    (keptOrCreated pvExists).
Proof.
  unfold installSteps.
  apply observes_skip; [emits_walk created_call | apply keptOrCreated_failed | intros _].
  apply observes_skip; [emits_walk created_call | apply keptOrCreated_failed | intros _].
  apply observes_skip; [emits_walk created_call | apply keptOrCreated_failed | intros _].
  apply observes_skip; [emits_walk created_call | apply keptOrCreated_failed | intros _].
  apply kept_then_unseen; [apply createPVIfNecessary_kept | intros _].
  emits_walk created_call.
Qed.

Lemma installSteps_no_secret namespaceExists pvcExists storageBackend :
  unseen (created g KSecret)
    (installSteps handle client g namespaceExists pvcExists true storageBackend).
Proof.
  unfold installSteps, createPVIfNecessary. simpl negb. cbv iota.
  emits_walk created_call.
Qed.

Lemma installSteps_no_probe namespaceExists pvcExists pvExists storageBackend :
  unseen existence
    (installSteps handle client g namespaceExists pvcExists pvExists storageBackend).
Proof. emits_walk reflexivity. Qed.

Lemma preChecks_creates_nothing kind : unseen (created g kind) (preChecks handle client g).
Proof. emits_walk created_call. Qed.

(** X8. An object that the pre-checks find in the cluster is not
    submitted again: a namespace, a claim or a volume that exists is left
    as it is, and with an existing volume no session-credential secret is
    submitted either.  An object the pre-checks find missing is submitted
    once, and a run that succeeds had it accepted. *)
Theorem existing_objects_are_not_recreated (s : St W) :
  let t := trace_of (installTrident handle client g) s in
  let r := result_of (installTrident handle client g) s in
  (Ev (CheckNamespaceExists (TridentPodNamespace g)) (Ok true) ∈ t ->
   omap (created g KNamespace) t = [])
  /\ (Ev (CheckPVCExists (pvcName g)) (Ok true) ∈ t -> omap (created g KPVC) t = [])
  /\ (Ev (CheckPVExists (pvName g)) (Ok true) ∈ t ->
      omap (created g KPV) t = [] /\ omap (created g KSecret) t = [])
  /\ (dryRun g = false -> r = Ok tt ->
      (Ev (CheckNamespaceExists (TridentPodNamespace g)) (Ok false) ∈ t ->
       omap (created g KNamespace) t = [true])
      /\ (Ev (CheckPVCExists (pvcName g)) (Ok false) ∈ t -> omap (created g KPVC) t = [true])
      /\ (Ev (CheckPVExists (pvName g)) (Ok false) ∈ t -> omap (created g KPV) t = [true])).
Proof.
  cbv zeta. unfold installTrident. rewrite trace_bind, result_bind.
  pose proof (preChecks_existence s) as Hp. simpl in Hp.
  assert (Hnone : forall kind,
            omap (created g kind) (trace_of (preChecks handle client g) s) = [])
    by (intros kind; apply unseen_trace, preChecks_creates_nothing).
  set (t1 := trace_of (preChecks handle client g) s) in *.
  destruct (result_of (preChecks handle client g) s) as [[[[ns pe] pv] sb]|err].
  2: { rewrite app_nil_r, !Hnone. repeat split; try reflexivity; discriminate. }
  set (s1 := state_of (preChecks handle client g) s).
  assert (Hprobe : forall kind (answer : bool) e,
            e ∈ t1 ++ trace_of (if dryRun g then ret tt
                                else installSteps handle client g ns pe pv sb) s1 ->
            existence e = Some (kind, Ok answer) ->
            (kind, Ok answer) ∈ [(KNamespace, Ok ns); (KPVC, Ok pe); (KPV, Ok pv)]).
  { intros kind answer e He Hobs. rewrite <- Hp.
    apply elem_of_app in He as [He|He]; [exact (observed_elem _ _ _ _ He Hobs)|].
    exfalso. destruct (dryRun g).
    - apply elem_of_nil in He. exact He.
    - pose proof (installSteps_no_probe ns pe pv sb s1) as Hs.
      rewrite Forall_forall in Hs. specialize (Hs _ He). congruence. }
  rewrite !omap_app, !Hnone. simpl app.
  destruct (dryRun g) eqn:Hdry.
  - repeat split; try reflexivity; discriminate.
  - pose proof (installSteps_namespace ns pe pv sb s1) as [Hn1 Hn2].
    pose proof (installSteps_claim ns pe pv sb s1) as [Hc1 Hc2].
    pose proof (installSteps_volume ns pe pv sb s1) as [Hv1 Hv2].
    split; [|split; [|split]].
    + intros He. apply Hn1. specialize (Hprobe _ _ _ He eq_refl). mem_inv Hprobe.
      congruence.
    + intros He. apply Hc1. specialize (Hprobe _ _ _ He eq_refl). mem_inv Hprobe.
      congruence.
    + intros He. specialize (Hprobe _ _ _ He eq_refl). mem_inv Hprobe.
      injection Hprobe as <-. split; [apply Hv1; reflexivity|].
      apply unseen_trace, installSteps_no_secret.
    + intros _ Hr. split; [|split]; intros He;
        specialize (Hprobe _ _ _ He eq_refl); mem_inv Hprobe.
      * eapply Hn2; [congruence | exact Hr].
      * eapply Hc2; [congruence | exact Hr].
      * eapply Hv2; [congruence | exact Hr].
Qed.

End Found.

(** ** RBAC objects: what is deleted and what is created *)

Section RBACManifests.
Context {T : Types} {C : Collaborators} {W : Type}.
Variable handle : Handler W.
Variable client : ClusterFacts.
Variable g : Flags.



End RBACManifests.

(** ** RBAC objects: order of creation *)

Section RBACCreation.
Context {T : Types} {C : Collaborators} {W : Type}.
Variable handle : Handler W.
Variable client : ClusterFacts.
Variable g : Flags.

Lemma createRBACObjects_steps :
  observes (rbacCreation g) (createRBACObjects handle client g) (rbacCreated client g).
Proof.
  unfold observes, createRBACObjects, useYAMLFile, rbacCreated, creationSteps.
  destruct (useKubernetesRBAC g); [destruct (flavor_eqb (Flavor client) FlavorOpenShift)|];
    cbv iota; post_walk; unfold rbacCreation, creates; simpl;
    autorewrite with setup_files; simpl.
  all: split; [repeat split; congruence|].
  all: split; [intros ? Hok; first [discriminate Hok | reflexivity]|].
  all: intros step0 err0 Hin; mem_inv Hin; injection Hin as -> ->; reflexivity.
Qed.

Ltac creation_call :=
  unfold rbacCreation, creates;
  autorewrite with setup_files;
  try match goal with H : yamlKind _ = _ |- _ => rewrite H end;
  reflexivity.

Lemma rbacCreated_failed {A} err : rbacCreated client g (A := A) [] (Err err).
Proof.
  repeat split; [discriminate|]. intros step e Hin. apply elem_of_nil in Hin. contradiction.
Qed.

(** X10. The RBAC objects are created in the order of the RBAC mode:
    service account, cluster role, cluster role binding and, on OpenShift,
    the SCC entry in native mode; service account, role and role attachment
    in external-authorization mode.  Each step is attempted only after the
    previous one was accepted; a refused step ends the run with the error
    of that step, and a run that installs successfully has made them all. *)
Theorem rbac_objects_created_in_order (s : St W) :
  let xs := omap (rbacCreation g) (trace_of (installTrident handle client g) s) in
  let r := result_of (installTrident handle client g) s in
  attemptedInOrder (creationSteps client g) xs
  /\ (dryRun g = false -> r = Ok tt ->
      xs = (fun step => (step, None)) <$> creationSteps client g)
  /\ (forall step err, (step, Some err) ∈ xs -> r = Err (creationFailure step +:+ err)).
Proof.
  cbv zeta. revert s.
  change (observes (rbacCreation g) (installTrident handle client g)
    (fun xs r =>
       attemptedInOrder (creationSteps client g) xs
       /\ (dryRun g = false -> r = Ok tt ->
           xs = (fun step => (step, None)) <$> creationSteps client g)
       /\ (forall step err, (step, Some err) ∈ xs ->
             r = Err (creationFailure step +:+ err)))).
  assert (Hnone : forall r : result unit,
            r <> Ok tt \/ dryRun g = true ->
            let none : list (RBACStep * option error) := [] in
            attemptedInOrder (creationSteps client g) none
            /\ (dryRun g = false -> r = Ok tt ->
                none = (fun step => (step, None)) <$> creationSteps client g)
            /\ (forall step err, (step, Some err) ∈ none ->
                  r = Err (creationFailure step +:+ err))).
  { intros r Hr none. split; [exact I|]. split.
    - intros Hdry Hok. destruct Hr; congruence.
    - intros step err Hin. apply elem_of_nil in Hin. contradiction. }
  unfold installTrident.
  apply observes_skip; [emits_walk creation_call | intros; apply Hnone; left; discriminate |].
  intros [[[ns pe] pv] sb]. destruct (dryRun g) eqn:Hdry.
  { apply observes_unseen; [emits_walk creation_call | intros; apply Hnone; right; reflexivity]. }
  unfold installSteps.
  apply observes_skip; [emits_walk creation_call | intros; apply Hnone; left; discriminate |].
  intros _.
  apply observes_skip; [emits_walk creation_call | intros; apply Hnone; left; discriminate |].
  intros _. eapply observes_seq; [apply createRBACObjects_steps | |].
  - intros xs [] (Hord & Hall & Herr). apply observes_unseen.
    { emits_walk creation_call. }
    intros r. rewrite app_nil_r. split; [exact Hord|]. split.
    + intros _ _. exact (Hall tt eq_refl).
    + intros step err Hin. specialize (Herr step err Hin). discriminate.
  - intros xs err (Hord & Hall & Herr). split; [exact Hord|]. split.
    + intros _ Hok. discriminate.
    + exact Herr.
Qed.

End RBACCreation.

(** ** The volume allocated on the storage backend *)

Section Allocated.
Context {T : Types} {C : Collaborators} {W : Type}.
Variable handle : Handler W.
Variable client : ClusterFacts.
Variable g : Flags.

Lemma no_pools (pools : gmap string Pool) :
  pools = ∅ <-> length (map_to_list pools) = 0%nat.
Proof.
  split.
  - intros ->. rewrite map_to_list_empty. reflexivity.
  - intros H. apply map_to_list_empty_iff. destruct (map_to_list pools); [reflexivity|discriminate].
Qed.

Lemma createPV_allocation sb :
  observes allocation (createPV handle client g (Some sb))
    (fun xs r => allocatedOn g sb xs
                 /\ (sb_Storage sb = ∅ -> xs = [] /\ r = Err (noPoolsError sb))).
Proof.
  unfold observes, createPV.
  destruct (length (map_to_list (sb_Storage sb)) =? 0)%nat eqn:Hlen.
  - apply post_fail. split; [left; reflexivity|]. intros _. split; reflexivity.
  - apply Nat.eqb_neq in Hlen.
    assert (Hne : sb_Storage sb <> ∅) by (intros H; apply no_pools in H; contradiction).
    unfold rangeFirst. apply post_bind, post_bind, post_call. intros n. apply post_ret.
    destruct (map_to_list (sb_Storage sb) !! (n mod length (map_to_list (sb_Storage sb)))%nat)
      as [[name pool]|] eqn:Hpool.
    2: { exfalso. apply lookup_ge_None in Hpool.
         pose proof (Nat.mod_upper_bound n _ Hlen). lia. }
    assert (Hin : sb_Storage sb !! name = Some pool).
    { apply elem_of_map_to_list. eapply list_elem_of_lookup_2. exact Hpool. }
    simpl fmap. unfold createCHAPSecret.
    post_walk; simpl; (split; [right; exists name, pool; split; [exact Hin | reflexivity]
                             | intros H; contradiction]).
Qed.

Lemma createPVIfNecessary_allocation pvExists storageBackend :
  observes allocation (createPVIfNecessary handle client g pvExists storageBackend)
    (allocationOf g pvExists storageBackend).
Proof.
  unfold createPVIfNecessary, allocationOf.
  destruct pvExists; simpl negb; cbv iota.
  - unfold observes. apply post_ret. reflexivity.
  - destruct storageBackend as [sb|].
    + apply observes_wrapError. eapply observes_conseq; [apply createPV_allocation|].
      intros xs r [Hon Hnone]. split; [exact Hon|]. intros Hempty.
      destruct (Hnone Hempty) as [-> ->]. split; [reflexivity | discriminate].
    + unfold observes. apply post_wrapError, post_fail. reflexivity.
Qed.

Lemma allocationOf_failed pvExists storageBackend err :
  allocationOf g pvExists storageBackend [] (Err err).
Proof.
  unfold allocationOf. destruct pvExists; [reflexivity|].
  destruct storageBackend; [|reflexivity].
  split; [left; reflexivity|]. intros _. split; [reflexivity | discriminate].
Qed.

Lemma installSteps_allocation namespaceExists pvcExists pvExists storageBackend :
  observes allocation
    (installSteps handle client g namespaceExists pvcExists pvExists storageBackend)
    (allocationOf g pvExists storageBackend).
Proof.
  unfold installSteps.
  apply observes_skip; [emits_walk reflexivity | apply allocationOf_failed | intros _].
  apply observes_skip; [emits_walk reflexivity | apply allocationOf_failed | intros _].
  apply observes_skip; [emits_walk reflexivity | apply allocationOf_failed | intros _].
  apply observes_skip; [emits_walk reflexivity | apply allocationOf_failed | intros _].
  eapply observes_seq; [apply createPVIfNecessary_allocation | |].
  - intros xs [] H. apply observes_unseen; [emits_walk reflexivity|].
    intros r. rewrite app_nil_r. revert H. unfold allocationOf.
    destruct pvExists; [exact id|]. destruct storageBackend as [sb|]; [|exact id].
    intros [Hon Hnone]. split; [exact Hon|]. intros Hempty.
    destruct (Hnone Hempty) as [_ Hr]. contradiction.
  - intros xs err H. revert H. unfold allocationOf.
    destruct pvExists; [exact id|]. destruct storageBackend as [sb|]; [|exact id].
    intros [Hon Hnone]. split; [exact Hon|]. intros Hempty.
    destruct (Hnone Hempty) as [-> _]. split; [reflexivity | discriminate].
Qed.

(** X11. A run asks the storage backend for at most one volume: on the
    backend that the pre-checks started from the configuration file, in one
    of the pools of that backend, with the name and the size of the flags
    and the protocol of the backend.  When the backend that was started has
    no pools, no volume is asked for and the installation does not succeed. *)
Theorem volume_allocated_on_started_backend (s : St W) :
  let t := trace_of (installTrident handle client g) s in
  let r := result_of (installTrident handle client g) s in
  (omap allocation t = []
   \/ exists config sb,
        Ev (NewStorageBackendForConfig config) (Ok sb) ∈ t
        /\ allocatedOn g sb (omap allocation t))
  /\ (forall config sb,
        Ev (NewStorageBackendForConfig config) (Ok sb) ∈ t ->
        sb_Storage sb = ∅ ->
        omap allocation t = [] /\ (dryRun g = false -> r <> Ok tt)).
Proof.
  cbv zeta. unfold installTrident. rewrite trace_bind, result_bind.
  pose proof (preChecks_preflight handle client g s) as Hpf. simpl in Hpf.
  assert (Hnone : omap allocation (trace_of (preChecks handle client g) s) = []).
  { apply unseen_trace. emits_walk reflexivity. }
  set (t1 := trace_of (preChecks handle client g) s) in *.
  set (s1 := state_of (preChecks handle client g) s).
  destruct (result_of (preChecks handle client g) s) as [[[[ns pe] pv] sbo]|err].
  2: { rewrite app_nil_r, Hnone. split; [left; reflexivity|].
       intros config sb _ _. split; [reflexivity | discriminate]. }
  assert (Hstart : forall config sb,
            Ev (NewStorageBackendForConfig config) (Ok sb)
              ∈ t1 ++ trace_of (if dryRun g then ret tt
                                else installSteps handle client g ns pe pv sbo) s1 ->
            SawStart config (Ok sb) ∈ omap preflight t1).
  { intros config sb He.
    apply elem_of_app in He as [He|He]; [exact (observed_elem _ _ _ _ He eq_refl)|].
    exfalso. destruct (dryRun g).
    - apply elem_of_nil in He. exact He.
    - assert (Hs : unseen preflight (installSteps handle client g ns pe pv sbo))
        by (emits_walk reflexivity).
      specialize (Hs s1). rewrite Forall_forall in Hs. specialize (Hs _ He). discriminate. }
  assert (Hsteps : allocationOf g pv sbo
            (omap allocation (trace_of (if dryRun g then ret tt
                                        else installSteps handle client g ns pe pv sbo) s1))
            (if dryRun g then Ok tt
             else result_of (installSteps handle client g ns pe pv sbo) s1)
          \/ dryRun g = true).
  { destruct (dryRun g); [right; reflexivity | left; apply installSteps_allocation]. }
  rewrite omap_app, Hnone. simpl app.
  remember (omap preflight t1) as xs eqn:Exs.
  inversion Hpf as [| | |pv0 r0 Hok Hcompat Hxs0 Hr0|ys r' ns' pe' Hload Hxs Hr]; subst xs.
  - (* the volume exists: no backend was started *)
    destruct (Hok _ eq_refl) as (ns' & pe' & [= -> -> -> ->]).
    assert (Hnil : omap allocation
                     (trace_of (if dryRun g then ret tt
                                else installSteps handle client g ns' pe' true None) s1) = []).
    { destruct Hsteps as [Hs|Hs]; [exact Hs | rewrite Hs; reflexivity]. }
    rewrite Hnil. split; [left; reflexivity|].
    intros config sb He. apply Hstart in He. rewrite <- Hxs0 in He. mem_inv He.
  - (* the volume does not exist: the pre-checks have started the backend *)
    destruct r' as [sb|err]; [|discriminate].
    injection Hr as <- <- <- <-.
    inversion Hload as [| | | |a b config backend Ha Hb Hys Hbackend]; subst ys backend.
    assert (Hin : Ev (NewStorageBackendForConfig config) (Ok sb) ∈ t1).
    { assert (Hx : SawStart config (Ok sb) ∈ omap preflight t1).
      { rewrite <- Hxs. do 4 apply list_elem_of_further. apply list_elem_of_here. }
      apply list_elem_of_omap in Hx as (e & He & Hobs).
      apply preflight_event in Hobs. subst e. exact He. }
    assert (Hon : allocatedOn g sb
              (omap allocation
                 (trace_of (if dryRun g then ret tt
                            else installSteps handle client g ns' pe' false (Some sb)) s1))
            /\ (sb_Storage sb = ∅ ->
                omap allocation
                  (trace_of (if dryRun g then ret tt
                             else installSteps handle client g ns' pe' false (Some sb)) s1) = []
                /\ (dryRun g = false ->
                    (if dryRun g then Ok tt
                     else result_of (installSteps handle client g ns' pe' false (Some sb)) s1)
                    <> Ok tt))).
    { destruct Hsteps as [[Hon Hempty]|Hdry].
      - split; [exact Hon|]. intros He. destruct (Hempty He) as [Hx Hr].
        split; [exact Hx | intros _; exact Hr].
      - rewrite Hdry. split; [left; reflexivity|]. intros _.
        split; [reflexivity | discriminate]. }
    destruct Hon as [Hon Hempty].
    split.
    + right. exists config, sb. split; [|exact Hon].
      apply elem_of_app. left. exact Hin.
    + intros config' sb' He Hpools. apply Hstart in He. rewrite <- Hxs in He.
      mem_inv He. injection He as -> ->.
      destruct (Hempty Hpools) as [Hx Hr]. split; [exact Hx|].
      intros Hdry. specialize (Hr Hdry). rewrite Hdry in *. exact Hr.
Qed.

End Allocated.

(** ** Readiness waits: polls and pauses *)

Section Pacing.
Context {T : Types} {C : Collaborators} {W : Type}.
Variable handle : Handler W.
Variable client : ClusterFacts.
Variable g : Flags.

(** [RetryNotify] polls, and pauses between polls for the increments of
    the schedule, in order; it gives up only when the schedule is used up. *)
Lemma RetryNotify_paced {S A} (operation : S -> M W (Attempt S A)) (b : list Duration) captured :
  (forall x, observes pace (operation x) (fun xs r => xs = [Poll] /\ exists a, r = Ok a)) ->
  observes pace (RetryNotify handle operation b notifyDebug captured)
    (fun xs r =>
       exists k, (k <= length b)%nat /\ xs = paced b k
                 /\ match r with
                    | Ok (Done _ _ _) => True
                    | Ok (Again _ _ _ _) => k = length b
                    | Err _ => False
                    end).
Proof.
  intros Hop. revert captured. induction b as [|next b IH]; intros captured; simpl.
  - eapply observes_seq; [apply Hop | |].
    + intros xs [a|x err] [-> _]; unfold observes; apply post_ret;
        exists 0%nat; repeat split; reflexivity.
    + intros xs err [_ [a Ha]]. discriminate.
  - eapply observes_seq; [apply Hop | |].
    + intros xs [a|x err] [-> _].
      * unfold observes. apply post_ret. exists 0%nat. repeat split. simpl. lia.
      * unfold notifyDebug. unfold observes. apply post_bind, post_ret, post_bind, post_call.
        intros []. eapply post_conseq; [apply IH|].
        intros t r (k & Hk & Hxs & Hr). simpl.
        change (list_omap Event Pace pace t) with (omap pace t). rewrite Hxs.
        exists (Datatypes.S k). split; [simpl; lia|]. split; [reflexivity|].
        destruct r as [[a|c' e']|e']; try exact Hr. simpl. congruence.
    + intros xs err [_ [a Ha]]. discriminate.
Qed.

Ltac one_poll :=
  unfold observes; autounfold with installer; post_walk; simpl; split; eauto.

Lemma checkPodRunning_polls pod :
  observes pace (checkPodRunning handle g pod) (fun xs r => xs = [Poll] /\ exists a, r = Ok a).
Proof. one_poll. Qed.

Lemma checkRESTInterface_polls x :
  observes pace (checkRESTInterface handle x) (fun xs r => xs = [Poll] /\ exists a, r = Ok a).
Proof. one_poll. Qed.

Lemma checkPVCBound_polls x :
  observes pace (checkPVCBound handle g x) (fun xs r => xs = [Poll] /\ exists a, r = Ok a).
Proof. one_poll. Qed.

Lemma RetryNotify_unscheduled {S A} (operation : S -> M W (Attempt S A)) b captured :
  (forall x, unseen scheduled (operation x)) ->
  unseen scheduled (RetryNotify handle operation b notifyDebug captured).
Proof.
  intros Hop. apply emits_RetryNotify; [exact Hop | | reflexivity].
  intros err d s. constructor.
Qed.

(** A wait that creates its back-off and retries. *)
Lemma retried_wait {S A B} (operation : S -> M W (Attempt S A)) captured
    (f : Attempt S A -> M W B) :
  (forall x, observes pace (operation x) (fun xs r => xs = [Poll] /\ exists a, r = Ok a)) ->
  (forall x, unseen scheduled (operation x)) ->
  (forall a, unseen pace (f a)) -> (forall a, unseen scheduled (f a)) ->
  (forall a s, failedWith (result_of (f (Done _ _ a)) s) = false) ->
  post (bind (call handle (NewExponentialBackOff (k8sTimeout g)))
          (fun b => bind (RetryNotify handle operation b notifyDebug captured) f))
    (waitPaced (k8sTimeout g)).
Proof.
  intros Hpoll Hsched Hf1 Hf2 Hdone.
  apply post_bind, post_call. intros b s.
  rewrite trace_bind, result_bind.
  pose proof (RetryNotify_paced operation b captured Hpoll s) as (k & Hk & Hxs & Hr).
  pose proof (RetryNotify_unscheduled operation b captured Hsched s) as Hu.
  apply (omap_unseen scheduled) in Hu. simpl in Hxs.
  set (t1 := trace_of (RetryNotify handle operation b notifyDebug captured) s) in *.
  set (s1 := state_of (RetryNotify handle operation b notifyDebug captured) s) in *.
  destruct (result_of (RetryNotify handle operation b notifyDebug captured) s)
    as [att|err]; [|contradiction].
  exists b, k. rewrite !omap_app, Hu, Hxs.
  rewrite (unseen_trace pace (f att) s1 (Hf1 att)).
  rewrite (unseen_trace scheduled (f att) s1 (Hf2 att)).
  rewrite !app_nil_r. repeat split; try assumption.
  destruct att as [a|c e]; [|intros _; exact Hr].
  rewrite Hdone. discriminate.
Qed.

(** X12. Each of the three readiness waits asks for a back-off bounded
    by the timeout of the command, polls once, and then pauses and polls
    again for the increments the back-off hands out, in order: never more
    polls than increments plus one, and no error before the increments are
    used up.  The wait for the claim polls once before that, and asks for
    no back-off when the claim is already bound. *)
Theorem waits_follow_the_schedule :
  post (waitForTridentPod handle client g) (waitPaced (k8sTimeout g))
  /\ post (waitForRESTInterface handle g) (waitPaced (k8sTimeout g))
  /\ post (waitForPVCBound handle g)
       (fun t r =>
          exists answer t',
            t = Ev (CheckPVCBound (pvcName g)) answer :: t'
            /\ if boundNow answer then t' = [] /\ r = Ok tt
               else waitPaced (k8sTimeout g) t' r).
Proof.
  split; [|split].
  - unfold waitForTridentPod. apply retried_wait.
    + apply checkPodRunning_polls.
    + intros x. emits_walk reflexivity.
    + intros a. emits_walk reflexivity.
    + intros a. emits_walk reflexivity.
    + intros a s. reflexivity.
  - unfold waitForRESTInterface. apply retried_wait.
    + apply checkRESTInterface_polls.
    + intros x. emits_walk reflexivity.
    + intros a. emits_walk reflexivity.
    + intros a. emits_walk reflexivity.
    + intros a s. reflexivity.
  - unfold waitForPVCBound. apply post_bind.
    unfold checkPVCBound at 1. apply post_bind, post_call. intros answer.
    assert (Hlater : post
              (bind (call handle (NewExponentialBackOff (k8sTimeout g)))
                 (fun pvcBackoff =>
                    bind (RetryNotify handle (checkPVCBound handle g) pvcBackoff notifyDebug tt)
                      (fun r =>
                         match r with
                         | Again _ _ _ err =>
                             fail ("PVC " +:+ pvcName g +:+ " was not bound after " +:+
                                   fmt_d (k8sTimeout g) +:+ " seconds")
                         | Done _ _ _ => ret tt
                         end)))
              (waitPaced (k8sTimeout g))).
    { apply retried_wait.
      - apply checkPVCBound_polls.
      - intros x. emits_walk reflexivity.
      - intros a. emits_walk reflexivity.
      - intros a. emits_walk reflexivity.
      - intros a s. reflexivity. }
    destruct answer as [[|]|err]; apply post_ret; simpl.
    + apply post_ret. exists (Ok true). eexists. split; [reflexivity|]. split; reflexivity.
    + eapply post_conseq; [exact Hlater|]. intros t r H.
      exists (Ok false), t. split; [reflexivity | exact H].
    + eapply post_conseq; [exact Hlater|]. intros t r H.
      exists (Err err), t. split; [reflexivity | exact H].
Qed.

End Pacing.

(** ** The wait for the pod *)

Section PodWait.
Context {T : Types} {C : Collaborators} {W : Type}.
Variable handle : Handler W.
Variable client : ClusterFacts.
Variable g : Flags.

(** What [RetryNotify] returns is what its last attempt returned. *)
Lemma RetryNotify_last {X S A} (obs : Event -> option X) (Q : list X -> Attempt S A -> Prop)
    (operation : S -> M W (Attempt S A)) (b : list Duration) captured :
  (forall x, observes obs (operation x) (fun xs r => exists att, r = Ok att /\ Q xs att)) ->
  (forall d r, obs (Ev (Sleep d) r) = None) ->
  observes obs (RetryNotify handle operation b notifyDebug captured)
    (fun xs r => exists att before attempt,
                   r = Ok att /\ xs = before ++ attempt /\ Q attempt att).
Proof.
  intros Hop Hsleep. revert captured. induction b as [|next b IH]; intros captured; simpl.
  - eapply observes_seq; [apply Hop | |].
    + intros xs att (att' & [= <-] & HQ).
      destruct att as [a|x err]; unfold observes; apply post_ret; rewrite app_nil_r;
        eexists _, [], xs; eauto.
    + intros xs err (att & Hatt & _). discriminate.
  - eapply observes_seq; [apply Hop | |].
    + intros xs att (att' & [= <-] & HQ). destruct att as [a|x err].
      * unfold observes. apply post_ret. rewrite app_nil_r. eexists _, [], xs; eauto.
      * unfold notifyDebug, observes. apply post_bind, post_ret, post_bind, post_call.
        intros []. eapply post_conseq; [apply IH|].
        intros t r (att & before & attempt & -> & Hxs & HQ'). simpl.
        rewrite Hsleep. change (list_omap Event X obs t) with (omap obs t). rewrite Hxs.
        exists att, (xs ++ before), attempt. rewrite app_assoc. eauto.
    + intros xs err (att & Hatt & _). discriminate.
Qed.

Lemma checkPodRunning_attempt pod :
  observes polledPod (checkPodRunning handle g pod)
    (fun xs r => exists att, r = Ok att /\ podAttempted g xs att).
Proof.
  unfold observes, checkPodRunning, podAttempted, foundRunning.
  post_walk; simpl; eexists; (split; [reflexivity|]); eexists; (split; [reflexivity|]);
    simpl;
    repeat match goal with
           | H : negb _ = true |- _ => apply negb_true_iff in H
           | H : negb _ = false |- _ => apply negb_false_iff in H
           end;
    repeat match goal with H : (_ =? _) = _ |- _ => rewrite H end; auto.
Qed.

Lemma polls_of_wait d (b : list Duration) (t1 rest : list Event) :
  Forall (fun e => polledPod e = None) rest ->
  omap polledPod ([Ev (NewExponentialBackOff d) b] ++ t1 ++ rest) = omap polledPod t1.
Proof.
  intros H. rewrite !omap_app, (omap_unseen polledPod rest H), app_nil_r. reflexivity.
Qed.

Lemma last_of_wait (e line : Event) (t1 : list Event) :
  last ([e] ++ t1 ++ [line] ++ []) = Some line.
Proof. rewrite app_nil_r, app_assoc. apply last_snoc. Qed.

(** X13. The wait for the pod polls for the pod with the app label, in
    the namespace of the client, and the answer to the last poll decides:
    the wait returns the pod of that answer, which is in the Running
    phase, or it fails with [pod not running] after an Error line whose
    details (phase, message, the command to describe the pod) are those of
    the pod of the last answer, and are missing when the last poll failed. *)
Theorem pod_wait_is_decided_by_last_poll :
  post (waitForTridentPod handle client g) (podWaited client g).
Proof.
  unfold waitForTridentPod, podWaited.
  apply post_bind, post_call. intros podBackoff.
  eapply post_seq with
    (Q := fun t r =>
            (exists att before attempt,
               r = Ok att /\ omap polledPod t = before ++ attempt /\ podAttempted g attempt att)
            /\ Forall (fun e => match polledPod e with
                                | Some p => fst p = (appLabel g, false)
                                | None => True
                                end) t).
  - apply post_and.
    + exact (RetryNotify_last polledPod (podAttempted g) (checkPodRunning handle g) podBackoff None
               checkPodRunning_attempt (fun _ _ => eq_refl)).
    + assert (H : emits (fun e => match polledPod e with
                                  | Some p => fst p = (appLabel g, false)
                                  | None => True
                                  end)
                    (RetryNotify handle (checkPodRunning handle g) podBackoff notifyDebug None)).
      { emits_walk (simpl; auto). }
      exact H.
  - intros t1 att [(att' & before & attempt & [= <-] & Hxs & (answer & -> & Hatt)) Hall].
    assert (Hlabels : Forall (fun p => fst p = (appLabel g, false)) (omap polledPod t1)).
    { clear -Hall. induction Hall as [|e t He _ IH]; simpl; [constructor|].
      destruct (polledPod e); [constructor; assumption | exact IH]. }
    assert (Hlast : last (omap polledPod t1) = Some (appLabel g, false, answer))
      by (rewrite Hxs; apply last_snoc).
    destruct att as [pod|pod err].
    + apply post_ret. exists answer.
      rewrite (polls_of_wait _ _ t1 []) by constructor.
      split; [exact Hlast|]. split; [exact Hlabels | exact Hatt].
    + destruct Hatt as (-> & Hnot & ->).
      apply post_bind, post_log, post_fail. exists answer.
      rewrite last_of_wait.
      rewrite (polls_of_wait _ _ t1 ([_] ++ [])) by (repeat constructor).
      split; [exact Hlast|]. split; [exact Hlabels|].
      split; [reflexivity|]. split; [exact Hnot|].
      unfold podTimeoutLine.
      destruct answer as [pod|e]; [|reflexivity].
      destruct (pod_Status_Phase pod =? EmptyString); simpl; [reflexivity|].
      destruct (pod_Status_Message pod =? EmptyString); reflexivity.
  - intros t1 err [(att & before & attempt & Hr & _) _]. discriminate.
Qed.

End PodWait.

(** ** The wait for the REST interface *)

Section RESTWait.
Context {T : Types} {C : Collaborators} {W : Type}.
Variable handle : Handler W.
Variable client : ClusterFacts.
Variable g : Flags.

Lemma trace_ret {A} (a : A) (s : St W) : trace_of (ret a) s = [].
Proof. reflexivity. Qed.

Lemma result_ret {A} (a : A) (s : St W) : result_of (ret a) s = Ok a.
Proof. reflexivity. Qed.

Lemma state_ret {A} (a : A) (s : St W) : state_of (ret a) s = s.
Proof. reflexivity. Qed.

Lemma trace_wrapError {A} wrap (m : M W A) (s : St W) :
  trace_of (wrapError wrap m) s = trace_of m s.
Proof. unfold trace_of, wrapError. destruct (m s) as [[s1 t1] [a|e]]; reflexivity. Qed.

Lemma result_wrapError {A} wrap (m : M W A) (s : St W) :
  result_of (wrapError wrap m) s
  = match result_of m s with
    | Ok a => Ok a
    | Err err => Err (wrap err)
    end.
Proof. unfold result_of, wrapError. destruct (m s) as [[s1 t1] [a|e]]; reflexivity. Qed.

Lemma restAttempt_error answer :
  match restAttempt answer with
  | Done _ _ _ => restError answer = None
  | Again _ _ _ err => restError answer = Some err
  end.
Proof.
  destruct answer as [out [err|]]; simpl.
  - destruct (out =? EmptyString); reflexivity.
  - destruct (UnmarshalServerVersion out); reflexivity.
Qed.

Lemma checkRESTInterface_run (s : St W) :
  let answer := snd (handle _ (Exec (TridentPodName s) ContainerTrident versionCommand)
                       (world s)) in
  trace_of (checkRESTInterface handle tt) s
  = [Ev (Exec (TridentPodName s) ContainerTrident versionCommand) answer]
  /\ result_of (checkRESTInterface handle tt) s = Ok (restAttempt answer)
  /\ TridentPodName (state_of (checkRESTInterface handle tt) s) = TridentPodName s.
Proof.
  unfold checkRESTInterface, trace_of, result_of, state_of, bind, get_TridentPodName, call,
    versionCommand.
  destruct (handle _ _ (world s)) as [w [out [err|]]]; simpl.
  - destruct (negb (out =? EmptyString)); simpl; repeat split.
  - destruct (UnmarshalServerVersion out); simpl; repeat split.
Qed.

(** The course of the retries: every attempt runs the version command in
    the pod named by [TridentPodName], and the last attempt decides. *)
Lemma RetryNotify_rest (b : list Duration) (s : St W) :
  let m := RetryNotify handle (checkRESTInterface handle) b notifyDebug tt in
  exists asks answer,
    omap readiness (trace_of m s)
    = asks ++ [VersionAsked (TridentPodName s) ContainerTrident versionCommand answer]
    /\ Forall (asksVersionIn (TridentPodName s)) asks
    /\ result_of m s = Ok (restAttempt answer)
    /\ TridentPodName (state_of m s) = TridentPodName s.
Proof.
  cbv zeta. revert s. induction b as [|next b IH]; intros s; simpl RetryNotify;
    rewrite trace_bind, result_bind, state_bind;
    destruct (checkRESTInterface_run s) as (Ht & Hr & Hs); simpl in Ht, Hr;
    rewrite Ht, Hr; clear Ht Hr;
    set (answer := snd (handle _ (Exec (TridentPodName s) ContainerTrident versionCommand)
                          (world s))) in *;
    set (s1 := state_of (checkRESTInterface handle tt) s) in *.
  - exists [], answer. destruct (restAttempt answer) eqn:E; simpl; repeat split; auto.
  - destruct (restAttempt answer) as [version|[] err] eqn:E.
    + exists [], answer. simpl. rewrite E. repeat split; auto.
    + unfold notifyDebug in IH |- *.
      repeat (progress (rewrite ?trace_bind, ?result_bind, ?state_bind, ?trace_call,
                          ?result_call, ?trace_ret, ?result_ret, ?state_ret; cbv iota)).
      set (s2 := state_of (call handle (Sleep next)) s1).
      assert (Hs2 : TridentPodName s2 = TridentPodName s).
      { unfold s2. rewrite state_call. exact Hs. }
      destruct (IH s2) as (asks & answer' & Hxs & Hall & Hr & Hname).
      rewrite Hs2 in *.
      exists (VersionAsked (TridentPodName s) ContainerTrident versionCommand answer :: asks),
        answer'.
      rewrite !omap_app, Hxs. simpl. repeat split; auto.
      constructor; [eexists; reflexivity | exact Hall].
Qed.

Lemma waitForRESTInterface_readied (s : St W) :
  exists asks answer,
    omap readiness (trace_of (waitForRESTInterface handle g) s)
    = asks ++ [VersionAsked (TridentPodName s) ContainerTrident versionCommand answer]
    /\ Forall (asksVersionIn (TridentPodName s)) asks
    /\ result_of (waitForRESTInterface handle g) s
       = match restError answer with
         | Some err => Err err
         | None => Ok tt
         end.
Proof.
  unfold waitForRESTInterface.
  rewrite trace_bind, result_bind, trace_call, result_call. cbv iota.
  rewrite trace_bind, result_bind.
  set (b := snd (handle _ (NewExponentialBackOff (k8sTimeout g)) (world s))).
  set (s1 := state_of (call handle (NewExponentialBackOff (k8sTimeout g))) s).
  assert (Hs1 : TridentPodName s1 = TridentPodName s)
    by (unfold s1; rewrite state_call; reflexivity).
  destruct (RetryNotify_rest b s1) as (asks & answer & Hxs & Hall & Hr & _).
  rewrite Hs1 in *. rewrite Hr. cbv iota.
  exists asks, answer. rewrite !omap_app, Hxs.
  pose proof (restAttempt_error answer) as He.
  destruct (restAttempt answer) as [version|[] err]; rewrite He; simpl.
  - rewrite app_nil_r. repeat split; auto.
  - rewrite app_nil_r. repeat split; auto.
Qed.

Lemma checkPodRunning_readied pod :
  observes readiness (checkPodRunning handle g pod)
    (fun xs r => exists att, r = Ok att /\ podPolledOnce g xs att).
Proof.
  unfold observes, checkPodRunning, podPolledOnce, foundRunning.
  post_walk; simpl; eexists; (split; [reflexivity|]); eexists; (split; [reflexivity|]);
    simpl;
    repeat match goal with
           | H : negb _ = true |- _ => apply negb_true_iff in H
           | H : negb _ = false |- _ => apply negb_false_iff in H
           end;
    repeat match goal with H : (_ =? _) = _ |- _ => rewrite H end; auto.
Qed.

Lemma waitForTridentPod_readied :
  observes readiness (waitForTridentPod handle client g)
    (fun xs r =>
       exists polls answer,
         xs = polls ++ [PodPolled (appLabel g) false answer]
         /\ Forall (pollsForApp g) polls
         /\ match r with
            | Ok pod => foundRunning answer = Some pod
            | Err _ => foundRunning answer = None
            end).
Proof.
  unfold waitForTridentPod, observes.
  apply post_bind, post_call. intros podBackoff.
  eapply post_seq with
    (Q := fun t r =>
            (exists att before attempt,
               r = Ok att /\ omap readiness t = before ++ attempt
               /\ podPolledOnce g attempt att)
            /\ Forall (fun e => match readiness e with
                                | Some x => pollsForApp g x
                                | None => True
                                end) t).
  - apply post_and.
    + exact (RetryNotify_last handle readiness (podPolledOnce g) (checkPodRunning handle g) podBackoff
               None checkPodRunning_readied (fun _ _ => eq_refl)).
    + assert (H : emits (fun e => match readiness e with
                                  | Some x => pollsForApp g x
                                  | None => True
                                  end)
                    (RetryNotify handle (checkPodRunning handle g) podBackoff notifyDebug None)).
      { emits_walk (simpl; first [exact I | eexists; reflexivity]). }
      exact H.
  - intros t1 att [(att' & before & attempt & [= <-] & Hxs & (answer & -> & Hatt)) Hall].
    assert (Hpolls : Forall (pollsForApp g) before).
    { assert (H : Forall (pollsForApp g) (omap readiness t1)).
      { clear -Hall. induction Hall as [|e t He _ IH]; simpl; [constructor|].
        destruct (readiness e); [constructor; assumption | exact IH]. }
      rewrite Hxs in H. apply Forall_app in H. apply H. }
    destruct att as [pod|pod err].
    + apply post_ret. exists before, answer.
      rewrite !omap_app, Hxs. simpl. rewrite app_nil_r. auto.
    + apply post_bind, post_log, post_fail. exists before, answer.
      rewrite !omap_app, Hxs. simpl. rewrite app_nil_r. auto.
  - intros t1 err [(att & before & attempt & Hr & _) _]. discriminate.
Qed.

(** The last two steps of the installation: the wait for the pod, and the
    wait for the REST interface in the pod that was found. *)
Lemma readiness_steps :
  observes readiness
    (bind (waitForTridentPod handle client g)
       (fun tridentPod =>
          bind (set_TridentPodName (pod_Name tridentPod))
            (fun _ => wrapError (fun err => err +:+ "; use 'tridentctl logs' to learn more")
                        (waitForRESTInterface handle g))))
    (fun xs r =>
       (Forall (pollsForApp g) xs /\ r <> Ok tt)
       \/ exists polls pod asks answer,
            xs = polls ++ PodPolled (appLabel g) false (Ok pod)
                       :: asks ++ [VersionAsked (pod_Name pod) ContainerTrident versionCommand
                                     answer]
            /\ Forall (pollsForApp g) polls
            /\ pod_Status_Phase pod = PodRunning
            /\ Forall (asksVersionIn (pod_Name pod)) asks
            /\ r = match restError answer with
                   | Some err => Err (err +:+ "; use 'tridentctl logs' to learn more")
                   | None => Ok tt
                   end).
Proof.
  intros s. rewrite trace_bind, result_bind.
  pose proof (waitForTridentPod_readied s) as (polls & answer & Hxs & Hpolls & Hr).
  simpl in Hxs.
  set (s1 := state_of (waitForTridentPod handle client g) s) in *.
  destruct (result_of (waitForTridentPod handle client g) s) as [pod|err].
  - right. rewrite trace_bind, result_bind. cbn [trace_of result_of state_of set_TridentPodName
                                                 fst snd app].
    set (s2 := {| world := world s1; TridentPodName := pod_Name pod;
                  CurrentDriverContext := CurrentDriverContext s1;
                  OrchestratorTelemetry := OrchestratorTelemetry s1 |}).
    destruct (waitForRESTInterface_readied s2) as (asks & answer' & Hys & Hasks & Hr').
    unfold foundRunning in Hr. destruct answer as [pod'|e]; [|discriminate].
    destruct (pod_Status_Phase pod' =? PodRunning) eqn:Hphase; [|discriminate].
    injection Hr as ->. apply String.eqb_eq in Hphase.
    exists polls, pod, asks, answer'.
    split; [|split; [exact Hpolls|split; [exact Hphase|split; [exact Hasks|]]]].
    + rewrite omap_app, trace_wrapError, Hxs, Hys.
      rewrite <- app_assoc. reflexivity.
    + rewrite result_wrapError, Hr'. destruct (restError answer'); reflexivity.
  - left. rewrite app_nil_r. change (omap readiness _) with
      (omap readiness (trace_of (waitForTridentPod handle client g) s)).
    rewrite Hxs. split; [|discriminate].
    apply Forall_app. split; [exact Hpolls|]. constructor; [eexists; reflexivity | constructor].
Qed.

Lemma readied_failed err : readied g [] (Err err).
Proof. left. split; [constructor|]. split; [reflexivity | discriminate]. Qed.

(** X14. To see that Trident is up, a run polls for the pod with the app
    label until an answer shows it in the Running phase, and then asks the
    Trident server for its version, with the same command, in the Trident
    container of that very pod, until an answer parses.  The last answer
    decides the run: it succeeds, or it fails with what was wrong with the
    last answer and the advice to look at the logs.  A run that does not
    get to ask for the version does not succeed, unless it is a dry run,
    which makes none of these checks. *)
Theorem readiness_checks_decide_the_run (s : St W) :
  readied g (omap readiness (trace_of (installTrident handle client g) s))
    (result_of (installTrident handle client g) s).
Proof.
  revert s. change (observes readiness (installTrident handle client g) (readied g)).
  unfold installTrident.
  apply observes_skip; [emits_walk reflexivity | apply readied_failed |].
  intros [[[ns pe] pv] sb]. destruct (dryRun g) eqn:Hdry.
  { apply observes_unseen; [emits_walk reflexivity|]. intros r. left.
    split; [constructor|]. rewrite Hdry. split; [reflexivity | discriminate]. }
  unfold installSteps.
  apply observes_skip; [emits_walk reflexivity | apply readied_failed | intros _].
  apply observes_skip; [emits_walk reflexivity | apply readied_failed | intros _].
  apply observes_skip; [emits_walk reflexivity | apply readied_failed | intros _].
  apply observes_skip; [emits_walk reflexivity | apply readied_failed | intros _].
  apply observes_skip; [emits_walk reflexivity | apply readied_failed | intros _].
  apply observes_skip; [emits_walk reflexivity | apply readied_failed | intros _].
  apply observes_skip; [emits_walk reflexivity | apply readied_failed | intros _].
  eapply observes_conseq; [apply readiness_steps|].
  intros xs r [[Hpolls Hr]|H]; [left | right; exact H].
  split; [exact Hpolls|]. rewrite Hdry. split; [discriminate | intros _; exact Hr].
Qed.

End RESTWait.

(** ** Workload objects are created after the claim is bound *)

Section AfterBound.
Context {T : Types} {C : Collaborators} {W : Type}.
Variable handle : Handler W.
Variable client : ClusterFacts.
Variable g : Flags.

Lemma afterBound_true t : afterBound g true t = true.
Proof. induction t as [|e t IH]; [reflexivity | exact IH]. Qed.

Lemma afterBound_app bound t1 t2 :
  afterBound g bound (t1 ++ t2)
  = afterBound g bound t1 && afterBound g (bound || existsb (seesBound g) t1) t2.
Proof.
  revert bound. induction t1 as [|e t1 IH]; intros bound; simpl.
  - rewrite orb_false_r. reflexivity.
  - rewrite IH, andb_assoc, orb_assoc. reflexivity.
Qed.

Lemma afterBound_mono bound t : afterBound g false t = true -> afterBound g bound t = true.
Proof. destruct bound; [intros _; apply afterBound_true | exact id]. Qed.

Lemma afterBound_none bound t :
  Forall (fun e => isWorkloadCreation g e = false) t -> afterBound g bound t = true.
Proof.
  intros H. revert bound. induction H as [|e t He _ IH]; intros bound; simpl; [reflexivity|].
  rewrite He, orb_true_r, IH. reflexivity.
Qed.

(** A step that submits no workload object, before the rest of the run. *)
Lemma afterBound_skip {A B} (m : M W A) (f : A -> M W B) :
  emits (fun e => isWorkloadCreation g e = false) m ->
  (forall a, post (f a) (fun t _ => afterBound g false t = true)) ->
  post (bind m f) (fun t _ => afterBound g false t = true).
Proof.
  intros Hm Hf s. rewrite trace_bind, afterBound_app, (afterBound_none _ _ (Hm s)). simpl.
  destruct (result_of m s) as [a|err]; [|reflexivity].
  apply afterBound_mono, Hf.
Qed.

(** A step that submits no workload object and, when it succeeds, has
    seen the claim bound: what follows is free to submit. *)
Lemma afterBound_now {A B} (m : M W A) (f : A -> M W B) :
  post m (fun t r => Forall (fun e => isWorkloadCreation g e = false) t
                     /\ (forall a, r = Ok a -> existsb (seesBound g) t = true)) ->
  post (bind m f) (fun t _ => afterBound g false t = true).
Proof.
  intros Hm s. rewrite trace_bind, afterBound_app. destruct (Hm s) as [Hnone Hbound].
  rewrite (afterBound_none _ _ Hnone). simpl.
  destruct (result_of m s) as [a|err]; [|reflexivity].
  rewrite (Hbound a eq_refl). apply afterBound_true.
Qed.

Lemma checkPVCBound_looked x :
  observes claimPolled (checkPVCBound handle g x)
    (fun xs r => exists att, r = Ok att /\ lookedOnce g xs att).
Proof.
  unfold observes, checkPVCBound, lookedOnce.
  post_walk; simpl; eexists; (split; [reflexivity|]); eexists; (split; [reflexivity|]); auto.
Qed.

Lemma seen_bound t before :
  omap claimPolled t = before ++ [(pvcName g, Ok true)] -> existsb (seesBound g) t = true.
Proof.
  intros H. apply existsb_exists.
  assert (Hin : (pvcName g, Ok true) ∈ omap claimPolled t).
  { rewrite H. apply elem_of_app. right. apply list_elem_of_here. }
  apply list_elem_of_omap in Hin as (e & He & Hobs). exists e.
  split; [apply list_elem_of_In; exact He|].
  unfold seesBound. rewrite Hobs. apply String.eqb_refl.
Qed.

Lemma waitForPVCBound_bound :
  post (waitForPVCBound handle g)
    (fun t r => Forall (fun e => isWorkloadCreation g e = false) t
                /\ (forall a, r = Ok a -> existsb (seesBound g) t = true)).
Proof.
  apply post_and.
  - assert (H : emits (fun e => isWorkloadCreation g e = false) (waitForPVCBound handle g)).
    { emits_walk observe_call. }
    exact H.
  - unfold waitForPVCBound.
    eapply post_seq; [exact (checkPVCBound_looked tt) | |].
    + intros t1 [[]|[] err] (att & [= <-] & answer & Hxs & Hatt).
      * apply post_ret. intros _ _. rewrite app_nil_r. subst answer.
        exact (seen_bound t1 [] Hxs).
      * apply post_bind, post_call. intros pvcBackoff.
        eapply post_seq;
          [exact (RetryNotify_last handle claimPolled (lookedOnce g) (checkPVCBound handle g)
                    pvcBackoff tt checkPVCBound_looked (fun _ _ => eq_refl)) | |].
        -- intros t2 [[]|[] err2] (att & before & attempt & [= <-] & Hys & (answer' & -> & Hatt')).
           ++ apply post_ret. intros _ _. subst answer'.
              rewrite !existsb_app. rewrite (seen_bound t2 before Hys).
              rewrite !orb_true_r. reflexivity.
           ++ apply post_fail. discriminate.
        -- intros t2 err2 (att & before & attempt & Hr & _). discriminate.
    + intros t1 err (att & Hr & _). discriminate.
Qed.

(** X15. No workload object (deployment, service, stateful-set,
    daemon-set) is submitted before a look at the claim of the installation
    has shown it bound. *)
Theorem workloads_wait_for_bound_claim (s : St W) :
  afterBound g false (trace_of (installTrident handle client g) s) = true.
Proof.
  revert s.
  change (post (installTrident handle client g) (fun t _ => afterBound g false t = true)).
  unfold installTrident.
  apply afterBound_skip; [emits_walk observe_call|].
  intros [[[ns pe] pv] sb]. destruct (dryRun g).
  { apply post_ret. reflexivity. }
  unfold installSteps.
  apply afterBound_skip; [emits_walk observe_call | intros _].
  apply afterBound_skip; [emits_walk observe_call | intros _].
  apply afterBound_skip; [emits_walk observe_call | intros _].
  apply afterBound_skip; [emits_walk observe_call | intros _].
  apply afterBound_skip; [emits_walk observe_call | intros _].
  apply afterBound_now, waitForPVCBound_bound.
Qed.

End AfterBound.

(** ** Custom files are validated before they are applied *)

Section FileUse.
Context {T : Types} {C : Collaborators} {W : Type}.
Variable handle : Handler W.
Variable client : ClusterFacts.
Variable g : Flags.

Lemma justifiedFrom_sound seen xs before path after :
  justifiedFrom g seen xs ->
  xs = before ++ Applied path :: after ->
  useYAML g = true /\ path ∈ setupYAMLPaths g /\ Found path ∈ seen ++ before
  /\ (needsValidation g path = true -> Passed path ∈ seen ++ before).
Proof.
  revert seen before. induction xs as [|x xs IH]; intros seen before Hxs Heq.
  - destruct before; discriminate Heq.
  - destruct Hxs as [Hx Hxs]. destruct before as [|y before]; simpl in Heq.
    + injection Heq as -> ->. rewrite app_nil_r. apply Hx. reflexivity.
    + injection Heq as <- ->.
      specialize (IH _ _ Hxs eq_refl). rewrite <- !app_assoc in IH. exact IH.
Qed.

Lemma justifiedFrom_justified xs : justifiedFrom g [] xs -> justified g xs.
Proof. intros H before path after Heq. exact (justifiedFrom_sound [] xs before path after H Heq). Qed.

Lemma justified_nil : justified g [].
Proof. intros [|x before] path after H; discriminate H. Qed.

Lemma justified_app xs ys : justified g xs -> justified g ys -> justified g (xs ++ ys).
Proof.
  intros Hx Hy before path after Heq.
  apply app_eq_app in Heq as [l [[-> Hl]|[-> Hl]]].
  - destruct l as [|x l]; simpl in Hl.
    + destruct (Hy [] path after (eq_sym Hl)) as (H1 & H2 & H3 & H4).
      apply elem_of_nil in H3. contradiction.
    + injection Hl as <- ->. exact (Hx before path l eq_refl).
  - destruct (Hy l path after Hl) as (H1 & H2 & H3 & H4). repeat split; auto.
    + apply elem_of_app. right. exact H3.
    + intros Hv. apply elem_of_app. right. exact (H4 Hv).
Qed.

Lemma justified_bind {A B} (m : M W A) (f : A -> M W B) :
  observes (fileUse g) m (fun xs _ => justified g xs) ->
  (forall a, observes (fileUse g) (f a) (fun xs _ => justified g xs)) ->
  observes (fileUse g) (bind m f) (fun xs _ => justified g xs).
Proof.
  intros Hm Hf. eapply observes_seq; [exact Hm | |].
  - intros xs a Hx. eapply observes_conseq; [apply Hf|].
    intros ys r Hy. apply justified_app; assumption.
  - intros xs err Hx. exact Hx.
Qed.

Lemma justified_unapplied {A} (m : M W A) :
  emits (fun e => forall path, fileUse g e <> Some (Applied path)) m ->
  observes (fileUse g) m (fun xs _ => justified g xs).
Proof.
  intros Hm s before path after Heq. exfalso.
  assert (Hin : Applied path ∈ omap (fileUse g) (trace_of m s)).
  { rewrite Heq. apply elem_of_app. right. apply list_elem_of_here. }
  apply list_elem_of_omap in Hin as (e & He & Hobs).
  specialize (Hm s). rewrite Forall_forall in Hm. exact (Hm e He path Hobs).
Qed.

Ltac member := repeat first [apply list_elem_of_here | apply list_elem_of_further].

Ltac justify_uses :=
  lazymatch goal with
  | |- True => exact I
  | |- _ /\ _ =>
      split;
      [ let path := fresh "path" in
        let Hin := fresh "Hin" in
        intros path Hin;
        first
          [ discriminate Hin
          | injection Hin as <-;
            (split; [assumption|]); (split; [unfold setupYAMLPaths; member|]);
            (split; [member|]);
            unfold needsValidation; autorewrite with setup_files;
            first [discriminate | intros _; member] ]
      | simpl; justify_uses ]
  end.

Ltac justify :=
  unfold observes; autounfold with installer; post_walk; simpl;
  unfold passed, claimAccepted, deploymentAccepted, serviceAccepted, statefulSetAccepted,
    daemonSetAccepted, labelled, nodeLabelled, hasTridentImage;
  repeat match goal with
         | H : negb _ = true |- _ => apply negb_true_iff in H
         | H : negb _ = false |- _ => apply negb_false_iff in H
         end;
  repeat match goal with H : (_ =? _) = _ |- _ => rewrite H end; simpl;
  apply justifiedFrom_justified; simpl; justify_uses.

Lemma createNamespace_justified namespaceExists :
  observes (fileUse g) (createNamespace handle g namespaceExists) (fun xs _ => justified g xs).
Proof. justify. Qed.

Lemma createRBACObjects_justified :
  observes (fileUse g) (createRBACObjects handle client g) (fun xs _ => justified g xs).
Proof. justify. Qed.

Lemma createPVC_justified pvcExists :
  observes (fileUse g) (createPVC handle g pvcExists) (fun xs _ => justified g xs).
Proof. justify. Qed.

Lemma createWorkloads_justified :
  observes (fileUse g) (createWorkloads handle g) (fun xs _ => justified g xs).
Proof.
  unfold createWorkloads. destruct (csi g).
  - apply justified_bind; [justify | intros _].
    apply justified_bind; [justify | intros _]. justify.
  - justify.
Qed.

Ltac no_file_applied := intros; simpl; discriminate.

(** X16. A file of the setup directory is applied to the cluster only if
    custom files were asked for, the file is one of the setup directory's
    and was found to exist earlier in the run; the files of the claim and
    of the workload objects are applied only after they were read and
    their contents accepted. *)
Theorem custom_files_are_checked_before_use (s : St W) :
  justified g (omap (fileUse g) (trace_of (installTrident handle client g) s)).
Proof.
  revert s.
  change (observes (fileUse g) (installTrident handle client g) (fun xs _ => justified g xs)).
  unfold installTrident.
  apply justified_bind; [apply justified_unapplied; emits_walk no_file_applied|].
  intros [[[ns pe] pv] sb]. destruct (dryRun g).
  { apply justified_unapplied. emits_walk no_file_applied. }
  unfold installSteps.
  apply justified_bind; [apply createNamespace_justified | intros _].
  apply justified_bind; [apply justified_unapplied; emits_walk no_file_applied | intros _].
  apply justified_bind; [apply createRBACObjects_justified | intros _].
  apply justified_bind; [apply createPVC_justified | intros _].
  apply justified_bind; [apply justified_unapplied; emits_walk no_file_applied | intros _].
  apply justified_bind; [apply justified_unapplied; emits_walk no_file_applied | intros _].
  apply justified_bind; [apply createWorkloads_justified | intros _].
  apply justified_unapplied; emits_walk no_file_applied.
Qed.

End FileUse.

(** ** The command *)

Section CommandRules.
Context {T : Types} {W : Type}.
Implicit Types s : St W.

Lemma ctrace_cbind {A B} (m : Cmd W A) (f : A -> Cmd W B) s :
  ctrace_of (cbind m f) s =
  ctrace_of m s ++ match cresult_of m s with
                   | Ok a => ctrace_of (f a) (cstate_of m s)
                   | Err _ => []
                   end.
Proof.
  unfold ctrace_of, cresult_of, cstate_of, cbind.
  destruct (m s) as [[s1 t1] [a|e]]; simpl.
  - destruct (f a s1) as [[s2 t2] r]; reflexivity.
  - symmetry; apply app_nil_r.
Qed.

Lemma cresult_cbind {A B} (m : Cmd W A) (f : A -> Cmd W B) s :
  cresult_of (cbind m f) s =
  match cresult_of m s with
  | Ok a => cresult_of (f a) (cstate_of m s)
  | Err e => Err e
  end.
Proof.
  unfold cresult_of, cstate_of, cbind.
  destruct (m s) as [[s1 t1] [a|e]]; simpl; [|reflexivity].
  destruct (f a s1) as [[s2 t2] r]; reflexivity.
Qed.

Lemma cpost_ret {A} (a : A) (P : list CmdEvent -> result A -> Prop) :
  P [] (Ok a) -> cpost (W:=W) (cret a) P.
Proof. intros H s; exact H. Qed.

Lemma cpost_fail {A} err (P : list CmdEvent -> result A -> Prop) :
  P [] (Err err) -> cpost (W:=W) (cfail err) P.
Proof. intros H s; exact H. Qed.

Lemma cpost_sys (host : SysHandler W) {R} (c : SysCall R)
    (P : list CmdEvent -> result R -> Prop) :
  (forall r, P [Sys c r] (Ok r)) -> cpost (sys host c) P.
Proof.
  intros H s. unfold ctrace_of, cresult_of, sys.
  destruct (host R c (world s)) as [w r]; simpl. apply H.
Qed.

Lemma cpost_log lvl fields msg (P : list CmdEvent -> result unit -> Prop) :
  P [Inst (Logged lvl fields msg)] (Ok tt) -> cpost (W:=W) (clog lvl fields msg) P.
Proof. intros H s; exact H. Qed.

Lemma cpost_bind {A B} (m : Cmd W A) (f : A -> Cmd W B)
    (P : list CmdEvent -> result B -> Prop) :
  cpost m (fun t1 r1 =>
             match r1 with
             | Ok a => cpost (f a) (fun t2 r => P (t1 ++ t2) r)
             | Err err => P t1 (Err err)
             end) ->
  cpost (cbind m f) P.
Proof.
  intros H s. rewrite ctrace_cbind, cresult_cbind. specialize (H s).
  destruct (cresult_of m s) as [a|e].
  - apply H.
  - rewrite app_nil_r. exact H.
Qed.

Lemma cpost_fatal {A} wrap (m : Cmd W A) (P : list CmdEvent -> result A -> Prop) :
  cpost m (fun t r => P t match r with Ok a => Ok a | Err err => Err (wrap err) end) ->
  cpost (fatal wrap m) P.
Proof.
  intros H s. specialize (H s). unfold ctrace_of, cresult_of, fatal in *.
  destruct (m s) as [[s1 t1] [a|e]]; exact H.
Qed.

Lemma cpost_inst {A} (m : M W A) (P : list CmdEvent -> result A -> Prop) :
  post m (fun t r => P (Inst <$> t) r) -> cpost (inst m) P.
Proof.
  intros H s. specialize (H s). unfold ctrace_of, cresult_of, trace_of, result_of, inst in *.
  destruct (m s) as [[s1 t1] r]; exact H.
Qed.

Lemma cpost_conseq {A} (m : Cmd W A) (P Q : list CmdEvent -> result A -> Prop) :
  cpost m Q -> (forall t r, Q t r -> P t r) -> cpost m P.
Proof. intros H HQ s. apply HQ, H. Qed.

Lemma cpost_seq {A B} (m : Cmd W A) (f : A -> Cmd W B)
    (Q : list CmdEvent -> result A -> Prop) (P : list CmdEvent -> result B -> Prop) :
  cpost m Q ->
  (forall t1 a, Q t1 (Ok a) -> cpost (f a) (fun t2 r => P (t1 ++ t2) r)) ->
  (forall t1 err, Q t1 (Err err) -> P t1 (Err err)) ->
  cpost (cbind m f) P.
Proof.
  intros HQ Hok Herr. apply cpost_bind. eapply cpost_conseq; [exact HQ|].
  intros t [a|e] H; [apply Hok | apply Herr]; exact H.
Qed.

End CommandRules.

(** Walks through a command in weakest-precondition style. *)
Ltac cpost_step :=
  lazymatch goal with
  | |- cpost (cret _) _ => apply cpost_ret
  | |- cpost (cfail _) _ => apply cpost_fail
  | |- cpost (clog _ _ _) _ => apply cpost_log
  | |- cpost (fatal _ _) _ => apply cpost_fatal
  | |- cpost (sys _ _) _ => apply cpost_sys; intros ?
  | |- cpost (cbind _ _) _ => apply cpost_bind
  | |- cpost (if ?b then _ else _) _ => destruct b eqn:?
  | |- cpost (match ?x with _ => _ end) _ => destruct x eqn:?
  end.

Ltac cpost_walk := repeat cpost_step.

(** Membership in an explicit list. *)
Ltac in_list := repeat first [apply list_elem_of_here | apply list_elem_of_further].

(** ** The client of the authorization service *)

Section UCPClient.
Context {T : Types} {C : Collaborators} {W : Type}.
Variable handle : Handler W.
Variable host : SysHandler W.
Variable build : BuildInfo.
Variable u : UCPFlags.

Lemma processInstallationArguments_rbac (g : Flags) :
  useKubernetesRBAC (processInstallationArguments g) = useKubernetesRBAC g.
Proof. unfold processInstallationArguments. destruct (csi g); reflexivity. Qed.

Lemma native_rbac_no_ucp_call client g :
  useKubernetesRBAC g = true ->
  emits (fun e => usesUCPClient (Inst e) = false) (installTrident handle client g).
Proof.
  intros Hrbac. unfold unseen. autounfold with installer. rewrite !Hrbac.
  emits_walk reflexivity.
Qed.

(** What the pre-run leaves: no use of the client, and either the mode of
    native RBAC or a client that was created. *)
Lemma PersistentPreRun_ucp g :
  cpost (PersistentPreRun host build u g)
    (fun t r =>
       Forall (fun e => usesUCPClient e = false) t
       /\ match r with
          | Ok (g', _) => useKubernetesRBAC g' = true \/ createdUCPClient u ∈ t
          | Err _ => True
          end).
Proof.
  unfold PersistentPreRun, initInstallerLogging, discoverInstallationEnvironment,
    prepareYAMLFilePaths.
  cpost_walk; simpl;
    (split; [repeat constructor|]); try exact I;
    rewrite processInstallationArguments_rbac; simpl;
    first [left; reflexivity | right; unfold createdUCPClient; in_list].
Qed.

Lemma clientCreatedBeforeUse_app t1 t2 :
  Forall (fun e => usesUCPClient e = false) t1 ->
  (createdUCPClient u ∈ t1 \/ Forall (fun e => usesUCPClient e = false) t2) ->
  clientCreatedBeforeUse u (t1 ++ t2).
Proof.
  intros H1 H2 i e Hi Huse.
  destruct (decide (i < length t1)%nat) as [Hlt|Hge].
  - rewrite lookup_app_l in Hi by exact Hlt.
    rewrite Forall_forall in H1. apply list_elem_of_lookup_2 in Hi.
    rewrite (H1 e Hi) in Huse. discriminate Huse.
  - rewrite lookup_app_r in Hi by lia.
    destruct H2 as [Hin|H2].
    + rewrite take_app_ge by lia. apply elem_of_app. left. exact Hin.
    + rewrite Forall_forall in H2. apply list_elem_of_lookup_2 in Hi.
      rewrite (H2 e Hi) in Huse. discriminate Huse.
Qed.

(** X17. In a run of the command, every call on the client of the
    external authorization service (UCP) comes after the successful
    creation of that client from the host and the token of the command
    line. *)
Theorem ucp_client_is_created_before_use (g : Flags) (s : St W) :
  clientCreatedBeforeUse u (ctrace_of (installCmd handle host build u g) s).
Proof.
  revert s. change (cpost (installCmd handle host build u g)
                      (fun t _ => clientCreatedBeforeUse u t)).
  unfold installCmd.
  eapply cpost_seq; [apply PersistentPreRun_ucp | |].
  - intros t1 [g' client] [Hnone Hmode]. unfold Run.
    destruct (generateYAML g').
    + apply cpost_fatal.
      eapply cpost_conseq with
        (Q := fun t _ => Forall (fun e => usesUCPClient e = false) t).
      * destruct (csi g'); unfold prepareCSIYAMLFiles, prepareYAMLFiles, cleanYAMLFiles,
          setupYAMLPaths, written, writeFile; simpl removeAll;
          cpost_walk; simpl; repeat constructor.
      * intros t2 _ H2. apply clientCreatedBeforeUse_app; [exact Hnone | right; exact H2].
    + apply cpost_fatal, cpost_inst.
      destruct Hmode as [Hmode|Hin].
      * intros s. apply clientCreatedBeforeUse_app; [exact Hnone | right].
        apply Forall_fmap. exact (native_rbac_no_ucp_call client g' Hmode s).
      * intros s. apply clientCreatedBeforeUse_app; [exact Hnone | left; exact Hin].
  - intros t1 err [Hnone _]. rewrite <- (app_nil_r t1).
    apply clientCreatedBeforeUse_app; [exact Hnone | right; constructor].
Qed.

End UCPClient.

(** ** Generation of the manifests *)

Section Generation.
Context {T : Types} {C : Collaborators} {W : Type}.
Variable handle : Handler W.
Variable host : SysHandler W.
Variable client : ClusterFacts.
Variable g : Flags.

Ltac written_in_order :=
  repeat first
    [ left; split; [reflexivity | discriminate]
    | right; eexists; split; [reflexivity|] ];
  try (split; reflexivity).

Ltac generation_walk :=
  unfold prepareCSIYAMLFiles, prepareYAMLFiles, cleanYAMLFiles, setupYAMLPaths, written,
    writeFile; simpl removeAll; cpost_walk.

Lemma generation_ops :
  cpost (if csi g then prepareCSIYAMLFiles host client g else prepareYAMLFiles host client g)
    (fun t r =>
       exists ops,
         fileOp <$> t = (Removed <$> setupYAMLPaths g) ++ ops
         /\ writtenInOrder (generatedFiles client g) ops r).
Proof.
  unfold generatedFiles. destruct (csi g);
    generation_walk; (eexists; split; [simpl; reflexivity|]); simpl; written_in_order.
Qed.

Lemma generation_done :
  cpost (if csi g then prepareCSIYAMLFiles host client g else prepareYAMLFiles host client g)
    (fun t r => r = Ok tt -> omap writtenFile t = generatedFiles client g).
Proof.
  unfold generatedFiles. destruct (csi g);
    generation_walk; simpl; intros Hr; first [discriminate Hr | reflexivity].
Qed.

Lemma Run_generating :
  Run handle host client (generating g)
  = fatal (fun err => "YAML generation failed; " +:+ err)
      (if csi g then prepareCSIYAMLFiles host client g else prepareYAMLFiles host client g).
Proof. reflexivity. Qed.

Lemma writtenInOrder_fatal wrap files ops (r : result unit) :
  writtenInOrder files ops r ->
  writtenInOrder files ops match r with Ok a => Ok a | Err err => Err (wrap err) end.
Proof.
  revert ops. induction files as [|[path data] files IH]; simpl; intros ops.
  - intros [-> ->]. split; reflexivity.
  - intros [[-> Hr]|(ops' & -> & H)].
    + left. split; [reflexivity|]. destruct r as [[]|err]; [congruence | discriminate].
    + right. exists ops'. split; [reflexivity | apply IH, H].
Qed.

(** X18. With [--generate-custom-yaml] the body of the command removes
    each of the nine manifest files of the setup directory, then writes
    the files of the topology in order, with mode 0644, stopping at the
    first write that fails, and does nothing else: it makes no call to the
    cluster and touches no other file.  It succeeds exactly when all the
    files of the topology were written. *)
Theorem generation_rewrites_the_setup_files (s : St W) :
  exists ops,
    fileOp <$> ctrace_of (Run handle host client (generating g)) s
    = (Removed <$> setupYAMLPaths g) ++ ops
    /\ writtenInOrder (generatedFiles client g) ops
         (cresult_of (Run handle host client (generating g)) s).
Proof.
  revert s. rewrite Run_generating.
  change (cpost (fatal (fun err => "YAML generation failed; " +:+ err)
                   (if csi g then prepareCSIYAMLFiles host client g
                    else prepareYAMLFiles host client g))
            (fun t r => exists ops,
                 fileOp <$> t = (Removed <$> setupYAMLPaths g) ++ ops
                 /\ writtenInOrder (generatedFiles client g) ops r)).
  apply cpost_fatal. eapply cpost_conseq; [apply generation_ops|].
  intros t r (ops & Ht & Hops). exists ops. split; [exact Ht|].
  apply writtenInOrder_fatal, Hops.
Qed.

Ltac default_manifest :=
  intros;
  match goal with
  | H : submittedManifest _ = Some _ |- _ =>
      simpl in H;
      first
        [ discriminate H
        | injection H as <-;
          first
            [ congruence
            | eexists; split;
              [ unfold generatedFiles; in_list
              | autorewrite with setup_files; reflexivity ] ] ]
  end.

(** Every manifest the installer submits as it is, other than those of
    the volume and of its secret, is one of the generated files. *)
Lemma submits_the_generated_files :
  emits (fun e =>
           forall y, submittedManifest e = Some y ->
             yamlKind y <> KPV -> yamlKind y <> KSecret ->
             exists path, (path, y) ∈ generatedFiles client g
                          /\ fileKind g path = Some (yamlKind y))
    (installTrident handle client g).
Proof.
  unfold generatedFiles. destruct (csi g) eqn:Hcsi.
  - autounfold with installer. rewrite !Hcsi. cbn [negb]. emits_walk default_manifest.
  - autounfold with installer. rewrite !Hcsi. cbn [negb]. emits_walk default_manifest.
Qed.

(** X19. The manifests that [--generate-custom-yaml] writes are the ones
    the installer submits when it uses no custom file: every manifest the
    installer submits as it is, other than those of the volume and of its
    secret, was written by a successful generation with the same settings,
    to the file of the setup directory for that kind of object. *)
Theorem generated_files_hold_the_defaults (s s' : St W) (y : YAML) :
  cresult_of (Run handle host client (generating g)) s' = Ok tt ->
  y ∈ omap submittedManifest (trace_of (installTrident handle client g) s) ->
  yamlKind y <> KPV ->
  yamlKind y <> KSecret ->
  exists path,
    (path, y) ∈ omap writtenFile (ctrace_of (Run handle host client (generating g)) s')
    /\ fileKind g path = Some (yamlKind y).
Proof.
  intros Hgen Hy Hpv Hsecret.
  apply list_elem_of_omap in Hy as (e & He & Hsub).
  pose proof (submits_the_generated_files s) as Hall. rewrite Forall_forall in Hall.
  destruct (Hall e He y Hsub Hpv Hsecret) as (path & Hin & Hkind).
  exists path. split; [|exact Hkind].
  revert Hgen. rewrite Run_generating.
  pose proof (generation_done s') as Hdone.
  unfold ctrace_of, cresult_of, fatal in *.
  destruct ((if csi g then prepareCSIYAMLFiles host client g
             else prepareYAMLFiles host client g) s') as [[s1 t1] [[]|err]]; simpl in *.
  - intros _. rewrite (Hdone eq_refl). exact Hin.
  - discriminate.
Qed.

End Generation.

Lemma generated_defaults_witness :
  let client := Demo.facts (1, 9, 0)%nat FlavorKubernetes in
  let generation := Run (Sim.handle Demo.noFaults) (Host.host client) client
                      (generating Demo.flags) in
  let run := installTrident (Sim.handle Demo.noFaults) client Demo.flags in
  let s := Demo.start (Demo.cluster Demo.nfsVolume) in
  let y := GetDeploymentYAML "trident" "netapp/trident:18.04.0" "quay.io/coreos/etcd:v3.1.5"
             "trident.netapp.io" false in
  cresult_of generation s = Ok tt
  /\ y ∈ omap submittedManifest (trace_of run s)
  /\ yamlKind y <> KPV
  /\ yamlKind y <> KSecret
  /\ exists path,
       (path, y) ∈ omap writtenFile (ctrace_of generation s)
       /\ fileKind Demo.flags path = Some (yamlKind y).
Proof.
  intros client generation run s y.
  assert (H1 : cresult_of generation s = Ok tt) by reflexivity.
  assert (H2 : y ∈ omap submittedManifest (trace_of run s))
    by (vm_compute; repeat constructor).
  assert (H3 : yamlKind y <> KPV) by discriminate.
  assert (H4 : yamlKind y <> KSecret) by discriminate.
  split; [exact H1|]. split; [exact H2|]. split; [exact H3|]. split; [exact H4|].
  exact (generated_files_hold_the_defaults (Sim.handle Demo.noFaults) (Host.host client)
           client Demo.flags s s y H1 H2 H3 H4).
Defined.

(** ** The namespace of the installation *)

Section Namespace.
Context {T : Types} {C : Collaborators} {W : Type}.
Variable handle : Handler W.
Variable host : SysHandler W.
Variable build : BuildInfo.
Variable u : UCPFlags.

Lemma processInstallationArguments_namespace (g : Flags) :
  TridentPodNamespace (processInstallationArguments g) = TridentPodNamespace g.
Proof. unfold processInstallationArguments. destruct (csi g); reflexivity. Qed.

Lemma validated_namespace (g : Flags) :
  validateInstallationArguments g = None -> isDNS1123Label (TridentPodNamespace g) = true.
Proof.
  unfold validateInstallationArguments. rewrite MatchString_label.
  destruct (isDNS1123Label (TridentPodNamespace g)); [reflexivity | discriminate].
Qed.

Lemma PersistentPreRun_namespace g :
  cpost (PersistentPreRun host build u g)
    (fun t r =>
       match r with
       | Ok (g', client') => namespaceSettled g t g' client'
       | Err _ => True
       end).
Proof.
  unfold PersistentPreRun, initInstallerLogging, discoverInstallationEnvironment,
    prepareYAMLFilePaths.
  cpost_walk; simpl; try exact I;
    match goal with
    | H : validateInstallationArguments _ = None |- _ =>
        apply validated_namespace in H;
        rewrite processInstallationArguments_namespace in H; simpl in H
    end;
    eexists; (split; [in_list|]);
    rewrite processInstallationArguments_namespace; simpl;
    unfold chosenNamespace;
    repeat match goal with H : (_ =? _) = _ |- _ => rewrite H end;
    (split; [reflexivity|]); (split; [assumption|]); reflexivity.
Qed.

(** X20. When the pre-run of the command succeeds, the namespace of the
    flags it hands on is the one of the command line or, when none was
    given there, the current namespace of the new client; that namespace
    is a DNS-1123 label; and the last thing the pre-run did was to direct
    the client to it, the client handed on being the one so directed. *)
Theorem prerun_settles_the_namespace (g g' : Flags) (client' : ClusterFacts) (s : St W) :
  cresult_of (PersistentPreRun host build u g) s = Ok (g', client') ->
  namespaceSettled g (ctrace_of (PersistentPreRun host build u g) s) g' client'.
Proof.
  intros Hr. pose proof (PersistentPreRun_namespace g s) as H. simpl in H.
  rewrite Hr in H. exact H.
Qed.

End Namespace.

Lemma prerun_namespace_witness :
  let found := Demo.facts (1, 9, 0)%nat FlavorKubernetes in
  let prerun := PersistentPreRun (Host.host found) Host.build Host.noUCP Host.bare in
  let s := Demo.start (Demo.cluster Demo.nfsVolume) in
  let g' := processInstallationArguments
              (discovered Host.bare "netapp/trident:18.04.0" "quay.io/coreos/etcd:v3.1.5" true
                 "/opt/trident-installer" "trident") in
  let client' := Host.directed found "trident" in
  cresult_of prerun s = Ok (g', client')
  /\ namespaceSettled Host.bare (ctrace_of prerun s) g' client'.
Proof.
  intros found prerun s g' client'.
  assert (H1 : cresult_of prerun s = Ok (g', client')) by reflexivity.
  split; [exact H1|].
  exact (prerun_settles_the_namespace (Host.host found) Host.build Host.noUCP Host.bare
           g' client' s H1).
Defined.

(** ** What a dry run predicts *)

Section DryRunPrediction.
Context {T : Types} {C : Collaborators} {W : Type}.
Variable handle : Handler W.
Variable client : ClusterFacts.
Variable g : Flags.

Lemma preChecks_dryRunning :
  preChecks handle client (dryRunning g) = preChecks handle client g.
Proof. reflexivity. Qed.

(** X21. From the same state, a run of the installer starts with exactly
    the events of the run with [--dry-run]; when the dry run fails, the
    run fails with the same error and has no other event; when the dry
    run succeeds, the pre-checks of the run have passed. *)
Theorem dry_run_predicts_the_prechecks (s : St W) :
  exists rest,
    trace_of (installTrident handle client g) s
    = trace_of (installTrident handle client (dryRunning g)) s ++ rest
    /\ match result_of (installTrident handle client (dryRunning g)) s with
       | Err err => rest = [] /\ result_of (installTrident handle client g) s = Err err
       | Ok _ => exists checks, result_of (preChecks handle client g) s = Ok checks
       end.
Proof.
  unfold installTrident. rewrite preChecks_dryRunning.
  rewrite !trace_bind, !result_bind.
  destruct (result_of (preChecks handle client g) s) as [[[[ns pe] pv] sb]|err]; simpl.
  - exists (trace_of (if dryRun g then ret tt else installSteps handle client g ns pe pv sb)
              (state_of (preChecks handle client g) s)).
    split.
    + change (trace_of (ret tt) (state_of (preChecks handle client g) s)) with (@nil Event).
      rewrite app_nil_r. reflexivity.
    + eexists. reflexivity.
  - exists []. split; [rewrite !app_nil_r; reflexivity|]. split; reflexivity.
Qed.

End DryRunPrediction.

(** ** What the pre-run leaves untouched *)

Section PreRun.
Context {T : Types} {C : Collaborators} {W : Type}.
Variable handle : Handler W.
Variable host : SysHandler W.
Variable build : BuildInfo.
Variable u : UCPFlags.

Lemma PersistentPreRun_changes_nothing g :
  cpost (PersistentPreRun host build u g)
    (fun t _ => Forall (fun e => changesNothing e = true) t).
Proof.
  unfold PersistentPreRun, initInstallerLogging, discoverInstallationEnvironment,
    prepareYAMLFilePaths.
  cpost_walk; simpl; repeat constructor.
Qed.

(** X22. The pre-run of the command changes nothing: it removes and
    writes no file and runs no part of the installer.  So a command whose
    pre-run fails (logging, the operating system, the clients, the
    installer's directory, the arguments) ends with that failure and has
    changed nothing. *)
Theorem failed_prerun_changes_nothing (g : Flags) (s : St W) (err : error) :
  cresult_of (PersistentPreRun host build u g) s = Err err ->
  cresult_of (installCmd handle host build u g) s = Err err
  /\ Forall (fun e => changesNothing e = true) (ctrace_of (installCmd handle host build u g) s).
Proof.
  intros Hr. unfold installCmd. rewrite ctrace_cbind, cresult_cbind, Hr.
  split; [reflexivity|]. rewrite app_nil_r. apply PersistentPreRun_changes_nothing.
Qed.

Lemma PersistentPreRun_other_system g :
  (GOOS build =? "linux") = false ->
  cpost (PersistentPreRun host build u g)
    (fun t r =>
       (r = Err "Failed to initialize logging."
        \/ r = Err "Install pre-checks failed; the Trident installer only runs on Linux")
       /\ Forall (fun e => beforeAnyClient e = true) t).
Proof.
  intros Hos.
  unfold PersistentPreRun, initInstallerLogging, discoverInstallationEnvironment.
  rewrite Hos. cbn [negb].
  cpost_walk; simpl; (split; [auto | repeat constructor]).
Qed.

(** X23. On an operating system other than Linux the command fails, with
    [the Trident installer only runs on Linux] unless logging could not be
    initialised, and it has done nothing but initialise logging and write
    log lines: no client was created, no file touched, no part of the
    installer run. *)
Theorem command_refuses_other_systems (g : Flags) (s : St W) :
  (GOOS build =? "linux") = false ->
  (cresult_of (installCmd handle host build u g) s = Err "Failed to initialize logging."
   \/ cresult_of (installCmd handle host build u g) s
      = Err "Install pre-checks failed; the Trident installer only runs on Linux")
  /\ Forall (fun e => beforeAnyClient e = true)
       (ctrace_of (installCmd handle host build u g) s).
Proof.
  intros Hos. destruct (PersistentPreRun_other_system g Hos s) as [Hr Ht].
  unfold installCmd. rewrite ctrace_cbind, cresult_cbind.
  destruct Hr as [Hr|Hr]; rewrite Hr; (split; [auto | rewrite app_nil_r; exact Ht]).
Qed.

End PreRun.

Lemma failed_prerun_witness :
  let found := Demo.facts (1, 9, 0)%nat FlavorKubernetes in
  let handle := Sim.handle Demo.noFaults in
  let s := Demo.start (Demo.cluster Demo.nfsVolume) in
  let err := "Invalid arguments; 'Trident' is not a valid namespace name; " +:+ labelFormat in
  cresult_of (PersistentPreRun (Host.host found) Host.build Host.noUCP Host.capitalised) s
  = Err err
  /\ cresult_of (installCmd handle (Host.host found) Host.build Host.noUCP Host.capitalised) s
     = Err err
  /\ Forall (fun e => changesNothing e = true)
       (ctrace_of (installCmd handle (Host.host found) Host.build Host.noUCP Host.capitalised) s).
Proof.
  intros found handle s err.
  assert (H1 : cresult_of (PersistentPreRun (Host.host found) Host.build Host.noUCP
                             Host.capitalised) s = Err err) by reflexivity.
  split; [exact H1|].
  exact (failed_prerun_changes_nothing handle (Host.host found) Host.build Host.noUCP
           Host.capitalised s err H1).
Defined.

Lemma other_system_witness :
  let found := Demo.facts (1, 9, 0)%nat FlavorKubernetes in
  let run := installCmd (Sim.handle Demo.noFaults) (Host.host found) Host.elsewhere
               Host.noUCP Host.bare in
  let s := Demo.start (Demo.cluster Demo.nfsVolume) in
  (GOOS Host.elsewhere =? "linux") = false
  /\ (cresult_of run s = Err "Failed to initialize logging."
      \/ cresult_of run s
         = Err "Install pre-checks failed; the Trident installer only runs on Linux")
  /\ Forall (fun e => beforeAnyClient e = true) (ctrace_of run s).
Proof.
  intros found run s.
  assert (H1 : (GOOS Host.elsewhere =? "linux") = false) by reflexivity.
  split; [exact H1|].
  exact (command_refuses_other_systems (Sim.handle Demo.noFaults) (Host.host found)
           Host.elsewhere Host.noUCP Host.bare s H1).
Defined.

(** ** The size of an existing volume *)

Section VolumeSize.
Context {T : Types} {C : Collaborators} {W : Type}.
Variable handle : Handler W.
Variable client : ClusterFacts.
Variable g : Flags.

(** The volume that was fetched is one the installer can work with, and
    these are the warnings about it. *)
Local Abbreviation sized requested t :=
  (forall pv,
     Ok pv ∈ omap volumeFetched t -> volumeCompatible g pv ->
     omap volumeWarning t = sizeWarning g requested pv).

Lemma sized_skip {A B} requested (m : M W A) (f : A -> M W B) :
  unseen volumeFetched m -> unseen volumeWarning m ->
  (forall a, post (f a) (fun t _ => sized requested t)) ->
  post (bind m f) (fun t _ => sized requested t).
Proof.
  intros Hf Hw Hk s pv. rewrite trace_bind, !omap_app.
  rewrite (unseen_trace _ m s Hf), (unseen_trace _ m s Hw). simpl.
  destruct (result_of m s) as [a|err].
  - apply Hk.
  - intros Hin. apply elem_of_nil in Hin. contradiction.
Qed.

Lemma sized_then {A B} requested (m : M W A) (f : A -> M W B) :
  post m (fun t _ => sized requested t) ->
  (forall a, unseen volumeFetched (f a)) -> (forall a, unseen volumeWarning (f a)) ->
  post (bind m f) (fun t _ => sized requested t).
Proof.
  intros Hm Hf Hw s pv. rewrite trace_bind, !omap_app.
  destruct (result_of m s) as [a|err].
  - rewrite (unseen_trace _ (f a) _ (Hf a)), (unseen_trace _ (f a) _ (Hw a)), !app_nil_r.
    apply Hm.
  - simpl. rewrite !app_nil_r. apply Hm.
Qed.

Lemma checkPV_sized requested :
  post (checkPV handle g requested) (fun t _ => sized requested t).
Proof.
  unfold checkPV, sizeWarning. post_walk; simpl; intros pv' Hin Hc;
    try (apply elem_of_nil in Hin; contradiction);
    apply list_elem_of_singleton in Hin; try discriminate;
    injection Hin as <-;
    repeat match goal with
           | H : _ !! _ = _ |- _ => rewrite H
           end;
    try match goal with
        | H : negb (_ =? _)%Z = true |- _ => apply negb_true_iff in H; rewrite H
        | H : negb (_ =? _)%Z = false |- _ => apply negb_false_iff in H; rewrite H
        end;
    try reflexivity.
  all: exfalso; destruct Hc as (Hrel & Hfail & Hbound & Hlabel).
  all: try (rewrite (carriesLabel_checked _ _ Hlabel) in *; discriminate).
  all: try match goal with
           | H : (if ?b then _ else _) = Some _ |- _ => destruct b eqn:?; [|discriminate]
           end.
  all: eqb_prop; try congruence.
  all: edestruct Hbound as [? ?]; eauto; congruence.
Qed.

Lemma preChecks_sized requested :
  ParseQuantity (volumeSize g) = Ok requested ->
  post (preChecks handle client g) (fun t _ => sized requested t).
Proof.
  intros Hparse. unfold preChecks, parseVolumeSize. rewrite Hparse.
  apply post_bind, post_ret. simpl app.
  apply sized_skip; [emits_walk reflexivity | emits_walk reflexivity | intros _].
  apply sized_skip; [emits_walk reflexivity | emits_walk reflexivity | intros ns].
  apply sized_skip; [emits_walk reflexivity | emits_walk reflexivity | intros pe].
  apply sized_then; [apply checkPV_sized | intros pvExists; emits_walk reflexivity
                     | intros pvExists; emits_walk reflexivity].
Qed.

(** X24. The capacity of an existing volume decides nothing: when the
    volume that a run fetches is one the installer can work with, the
    warnings of the run about the volume are none if its capacity is the
    size asked for, one line with both sizes if it differs, and one line
    saying that the size could not be determined if the volume states no
    storage capacity. *)
Theorem existing_volume_size_only_warns (s : St W) (requested : Quantity)
    (pv : PersistentVolume) :
  ParseQuantity (volumeSize g) = Ok requested ->
  Ev (GetPV (pvName g)) (Ok pv) ∈ trace_of (installTrident handle client g) s ->
  volumeCompatible g pv ->
  omap volumeWarning (trace_of (installTrident handle client g) s)
  = sizeWarning g requested pv.
Proof.
  intros Hparse Hin Hc.
  assert (H : post (installTrident handle client g) (fun t _ => sized requested t)).
  { unfold installTrident. apply sized_then; [apply preChecks_sized, Hparse | |];
      intros [[[ns pe] pvExists] sb]; emits_walk reflexivity. }
  apply (H s pv); [|exact Hc].
  exact (observed_elem volumeFetched _ _ _ Hin eq_refl).
Qed.

End VolumeSize.

Lemma volume_size_witness :
  let run := installTrident (Sim.handle Demo.noFaults)
               (Demo.facts (1, 9, 0)%nat FlavorKubernetes) Demo.flags_dry in
  let s := Demo.start (Sim.with_objects (Demo.cluster Demo.nfsVolume)
                         None (Some Demo.existingVolume)) in
  ParseQuantity (volumeSize Demo.flags_dry) = Ok 2147483648
  /\ Ev (GetPV (pvName Demo.flags_dry)) (Ok Demo.existingVolume) ∈ trace_of run s
  /\ volumeCompatible Demo.flags_dry Demo.existingVolume
  /\ omap volumeWarning (trace_of run s)
     = [([("existing", "1073741824"); ("request", "2147483648"); ("pv", "trident")],
         [Txt "Existing PV size does not match request."])].
Proof.
  intros run s.
  assert (H1 : ParseQuantity (volumeSize Demo.flags_dry) = Ok 2147483648) by reflexivity.
  assert (H2 : Ev (GetPV (pvName Demo.flags_dry)) (Ok Demo.existingVolume) ∈ trace_of run s)
    by (vm_compute; repeat constructor).
  assert (H3 : volumeCompatible Demo.flags_dry Demo.existingVolume).
  { repeat split; discriminate. }
  split; [exact H1|]. split; [exact H2|]. split; [exact H3|].
  exact (existing_volume_size_only_warns (Sim.handle Demo.noFaults)
           (Demo.facts (1, 9, 0)%nat FlavorKubernetes) Demo.flags_dry s _ _ H1 H2 H3).
Defined.
